(** * persistent-cookiejar: atomic file replacement and the jar persister

    A shallow embedding of [persist.go] (the [atomicFile] temp-file writer)
    and of the jar persister ([Save], [Load], [WriteTo], [ReadFrom],
    [mergeEntries], [loadJSON], [encodeJSON], [decodeJSON]).

    The operating system is modelled as a state ([world]) threaded through
    every call, together with an [environment] that resolves what the program
    cannot control: which system calls fail, what other processes do to the
    file system between two of our system calls, how the clock advances,
    which random number [ioutil.TempFile] draws and where the temporary
    directory is. *)

From Stdlib Require Import ZArith Ascii.
From stdpp Require Import gmap strings list fin_maps.

Local Open Scope Z_scope.
Local Open Scope string_scope.

(** ** Errors *)

(** Error numbers carried by [*os.PathError] / [*os.LinkError]. *)
Inductive errno := ENOENT | EEXIST | EACCES | EIO | ENOSPC | EXDEV | EINVAL.

(** Errors of package encoding/json (and [io.EOF], which its decoder returns
    for a stream that ends before any value). *)
Inductive json_error :=
| EOF                           (* io.EOF *)
| UnexpectedEOF                 (* io.ErrUnexpectedEOF *)
| SyntaxError                   (* *json.SyntaxError *)
| UnmarshalTypeError            (* *json.UnmarshalTypeError *)
| MarshalerError.               (* *json.MarshalerError, *json.UnsupportedValueError *)

(** The [error] values that flow through the package.  [None : option error]
    is Go's [nil].  The two values made with [errors.New] are compared by
    identity, so no other package can return them. *)
Inductive error :=
| erratomicFileRetry            (* errors.New("original file newer than new contents") *)
| errNotLoaded                  (* errors.New("save called on non-loaded cookie jar") *)
| PathError (e : errno)         (* an error returned by package os *)
| JSONError (e : json_error).   (* an error returned by package encoding/json *)

#[global] Instance errno_eq_dec : EqDecision errno.
Proof. solve_decision. Defined.
#[global] Instance json_error_eq_dec : EqDecision json_error.
Proof. solve_decision. Defined.
#[global] Instance error_eq_dec : EqDecision error.
Proof. solve_decision. Defined.

(** [os.IsNotExist(err)]. *)
Definition IsNotExist (err : option error) : bool :=
  match err with
  | Some (PathError ENOENT) => true
  | _ => false
  end.

(** Package os only ever returns its own errors. *)
Definition os_error (r : option errno) : option error := PathError <$> r.

(** ** The file system and its environment *)

(** A regular file: its bytes and its modification time (nanoseconds). *)
Record file := File { data : string; modTime : Z }.

#[global] Instance file_eq_dec : EqDecision file.
Proof. solve_decision. Defined.

(** [t.After(u)] of package time. *)
Definition After (t u : Z) : bool := bool_decide (u < t).

Inductive syscall :=
| SysTempFile (dir pattern : string)
| SysWrite (name : string) (bytes : string)
| SysSync (name : string)
| SysClose (name : string)
| SysStat (path : string)
| SysRename (oldpath newpath : string)
| SysRemove (path : string)
| SysOpen (path : string)
| SysRead (name : string).

#[global] Instance syscall_eq_dec : EqDecision syscall.
Proof. solve_decision. Defined.

(** One entry of the log of system calls issued by this process: the call
    and the error it returned, if any. *)
Record event := Event { ev_call : syscall; ev_err : option errno }.

#[global] Instance event_eq_dec : EqDecision event.
Proof. solve_decision. Defined.

(** The state of the machine as this process sees it.  [trace] is the log of
    the system calls issued so far, most recent first. *)
Record world := World {
  files : gmap string file;
  clock : Z;
  trace : list event
}.

(** What the program does not control.  The first four fields are indexed
    by the number of system calls issued so far. *)
Record environment := Environment {
  fault  : nat → syscall → option errno;  (* an injected failure of the n-th call *)
  rival  : nat → gmap string file → gmap string file;
                                          (* other processes, just before the n-th call *)
  elapse : nat → Z;                       (* clock advance before the n-th call *)
  random : nat → N;                       (* the random number that the n-th call draws
                                             when it is a [TempFile] *)
  TMPDIR : string                         (* the environment variable of that name,
                                             empty when it is not set *)
}.

(** [itoa.Uitoa]: a number in decimal.  The buffer of the source has room
    for twenty digits. *)
Definition digit (n : N) : ascii := ascii_of_N (48 + n mod 10).

Fixpoint Uitoa_from (room : nat) (val : N) (acc : string) : string :=
  match room with
  | O => String (digit val) acc
  | S room' =>
      if (val <? 10)%N then String (digit val) acc
      else Uitoa_from room' (val / 10) (String (digit val) acc)
  end.

Definition Uitoa (val : N) : string := Uitoa_from 19 val "".

(** [nextRandom()] of package os, for the [n]-th system call: the decimal
    digits of a random [uint32]. *)
Definition nextRandom (E : environment) (n : nat) : string :=
  Uitoa (random E n mod 2 ^ 32).

(** No other process touches the file system. *)
Definition quiet (E : environment) : Prop := ∀ n fs, rival E n fs = fs.

(** No other process creates a file under the name [x]. *)
Definition private (E : environment) (x : string) : Prop :=
  ∀ n fs, fs !! x = None → rival E n fs !! x = None.

(** No system call fails for a reason of its own. *)
Definition faultless (E : environment) : Prop := ∀ n c, fault E n c = None.

(** The clock does not go back. *)
Definition steady (E : environment) : Prop := ∀ n, (0 ≤ elapse E n)%Z.

(** Removing a file never fails for a reason of its own; the file may still
    be missing. *)
Definition removal_works (E : environment) : Prop :=
  ∀ n path, fault E n (SysRemove path) = None.

Definition tick (w : world) : nat := length (trace w).

Definition is_TempFile (c : syscall) : bool :=
  match c with
  | SysTempFile _ _ => true
  | _ => false
  end.

(** [w'] is reached from [w] by system calls that create no temporary file
    and that create no file at all except, possibly, [path]: a name that is
    free in [w], is not [path] and is left alone by other processes is free
    in [w']. *)
Definition follows (E : environment) (path : string) (w w' : world) : Prop :=
  (∃ evs, trace w' = (evs ++ trace w)%list
          ∧ Forall (λ ev, is_TempFile (ev_call ev) = false) evs)
  ∧ ∀ x, private E x → x ≠ path → files w !! x = None → files w' !! x = None.

(** Entering a system call: other processes run and time passes. *)
Definition enter (E : environment) (w : world) : world :=
  {| files := rival E (tick w) (files w);
     clock := clock w + elapse E (tick w);
     trace := trace w |}.

(** Leaving a system call: the file system is updated and the call is logged. *)
Definition leave (c : syscall) (r : option errno) (fs : gmap string file) (w : world) : world :=
  {| files := fs; clock := clock w; trace := Event c r :: trace w |}.

(** [prefixAndSuffix(pattern)] of package os: the pattern cut at its last
    star; without a star, all of it is prefix. *)
Fixpoint cut_at_last_star (pattern : string) : option (string * string) :=
  match pattern with
  | EmptyString => None
  | String c r =>
      match cut_at_last_star r with
      | Some (prefix, suffix) => Some (String c prefix, suffix)
      | None => if decide (c = "*"%char) then Some ("", r) else None
      end
  end.

Definition prefixAndSuffix (pattern : string) : string * string :=
  default (pattern, "") (cut_at_last_star pattern).

(** [joinPath(dir, name)] of package os: a separator is put in between
    unless [dir] ends with one. *)
Fixpoint ends_with_separator (dir : string) : bool :=
  match dir with
  | EmptyString => false
  | String c EmptyString => bool_decide (c = "/"%char)
  | String _ r => ends_with_separator r
  end.

Definition joinPath (dir name : string) : string :=
  if ends_with_separator dir then dir +:+ name else dir +:+ "/" +:+ name.

Section OS.
Variable E : environment.

(** [os.TempDir()]: the value of [$TMPDIR], or [/tmp] when it is empty. *)
Definition TempDir : string := if decide (TMPDIR E = "") then "/tmp" else TMPDIR E.

(** The name that [ioutil.TempFile(dir, pattern)] (that is [os.CreateTemp])
    picks when it is the [n]-th system call: in [dir] (in [os.TempDir()] when
    [dir] is empty), the pattern with the random digits in place of its last
    star, or after it when it has no star. *)
Definition temp_path (dir pattern : string) (n : nat) : string :=
  let '(prefix, suffix) := prefixAndSuffix pattern in
  joinPath (if decide (dir = "") then TempDir else dir) prefix +:+ nextRandom E n +:+ suffix.

(** [ioutil.TempFile(dir, pattern)], for a [pattern] without a path
    separator, which is what [create] passes (the library refuses the others
    before any system call): creates a new empty file under that name.
    Creation is exclusive.  The library draws again when the name is taken,
    and gives up with the file-exists error after ten thousand draws;
    [random] is the last draw of the call. *)
Definition os_TempFile (dir pattern : string) (w : world) : (errno + string) * world :=
  let w1 := enter E w in
  let c := SysTempFile dir pattern in
  let name := temp_path dir pattern (tick w) in
  match fault E (tick w) c with
  | Some e => (inl e, leave c (Some e) (files w1) w1)
  | None =>
      match files w1 !! name with
      | Some _ => (inl EEXIST, leave c (Some EEXIST) (files w1) w1)
      | None => (inr name, leave c None (<[name := File "" (clock w1)]> (files w1)) w1)
      end
  end.

(** [f.Write(bytes)]: appends to the file.  A file that was unlinked
    meanwhile is written to without any visible effect. *)
Definition os_Write (name bytes : string) (w : world) : option errno * world :=
  let w1 := enter E w in
  let c := SysWrite name bytes in
  match fault E (tick w) c with
  | Some e => (Some e, leave c (Some e) (files w1) w1)
  | None =>
      match files w1 !! name with
      | Some f => (None, leave c None (<[name := File (data f +:+ bytes) (clock w1)]> (files w1)) w1)
      | None => (None, leave c None (files w1) w1)
      end
  end.

(** [f.Sync()]. *)
Definition os_Sync (name : string) (w : world) : option errno * world :=
  let w1 := enter E w in
  let r := fault E (tick w) (SysSync name) in
  (r, leave (SysSync name) r (files w1) w1).

(** [f.Close()]. *)
Definition os_Close (name : string) (w : world) : option errno * world :=
  let w1 := enter E w in
  let r := fault E (tick w) (SysClose name) in
  (r, leave (SysClose name) r (files w1) w1).

(** [os.Stat(path)]: the file information is [nil] whenever an error is
    returned. *)
Definition os_Stat (path : string) (w : world) : (option file * option errno) * world :=
  let w1 := enter E w in
  let c := SysStat path in
  match fault E (tick w) c with
  | Some e => ((None, Some e), leave c (Some e) (files w1) w1)
  | None =>
      match files w1 !! path with
      | Some f => ((Some f, None), leave c None (files w1) w1)
      | None => ((None, Some ENOENT), leave c (Some ENOENT) (files w1) w1)
      end
  end.

(** [os.Rename(oldpath, newpath)]: atomically replaces [newpath]. *)
Definition os_Rename (oldpath newpath : string) (w : world) : option errno * world :=
  let w1 := enter E w in
  let c := SysRename oldpath newpath in
  match fault E (tick w) c with
  | Some e => (Some e, leave c (Some e) (files w1) w1)
  | None =>
      match files w1 !! oldpath with
      | Some f => (None, leave c None (<[newpath := f]> (delete oldpath (files w1))) w1)
      | None => (Some ENOENT, leave c (Some ENOENT) (files w1) w1)
      end
  end.

(** [os.Remove(path)]. *)
Definition os_Remove (path : string) (w : world) : option errno * world :=
  let w1 := enter E w in
  let c := SysRemove path in
  match fault E (tick w) c with
  | Some e => (Some e, leave c (Some e) (files w1) w1)
  | None =>
      match files w1 !! path with
      | Some _ => (None, leave c None (delete path (files w1)) w1)
      | None => (Some ENOENT, leave c (Some ENOENT) (files w1) w1)
      end
  end.

(** [os.Open(path)]: the open file is represented by the bytes it held
    when it was opened. *)
Definition os_Open (path : string) (w : world) : (errno + string) * world :=
  let w1 := enter E w in
  let c := SysOpen path in
  match fault E (tick w) c with
  | Some e => (inl e, leave c (Some e) (files w1) w1)
  | None =>
      match files w1 !! path with
      | Some f => (inr (data f), leave c None (files w1) w1)
      | None => (inl ENOENT, leave c (Some ENOENT) (files w1) w1)
      end
  end.

(** Reading an open file to its end. *)
Definition os_Read (name bytes : string) (w : world) : (errno + string) * world :=
  let w1 := enter E w in
  let c := SysRead name in
  match fault E (tick w) c with
  | Some e => (inl e, leave c (Some e) (files w1) w1)
  | None => (inr bytes, leave c None (files w1) w1)
  end.
End OS.

(** The [n]-th system call of this process, counted from zero, as [w] has it
    on its log. *)
Definition nth_call (w : world) (n : nat) : option event := rev (trace w) !! n.

(** [x] is a temporary file that this process created on the way from [st]
    to [st']: one of its system calls in between was a [TempFile] that
    succeeded, and [x] is the name that call picked. *)
Definition created_temp (E : environment) (st st' : world) (x : string) : Prop :=
  ∃ n dir pattern,
    (tick st ≤ n)%nat
    ∧ nth_call st' n = Some (Event (SysTempFile dir pattern) None)
    ∧ x = temp_path E dir pattern n.

(** ** persist.go: the atomic file writer *)

(** [path.Split]: the directory part, up to and including the last slash,
    and the file name after it.  [filepath.ToSlash] is the identity on
    systems whose separator is the slash. *)
Fixpoint Split (p : string) : string * string :=
  match p with
  | EmptyString => ("", "")
  | String c r =>
      let '(dir, name) := Split r in
      if decide (dir = "") then
        if decide (c = "/"%char) then ("/", r) else ("", String c r)
      else (String c dir, name)
  end.

Definition ToSlash (p : string) : string := p.

(** [type atomicFile struct], with its fields [filename], [file] and
    [ctime].  The [*os.File] is represented by the name it was created under
    ([a.file.Name()]); [None] is the nil pointer. *)
Record atomicFile := AtomicFile {
  af_filename : string;
  af_file : option string;
  af_ctime : Z
}.

(** [var af atomicFile]: the zero value. *)
Definition zero_atomicFile : atomicFile := AtomicFile "" None 0.

(** [a.isRetry(err)]. *)
Definition isRetry (err : option error) : bool :=
  bool_decide (err = Some erratomicFileRetry).

Section AtomicFile.
Variable E : environment.

(** The name that [create] gives to the temporary file when its [TempFile]
    is the [n]-th system call. *)
Definition temp_name (filename : string) (n : nat) : string :=
  temp_path E (Split (ToSlash filename)).1 (Split (ToSlash filename)).2 n.

(** [func (a *atomicFile) create(filename string) (f *os.File, err error)].
    The returned [f] is [af_file] of the returned handle. *)
Definition create (a : atomicFile) (filename : string) (w : world)
  : atomicFile * option error * world :=
  let '(dir, name) := Split (ToSlash filename) in
  let '(r, w1) := os_TempFile E dir name w in
  match r with
  | inr f => (AtomicFile filename (Some f) (clock w1), None, w1)
  | inl e => (AtomicFile filename None (af_ctime a), Some (PathError e), w1)
  end.

(** [func (a *atomicFile) cancel() error]. *)
Definition cancel (a : atomicFile) (w : world) : option error * world :=
  match af_file a with
  | None => (None, w)
  | Some f =>
      let '(_, w1) := os_Close E f w in
      let '(r, w2) := os_Remove E f w1 in
      let err := os_error r in
      if IsNotExist err then (None, w2) else (err, w2)
  end.

(** [func (a *atomicFile) commit() error].  The result of [Sync] and
    [Close] is held in [err] until [fi, err := os.Stat(a.filename)]
    assigns [err] again. *)
Definition commit (a : atomicFile) (w : world) : option error * world :=
  match af_file a with
  | None => (None, w)
  | Some f =>
      let '(syncErr, w1) := os_Sync E f w in
      let '(closeErr, w2) := os_Close E f w1 in
      let err := match syncErr with None => os_error closeErr | Some _ => os_error syncErr end in
      let '((fi, statErr), w3) := os_Stat E (af_filename a) w2 in
      let err := os_error statErr in
      let '(err, w4) :=
        if bool_decide (err = None) || IsNotExist err then
          match fi with
          | Some info =>
              if After (modTime info) (af_ctime a)
              then (Some erratomicFileRetry, w3)
              else let '(r, w4) := os_Rename E f (af_filename a) w3 in (os_error r, w4)
          | None => let '(r, w4) := os_Rename E f (af_filename a) w3 in (os_error r, w4)
          end
        else (err, w3) in
      match err with
      | Some _ => let '(_, w5) := cancel a w4 in (err, w5)
      | None => let '(_, w5) := os_Close E f w4 in (err, w5)
      end
  end.

(** The world in which [commit] looks at the target: the temporary file has
    been flushed and closed. *)
Definition flushed (f : string) (w : world) : world :=
  (os_Close E f (os_Sync E f w).2).2.
End AtomicFile.

(** ** The jar persister *)

(** An open file as an [io.Reader]: its name and the bytes still to be read. *)
Record reader := Reader { rd_name : string; rd_bytes : string }.

(** How a call ends: it returns, it stops in a run-time panic (in the world
    [st]), or, for the loop of [Save] cut off by a bound on its turns, it is
    still running. *)
Inductive outcome (A : Type) : Type :=
| Returns (a : A)
| Panics (st : world)
| Loops.
Arguments Returns {A} a.
Arguments Panics {A} st.
Arguments Loops {A}.

(** How a turn of the loop of [Save] ends: with a [return err], at the end
    of the body or a [continue], or in a panic. *)
Inductive turn := Return (err : option error) | Continue | Panic.

(** A fold that stops at the first step without a result. *)
Fixpoint foldlM {A B : Type} (f : A → B → option A) (a : A) (l : list B) : option A :=
  match l with
  | [] => Some a
  | b :: l' => f a b ≫= λ a', foldlM f a' l'
  end.

Section Jar.
(** [type entry struct] is declared with the jar itself, outside the files
    modelled here; the persister never looks inside it. *)
Context {entry : Type}.

(** [map[string]entry], the inner maps: [None] is the nil map, which reads
    as the empty map, which the encoder writes as [null], and which cannot
    be assigned to. *)
Local Abbreviation Inner := (option (gmap string entry)).

(** What a map holds when it is read: nothing, for the nil map. *)
Definition held (i : Inner) : gmap string entry := default ∅ i.

(** [map[string]map[string]entry]: domain, then cookie name. *)
Local Abbreviation Document := (gmap string Inner).

(** The fields of [type Jar struct] that the persister uses.  The mutex
    [mu] is not represented: calls are modelled one at a time.  [entries]
    is an allocated map, as the jar's constructor leaves it and as every
    function here keeps it; the inner maps can be nil. *)
Record Jar := MkJar {
  filename : string;
  entries : Document
}.

(** Package encoding/json, at the type [map[string]map[string]entry].
    - [Marshal m] is what [Encoder.Encode(m)] writes (the text of [m] and a
      newline), or the error it returns without writing.
    - [Unmarshal bytes] is what [Decoder.Decode(&m)] does with a stream
      holding [bytes] when [m] is an allocated map: the bindings it stores
      into that map, outer key by outer key, and the error it returns.
      A [null] document stores nothing; a [null] under an outer key stores
      the nil map under that key. *)
Record codec := Codec {
  Marshal : Document → json_error + string;
  Unmarshal : string → Document * option json_error
}.

Variable json : codec.
Variable E : environment.

(** [w.Write(bytes)] on a [*os.File]; the nil file is an invalid argument. *)
Definition file_Write (w : option string) (bytes : string) (st : world) : option errno * world :=
  match w with
  | Some name => os_Write E name bytes st
  | None => (Some EINVAL, st)
  end.

(** [func encodeJSON(w io.Writer, m map[string]map[string]entry) error],
    with the writer being the [*os.File] [w]. *)
Definition encodeJSON (w : option string) (m : Document) (st : world) : option error * world :=
  match Marshal json m with
  | inl e => (Some (JSONError e), st)
  | inr bytes => let '(r, st1) := file_Write w bytes st in (os_error r, st1)
  end.

(** [func decodeJSON(r io.Reader, m map[string]map[string]entry) error].
    [m] is a reference to the caller's map and [Decode(&m)] stores into the
    map it refers to, reusing it and keeping the outer keys the stream does
    not mention; the function returns what the caller's map holds
    afterwards. *)
Definition decodeJSON (r : reader) (m : Document) (st : world) : Document * option error * world :=
  let '(bytes, st1) := os_Read E (rd_name r) (rd_bytes r) st in
  match bytes with
  | inl e => (m, Some (PathError e), st1)
  | inr bytes =>
      let '(stored, err) := Unmarshal json bytes in (stored ∪ m, JSONError <$> err, st1)
  end.

(** [func loadJSON(path string, m map[string]map[string]entry) error]. *)
Definition loadJSON (path : string) (m : Document) (st : world) : Document * option error * world :=
  let '(f, st1) := os_Open E path st in
  match f with
  | inl e =>
      if IsNotExist (Some (PathError e)) then (m, None, st1)
      else (m, Some (PathError e), st1)
  | inr bytes =>
      let '(m', err, st2) := decodeJSON (Reader path bytes) m st1 in
      let '(_, st3) := os_Close E path st2 in       (* defer f.Close() *)
      (m', err, st3)
  end.

(** [d[k0][k1]], when both keys are present. *)
Definition lookup2 (d : Document) (k0 k1 : string) : option entry :=
  d !! k0 ≫= λ i, held i !! k1.

(** [func (j *Jar) mergeEntries(m map[string]map[string]entry)].
    [range] visits the keys in an unspecified order; [map_to_list] is one
    such order.  The result is [None] when the function panics: the
    assignment [j.entries[k0][k1] = ...] panics (assignment to entry in nil
    map) when [j.entries[k0]] is nil, which the test [_, ok := j.entries[k0]]
    does not exclude: a key bound to the nil map is present. *)
Definition merge_inner (k0 : string) (je : Document) (b : string * entry) : option Document :=
  match je !! k0 with
  | Some (Some inner) => Some (<[k0 := Some (<[b.1 := b.2]> inner)]> je)
                                                    (* j.entries[k0][k1] = m[k0][k1] *)
  | Some None | None => None                        (* panic *)
  end.

Definition merge_outer (je : Document) (b : string * Inner) : option Document :=
  let je1 := match je !! b.1 with
             | Some _ => je
             | None => <[b.1 := Some ∅]> je         (* j.entries[k0] = make(map[string]entry) *)
             end in
  foldlM (merge_inner b.1) je1 (map_to_list (held b.2)).

Definition mergeEntries (je m : Document) : option Document :=
  foldlM merge_outer je (map_to_list m).

(** [func (j *Jar) WriteTo(w io.Writer) error]. *)
Definition WriteTo (j : Jar) (w : option string) (st : world) : option error * world :=
  encodeJSON w (entries j) st.

(** [func (j *Jar) ReadFrom(r io.Reader) error]. *)
Definition ReadFrom (j : Jar) (r : reader) (st : world) : Jar * option error * world :=
  let '(m', err, st1) := decodeJSON r (entries j) st in
  (MkJar (filename j) m', err, st1).

(** [func (j *Jar) Load(path string) error]. *)
Definition Load (j : Jar) (path : string) (st : world) : Jar * option error * world :=
  let '(m', err, st1) := loadJSON path (entries j) st in
  match err with
  | Some _ => (MkJar (filename j) m', err, st1)
  | None => (MkJar path m', None, st1)
  end.

(** One turn of the [for] loop of [Save], with the jar and the world it
    leaves.  [af.close()] there is the method that persist.go names
    [commit].  When the merge panics the jar given is the one before the
    merge: the source leaves it partly merged, and locked, and the loop
    below drops it. *)
Definition Save_attempt (j : Jar) (st : world) : turn * Jar * world :=
  let '(af, err, st1) := create E zero_atomicFile (filename j) st in
  match err with
  | Some _ => (Return err, j, st1)
  | None =>
      let '(err, st2) := WriteTo j (af_file af) st1 in
      match err with
      | Some _ => let '(_, st3) := cancel E af st2 in (Return err, j, st3)
      | None =>
          let '(err, st3) := commit E af st2 in
          match err with
          | None => (Return None, j, st3)
          | Some _ =>
              let '(_, st4) := cancel E af st3 in
              if negb (isRetry err) then (Return err, j, st4)
              else
                let '(m, lerr, st5) := loadJSON (filename j) ∅ st4 in
                match lerr with
                | Some _ => (Continue, j, st5)      (* continue *)
                | None =>
                    match mergeEntries (entries j) m with
                    | Some merged => (Continue, MkJar (filename j) merged, st5)
                    | None => (Panic, j, st5)
                    end
                end
          end
      end
  end.

(** The loop itself.  It has no bound in the source; [fuel] bounds the
    number of turns and [Loops] means that the bound was reached. *)
Fixpoint Save_loop (fuel : nat) (j : Jar) (st : world) : outcome (option error * Jar * world) :=
  match fuel with
  | O => Loops
  | S fuel' =>
      match Save_attempt j st with
      | (Return err, j', st') => Returns (err, j', st')
      | (Continue, j', st') => Save_loop fuel' j' st'
      | (Panic, _, st') => Panics st'
      end
  end.

(** [func (j *Jar) Save() error]. *)
Definition Save (fuel : nat) (j : Jar) (st : world) : outcome (option error * Jar * world) :=
  if decide (filename j = "") then Returns (Some errNotLoaded, j, st)
  else Save_loop fuel j st.
End Jar.

Arguments Jar : clear implicits.
Arguments codec : clear implicits.

(** ** A sample instance of the parameters

    A cookie is reduced to its value, and the JSON codec reads and writes the
    fragment of JSON that such documents need: objects whose members are
    objects, or [null], whose members are strings.  It serves to run the
    persister on concrete inputs.  It is not package encoding/json: it
    writes the members in the order of [map_to_list], not sorted by key; it
    copies the bytes of a string above 127 as they are, where the package
    writes and reads U+FFFD for those that are no valid UTF-8; and it reads
    no other [\u] escapes than those it writes.  The strings used below are
    ASCII. *)
Module Sample.
Definition entry : Type := string.

Definition dquote : ascii := "034"%char.
Definition backslash : ascii := "092"%char.

(** *** Writing *)

Definition hex_digit (n : N) : ascii :=
  if (n <? 10)%N then ascii_of_N (48 + n) else ascii_of_N (87 + n).

(** Quotes, backslashes and control characters are escaped, and so are the
    characters that matter in HTML; every other byte is copied. *)
Definition needs_u (c : ascii) : bool :=
  (N_of_ascii c <? 32)%N
  || bool_decide (c = "<"%char) || bool_decide (c = ">"%char) || bool_decide (c = "&"%char).

Definition escape_char (c : ascii) : string :=
  if decide (c = dquote) then String backslash (String dquote "")
  else if decide (c = backslash) then String backslash (String backslash "")
  else if decide (c = "010"%char) then String backslash "n"
  else if decide (c = "013"%char) then String backslash "r"
  else if decide (c = "009"%char) then String backslash "t"
  else if needs_u c then
    String backslash
      (String "u" (String "0" (String "0"
        (String (hex_digit (N_of_ascii c / 16)) (String (hex_digit (N_of_ascii c mod 16)) "")))))
  else String c "".

Fixpoint escape (s : string) : string :=
  match s with
  | EmptyString => ""
  | String c r => escape_char c +:+ escape r
  end.

Definition write_string (s : string) : string :=
  String dquote (escape s +:+ String dquote "").

Fixpoint write_members {A} (wv : A → string) (l : list (string * A)) : string :=
  match l with
  | [] => ""
  | [(k, v)] => write_string k +:+ ":" +:+ wv v
  | (k, v) :: l' => write_string k +:+ ":" +:+ wv v +:+ "," +:+ write_members wv l'
  end.

Definition write_object {A} (wv : A → string) (l : list (string * A)) : string :=
  "{" +:+ write_members wv l +:+ "}".

(** The nil map is written as [null]. *)
Definition write_inner (i : option (gmap string entry)) : string :=
  match i with
  | Some m => write_object write_string (map_to_list m)
  | None => "null"
  end.

Definition write_document (m : gmap string (option (gmap string entry))) : string :=
  write_object write_inner (map_to_list m).

(** *** Reading *)

Definition is_space (c : ascii) : bool :=
  bool_decide (c = " "%char) || bool_decide (c = "009"%char)
  || bool_decide (c = "010"%char) || bool_decide (c = "013"%char).

Fixpoint skip_ws (s : string) : string :=
  match s with
  | String c r => if is_space c then skip_ws r else s
  | EmptyString => ""
  end.

Definition unhex (c : ascii) : option N :=
  let n := N_of_ascii c in
  if (48 <=? n)%N && (n <=? 57)%N then Some (n - 48)%N
  else if (97 <=? n)%N && (n <=? 102)%N then Some (n - 87)%N
  else if (65 <=? n)%N && (n <=? 70)%N then Some (n - 55)%N
  else None.

Definition simple_escape (c : ascii) : option ascii :=
  if decide (c = dquote) then Some dquote
  else if decide (c = backslash) then Some backslash
  else if decide (c = "/"%char) then Some "/"%char
  else if decide (c = "n"%char) then Some "010"%char
  else if decide (c = "r"%char) then Some "013"%char
  else if decide (c = "t"%char) then Some "009"%char
  else if decide (c = "b"%char) then Some "008"%char
  else if decide (c = "f"%char) then Some "012"%char
  else None.

(** The rest of a string literal, after its opening quote. *)
Fixpoint read_string (s : string) : option (string * string) :=
  match s with
  | EmptyString => None
  | String c r =>
      if decide (c = dquote) then Some ("", r)
      else if decide (c = backslash) then
        match r with
        | String "u" (String "0" (String "0" (String x (String y r')))) =>
            match unhex x, unhex y, read_string r' with
            | Some h, Some l, Some (t, rest) => Some (String (ascii_of_N (16 * h + l)) t, rest)
            | _, _, _ => None
            end
        | String e r' =>
            match simple_escape e, read_string r' with
            | Some c', Some (t, rest) => Some (String c' t, rest)
            | _, _ => None
            end
        | EmptyString => None
        end
      else if (N_of_ascii c <? 32)%N then None
      else
        match read_string r with
        | Some (t, rest) => Some (String c t, rest)
        | None => None
        end
  end.

Definition expect (c : ascii) (s : string) : option string :=
  match skip_ws s with
  | String c' r => if decide (c' = c) then Some r else None
  | EmptyString => None
  end.

Definition read_literal (s : string) : option (string * string) :=
  expect dquote s ≫= read_string.

(** The members of an object, after its opening brace, when there is at
    least one. *)
Fixpoint read_members {A} (rv : string → option (A * string)) (fuel : nat) (s : string)
  : option (list (string * A) * string) :=
  match fuel with
  | O => None
  | S fuel' =>
      '(k, s1) ← read_literal s;
      s2 ← expect ":"%char s1;
      '(v, s3) ← rv s2;
      match skip_ws s3 with
      | String c r =>
          if decide (c = ","%char) then
            '(l, rest) ← read_members rv fuel' r; Some ((k, v) :: l, rest)
          else if decide (c = "}"%char) then Some ([(k, v)], r)
          else None
      | EmptyString => None
      end
  end.

Definition read_object {A} (rv : string → option (A * string)) (s : string)
  : option (list (string * A) * string) :=
  s1 ← expect "{"%char s;
  match skip_ws s1 with
  | String c r =>
      if decide (c = "}"%char) then Some ([], r)
      else read_members rv (String.length s1) s1
  | EmptyString => None
  end.

(** Members are stored one after the other: of two members with the same
    key the later one stays. *)
Definition bindings {A} (l : list (string * A)) : gmap string A :=
  foldl (λ m b, <[b.1 := b.2]> m) ∅ l.

(** [null] is read as the nil map. *)
Definition read_inner (s : string) : option (option (gmap string entry) * string) :=
  match skip_ws s with
  | String "n" (String "u" (String "l" (String "l" rest))) => Some (None, rest)
  | _ => '(l, rest) ← read_object read_literal s; Some (Some (bindings l), rest)
  end.

Definition read_document (s : string)
  : option (gmap string (option (gmap string entry)) * string) :=
  '(l, rest) ← read_object read_inner s; Some (bindings l, rest).

Definition is_null (s : string) : bool :=
  match s with
  | String "n" (String "u" (String "l" (String "l" _))) => true
  | _ => false
  end.

(** *** The codec *)

(** [Encoder.Encode] ends the text with a newline.  [Decoder.Decode] reads
    the first value of the stream and leaves what follows it unread; a
    stream that ends before any value gives [io.EOF]. *)
Definition json : codec entry :=
  {| Marshal m := inr (write_document m +:+ String "010"%char "");
     Unmarshal s :=
       match skip_ws s with
       | EmptyString => (∅, Some EOF)
       | s' =>
           if is_null s' then (∅, None)
           else match read_document s' with
                | Some (m, _) => (m, None)
                | None => (∅, Some SyntaxError)
                end
       end |}.

(** *** Sample environments and file names *)

Definition target : string := "/home/u/cookies.json".
Definition temp : string := "/home/u/cookies.json42".

(** Nothing fails, nobody else runs, every system call takes one unit of
    time. *)
Definition calm : environment :=
  {| fault _ _ := None; rival _ fs := fs; elapse _ := 1; random _ := 42%N; TMPDIR := "" |}.

(** As [calm], but flushing to stable storage fails. *)
Definition flaky_sync : environment :=
  {| fault _ c := match c with SysSync _ => Some EIO | _ => None end;
     rival _ fs := fs; elapse _ := 1; random _ := 42%N; TMPDIR := "" |}.

(** A handle created at time 10 for [target]. *)
Definition handle : atomicFile := AtomicFile target (Some temp) 10.

(** The handle that [create] makes for [target] when it is the first thing
    the process does, at time 0, in the sample environments. *)
Definition handle1 : atomicFile := AtomicFile target (Some temp) 1.

(** The temporary file is written; the target is absent. *)
Definition first_run : world :=
  World {[ temp := File "{}" 11 ]} 11 [].

(** The temporary file is written; the target was replaced at time 20. *)
Definition overtaken : world :=
  World {[ temp := File "{}" 11; target := File "{}" 20 ]} 21 [].

(** *** Sample jars and documents *)

Definition empty_jar : Jar entry := MkJar "" ∅.

Definition old_jar : Jar entry :=
  MkJar "" {[ "old.example" := Some {[ "sid" := "1" ]} ]}.

Definition disk_doc : gmap string (option (gmap string entry)) :=
  {[ "new.example" := Some {[ "tok" := "2" ]} ]}.

Definition disk_bytes : string := write_document disk_doc +:+ String "010"%char "".

(** The scenario of a lost race: our jar, and the document that another
    process moves onto [target] while the first turn of [Save] is writing
    its temporary file. *)
Definition our_jar : Jar entry :=
  MkJar target {[ "dom1" := Some {[ "c1" := "v1"; "ours" := "v0" ]} ]}.

Definition our_bytes : string :=
  write_document (entries our_jar) +:+ String "010"%char "".

Definition their_doc : gmap string (option (gmap string entry)) :=
  {[ "dom1" := Some {[ "c1" := "v2" ]}; "dom2" := Some {[ "c2" := "v3" ]} ]}.

Definition their_bytes : string := write_document their_doc +:+ String "010"%char "".

Definition racing : environment :=
  {| fault _ _ := None;
     rival n fs := if decide (n = 1%nat) then <[target := File their_bytes 2]> fs else fs;
     elapse _ := 1; random _ := 42%N; TMPDIR := "" |}.

(** The same race, on a file that cannot be opened for reading. *)
Definition racing_unreadable : environment :=
  {| fault _ c := match c with SysOpen _ => Some EACCES | _ => None end;
     rival n fs := if decide (n = 1%nat) then <[target := File their_bytes 2]> fs else fs;
     elapse _ := 1; random _ := 42%N; TMPDIR := "" |}.

(** No file at all; a file of length zero at [target]; [disk_doc] at [target]. *)
Definition nothing : world := World ∅ 0 [].
Definition zero_length : world := World {[ target := File "" 0 ]} 0 [].
Definition with_disk_doc : world := World {[ target := File disk_bytes 0 ]} 0 [].

(** The parts of what [Save] gives back, for a run that returns. *)
Definition returned (r : outcome (option error * Jar entry * world)) : option error :=
  match r with Returns (err, _, _) => err | _ => None end.
Definition jar_after (r : outcome (option error * Jar entry * world)) : Jar entry :=
  match r with Returns (_, j, _) => j | _ => empty_jar end.
Definition world_after (r : outcome (option error * Jar entry * world)) : world :=
  match r with Returns (_, _, w) => w | Panics w => w | Loops => nothing end.
End Sample.

(** ** The merge with its order of visit made explicit *)

Section MergeOrder.
Context {entry : Type}.

(** The two loops of [mergeEntries] with the order of visit made explicit:
    [l] lists the outer keys of the loaded map in the order in which the
    outer [range] yields them, each with its inner keys in the order in which
    the inner [range] yields them. *)
Definition mergeEntries_in_order (je : gmap string (option (gmap string entry)))
    (l : list (string * list (string * entry)))
  : option (gmap string (option (gmap string entry))) :=
  foldlM (λ acc b,
            foldlM (merge_inner b.1)
              match acc !! b.1 with
              | Some _ => acc
              | None => <[b.1 := Some ∅]> acc
              end b.2) je l.

(** What [mergeEntries] leaves under an outer key of the loaded map when it
    does not panic there: [old] is what the jar had under the key and
    [loaded] what the loaded inner map holds. *)
Definition merged_inner (old : option (option (gmap string entry)))
    (loaded : gmap string entry) : option (gmap string entry) :=
  match old with
  | Some (Some inner) => Some (loaded ∪ inner)      (* the loaded values win *)
  | Some None => None                               (* nil stays nil: nothing was loaded *)
  | None => Some loaded                             (* made, then filled *)
  end.

(** [l] is the map [m], visited in some order; the inner [range] yields
    nothing for a nil inner map. *)
Definition enumerates (l : list (string * list (string * entry)))
    (m : gmap string (option (gmap string entry))) : Prop :=
  NoDup l.*1
  ∧ Forall (λ b, NoDup b.2.*1) l
  ∧ list_to_map <$> (list_to_map l : gmap string (list (string * entry))) = held <$> m.
End MergeOrder.

(** ** Shape of the name of a temporary file *)

(** Whether a path has a directory part. *)
Fixpoint has_slash (p : string) : bool :=
  match p with
  | EmptyString => false
  | String c r => bool_decide (c = "/"%char) || has_slash r
  end.

(** ** The earlier revision of [Save]

    The file of the persister also holds the revision before the retry
    loop: one attempt, with the conflict left to the caller.  Its
    [AtomicFile] has the methods [Create], [Cancel], [Close] and [IsRetry],
    whose bodies are those of [create], [cancel], [commit] and [isRetry]. *)
Module Earlier.
Section Earlier.
Context {entry : Type}.
Variable json : codec entry.
Variable E : environment.

(** [func (j *Jar) Save() error], before the loop. *)
Definition Save (j : Jar entry) (st : world) : option error * world :=
  if decide (filename j = "") then (Some errNotLoaded, st)
  else
    let '(af, err, st1) := create E zero_atomicFile (filename j) st in
    match err with
    | Some _ => (err, st1)
    | None =>
        let '(err, st2) := WriteTo json E j (af_file af) st1 in
        match err with
        | Some _ => let '(_, st3) := cancel E af st2 in (err, st3)
        | None =>
            let '(err, st3) := commit E af st2 in     (* err = af.Close() *)
            if isRetry err then (err, st3)            (* TODO: Read again, merge, save. *)
            else (err, st3)
        end
    end.
End Earlier.
End Earlier.

(** ** Environments that agree from some call on *)

(** Two environments that are the same from the [n0]-th system call on. *)
Definition agree_from (n0 : nat) (E E' : environment) : Prop :=
  TMPDIR E = TMPDIR E'
  ∧ ∀ n, (n0 ≤ n)%nat →
      (∀ c, fault E n c = fault E' n c) ∧ (∀ fs, rival E n fs = rival E' n fs)
      ∧ elapse E n = elapse E' n ∧ random E n = random E' n.

(** From the [n0]-th system call on, no call fails for a reason of its own,
    no other process touches the file system and the clock does not go
    back. *)
Definition calm_from (n0 : nat) (E : environment) : Prop :=
  ∀ n, (n0 ≤ n)%nat →
    (∀ c, fault E n c = None) ∧ (∀ fs, rival E n fs = fs) ∧ (0 ≤ elapse E n)%Z.

(** [E] with everything before the [n0]-th system call made uneventful. *)
Definition settled (n0 : nat) (E : environment) : environment :=
  {| fault n c := if decide (n0 ≤ n)%nat then fault E n c else None;
     rival n fs := if decide (n0 ≤ n)%nat then rival E n fs else fs;
     elapse n := if decide (n0 ≤ n)%nat then elapse E n else 0%Z;
     random := random E; TMPDIR := TMPDIR E |}.

(** ** More sample data *)
Module Cases.
(** As [Sample.calm], but no temporary file can be created. *)
Definition full_disk : environment :=
  {| fault _ c := match c with SysTempFile _ _ => Some ENOSPC | _ => None end;
     rival _ fs := fs; elapse _ := 1; random _ := 42%N; TMPDIR := "" |}.

(** [Sample.their_doc] as one order of iteration presents it. *)
Definition their_list : list (string * list (string * Sample.entry)) :=
  [("dom2", [("c2", "v3")]); ("dom1", [("c1", "v2")])].

(** A JSON library that cannot encode the entries. *)
Definition stubborn : codec Sample.entry :=
  {| Marshal _ := inl MarshalerError; Unmarshal := Unmarshal Sample.json |}.

(** A jar with the nil map under an outer key, and the file that makes
    [Load] leave it so: the JSON text with [null] under that key. *)
Definition nil_jar : Jar Sample.entry := MkJar Sample.target {[ "dom1" := None ]}.

Definition null_on_disk : world :=
  World {[ Sample.target :=
             File (Sample.write_document {[ "dom1" := None ]} +:+ String "010"%char "") 0 ]}
        0 [].

(** [Sample.disk_doc] at the target, with a modification time some units
    ahead of the clock. *)
Definition postdated : world :=
  World {[ Sample.target := File Sample.disk_bytes 5 ]} 0 [].

(** The world after [create] for [Sample.target], as the first thing the
    process does. *)
Definition created : world :=
  World {[ Sample.temp := File "" 1 ]} 1 [Event (SysTempFile "/home/u/" "cookies.json") None].
End Cases.

(** * Properties *)

(** Closing a goal by evaluation. *)
Ltac by_compute := vm_compute; first [reflexivity | repeat split; reflexivity].

(** Simplification that leaves the system calls folded. *)
Ltac os_cbn :=
  cbn -[os_TempFile os_Write os_Sync os_Close os_Stat os_Rename os_Remove os_Open os_Read
        cancel commit create] in *.

(** ** File names *)

Lemma string_length_app (s1 s2 : string) :
  String.length (s1 +:+ s2) = (String.length s1 + String.length s2)%nat.
Proof. induction s1 as [|c s1 IH]; simpl; [done|by f_equal]. Qed.

(** [Split] cuts its argument in two. *)
Lemma Split_app (p : string) : (Split p).1 +:+ (Split p).2 = p.
Proof.
  induction p as [|c p IH]; [done|]. cbn [Split].
  destruct (Split p) as [dir name]. cbn [fst snd] in IH.
  case_decide as Hd.
  - subst dir. simpl in IH. subst p. case_decide as Hc; [by subst c|done].
  - cbn [fst snd]. by rewrite <-IH.
Qed.

Lemma string_app_assoc (s1 s2 s3 : string) : (s1 +:+ s2) +:+ s3 = s1 +:+ s2 +:+ s3.
Proof.
  induction s1 as [|c s1 IH]; [done|].
  change (String c ((s1 +:+ s2) +:+ s3) = String c (s1 +:+ s2 +:+ s3)). by rewrite IH.
Qed.

Lemma string_app_inv_head (s a b : string) : s +:+ a = s +:+ b → a = b.
Proof. induction s as [|c s IH]; [done|]. intros [= H]. by apply IH. Qed.

(** The directory part that [Split] gives is empty or ends with the slash. *)
Lemma Split_dir (p : string) : (Split p).1 = "" ∨ ends_with_separator (Split p).1 = true.
Proof.
  induction p as [|c p IH]; [by left|]. cbn [Split].
  destruct (Split p) as [dir name]. cbn [fst snd] in IH.
  case_decide as Hd.
  - case_decide as Hc; [right|by left]. subst c. done.
  - right. destruct IH as [?|IH]; [done|]. cbn [fst ends_with_separator].
    destruct dir; [done|exact IH].
Qed.

(** The file name that [Split] gives has no separator: [TempFile] accepts it
    as a pattern. *)
Lemma Split_name (p : string) : has_slash (Split p).2 = false.
Proof.
  induction p as [|c p IH]; [done|]. cbn [Split].
  destruct (Split p) as [dir name] eqn:Hs. cbn [fst snd] in IH.
  case_decide as Hd; [|exact IH].
  case_decide as Hc; cbn [snd].
  - pose proof (Split_app p) as Hp. rewrite Hs, Hd in Hp. cbn in Hp. by subst p.
  - pose proof (Split_app p) as Hp. rewrite Hs, Hd in Hp. cbn in Hp. subst p.
    change (bool_decide (c = "/"%char) || has_slash name = false).
    rewrite IH. by rewrite bool_decide_eq_false_2.
Qed.

Lemma cut_at_last_star_app (p prefix suffix : string) :
  cut_at_last_star p = Some (prefix, suffix) → p = prefix +:+ String "*" suffix.
Proof.
  revert prefix. induction p as [|c p IH]; intros prefix; [done|]. cbn [cut_at_last_star].
  destruct (cut_at_last_star p) as [[pre suf]|].
  - intros [= <- <-]. change (String c p = String c (pre +:+ String "*" suf)).
    f_equal. by apply IH.
  - case_decide as Hc; [|done]. intros [= <- <-]. by subst c.
Qed.

Lemma joinPath_length (dir name : string) :
  (String.length name < String.length (joinPath dir name))%nat.
Proof.
  unfold joinPath. destruct (ends_with_separator dir) eqn:Hd.
  - rewrite string_length_app. destruct dir; [done|]. cbn [String.length]. lia.
  - rewrite !string_length_app. cbn [String.length]. lia.
Qed.

(** A decimal number starts with a digit. *)
Lemma digit_not_star (n : N) : digit n ≠ "*"%char.
Proof.
  unfold digit. pose proof (N.mod_upper_bound n 10) as Hlt.
  destruct (n mod 10)%N as [|q]; [done|].
  do 4 (destruct q as [q|q|]; try (exfalso; lia); try done).
Qed.

Lemma Uitoa_from_head (room : nat) (val : N) (acc : string) :
  ∃ d rest, Uitoa_from room val acc = String (digit d) rest.
Proof.
  revert val acc. induction room as [|room IH]; intros val acc; cbn [Uitoa_from]; [eauto|].
  destruct (val <? 10)%N; eauto.
Qed.

Lemma nextRandom_head (E : environment) (n : nat) :
  ∃ d rest, nextRandom E n = String (digit d) rest.
Proof. apply Uitoa_from_head. Qed.

(** The temporary file never has the name of the target. *)
Lemma temp_name_neq (E : environment) (filename : string) (n : nat) :
  temp_name E filename n ≠ filename.
Proof.
  unfold temp_name, temp_path, ToSlash, prefixAndSuffix.
  pose proof (Split_app filename) as Hs. pose proof (Split_dir filename) as Hd.
  destruct (Split filename) as [dir name]. cbn [fst snd] in *.
  destruct (nextRandom_head E n) as (d & rest & ->).
  destruct (cut_at_last_star name) as [[prefix suffix]|] eqn:Hcut; cbn [from_option id].
  - apply cut_at_last_star_app in Hcut. subst name.
    case_decide as Hdir.
    + subst dir. cbn in Hs. subst filename. intros Heq.
      apply (f_equal String.length) in Heq.
      pose proof (joinPath_length (TempDir E) prefix).
      rewrite !string_length_app in Heq. cbn [String.length] in Heq. lia.
    + destruct Hd as [?|Hd]; [done|]. unfold joinPath. rewrite Hd.
      rewrite <-Hs. rewrite string_app_assoc. intros Heq.
      apply string_app_inv_head, string_app_inv_head in Heq.
      injection Heq as Heq _. by apply digit_not_star in Heq.
  - intros Heq. apply (f_equal String.length) in Heq.
    rewrite <-Hs in Heq. rewrite !string_length_app in Heq. cbn [String.length] in Heq.
    case_decide as Hdir.
    + subst dir. pose proof (joinPath_length (TempDir E) name). cbn in Heq. lia.
    + pose proof (joinPath_length dir name).
      destruct Hd as [?|Hd]; [done|]. unfold joinPath in *. rewrite Hd in *.
      rewrite string_length_app in Heq. lia.
Qed.

(** ** System calls *)

Section OSFacts.
Variable E : environment.

Lemma IsNotExist_os_error r : IsNotExist (os_error r) = bool_decide (r = Some ENOENT).
Proof. by destruct r as [[]|]. Qed.

Lemma os_error_not_retry r : os_error r ≠ Some erratomicFileRetry.
Proof. by destruct r. Qed.

Lemma os_Sync_trace f w : trace (os_Sync E f w).2 = Event (SysSync f) (os_Sync E f w).1 :: trace w.
Proof. done. Qed.

Lemma os_Close_trace f w : trace (os_Close E f w).2 = Event (SysClose f) (os_Close E f w).1 :: trace w.
Proof. done. Qed.

Lemma os_Stat_trace p w : trace (os_Stat E p w).2 = Event (SysStat p) (os_Stat E p w).1.2 :: trace w.
Proof. unfold os_Stat. by repeat case_match. Qed.

Lemma os_Remove_trace p w : trace (os_Remove E p w).2 = Event (SysRemove p) (os_Remove E p w).1 :: trace w.
Proof. unfold os_Remove. by repeat case_match. Qed.

Lemma os_Rename_trace p q w :
  trace (os_Rename E p q w).2 = Event (SysRename p q) (os_Rename E p q w).1 :: trace w.
Proof. unfold os_Rename. by repeat case_match. Qed.

(** [Stat] either finds a file and no error, or an error and no file. *)
Lemma os_Stat_cases p w :
  (∃ info, (os_Stat E p w).1 = (Some info, None)) ∨ (∃ e, (os_Stat E p w).1 = (None, Some e)).
Proof. unfold os_Stat. repeat case_match; simpl; eauto. Qed.

Section Quiet.
Hypothesis Hquiet : quiet E.

Lemma enter_files w : files (enter E w) = files w.
Proof. apply Hquiet. Qed.

Lemma os_Sync_files f w : files (os_Sync E f w).2 = files w.
Proof. apply Hquiet. Qed.

Lemma os_Close_files f w : files (os_Close E f w).2 = files w.
Proof. apply Hquiet. Qed.

Lemma os_Stat_files p w : files (os_Stat E p w).2 = files w.
Proof. unfold os_Stat. repeat case_match; apply Hquiet. Qed.

Lemma os_Stat_found p w info :
  fault E (tick w) (SysStat p) = None →
  (os_Stat E p w).1 = (Some info, None) ↔ files w !! p = Some info.
Proof.
  intros Hf. unfold os_Stat. rewrite Hf, enter_files.
  destruct (files w !! p); simpl; naive_solver.
Qed.

Lemma os_Remove_files p w :
  files (os_Remove E p w).2 =
    match fault E (tick w) (SysRemove p) with
    | Some _ => files w
    | None => delete p (files w)
    end.
Proof.
  unfold os_Remove. rewrite enter_files.
  destruct (fault _ _ _); simpl; [done|].
  destruct (files w !! p) eqn:Hp; simpl; [done|]. by rewrite delete_id.
Qed.
End Quiet.
End OSFacts.

(** ** The atomic file writer *)

Section AtomicFileFacts.
Variable E : environment.

(** A handle whose [create] failed holds no file. *)
Lemma create_error_no_file a fn w a' e w' :
  create E a fn w = (a', Some e, w') → af_file a' = None.
Proof.
  unfold create. destruct (Split _) as [dir name].
  destruct (os_TempFile _ _ _ _) as [[?|?] ?]; intros [= <- <- <-]; done.
Qed.

Lemma create_ok_file a fn w a' w' :
  create E a fn w = (a', None, w') →
  ∃ f, af_file a' = Some f ∧ af_filename a' = fn ∧ af_ctime a' = clock w'.
Proof.
  unfold create. destruct (Split _) as [dir name].
  destruct (os_TempFile _ _ _ _) as [[?|?] ?]; intros [= <- <-]; eauto.
Qed.

(** What [cancel] does to a handle that holds a file. *)
Lemma cancel_trace a f w :
  af_file a = Some f →
  ∃ r1 r2, trace (cancel E a w).2 = Event (SysRemove f) r2 :: Event (SysClose f) r1 :: trace w.
Proof.
  intros Hf. unfold cancel. rewrite Hf.
  destruct (os_Close E f w) as [r1 w1] eqn:H1.
  destruct (os_Remove E f w1) as [r2 w2] eqn:H2.
  exists r1, r2.
  assert (trace w2 = Event (SysRemove f) r2 :: trace w1) as Ht2
    by (pose proof (os_Remove_trace E f w1) as Ht; by rewrite H2 in Ht).
  assert (trace w1 = Event (SysClose f) r1 :: trace w) as Ht1
    by (pose proof (os_Close_trace E f w) as Ht; by rewrite H1 in Ht).
  destruct (IsNotExist _); simpl; by rewrite Ht2, Ht1.
Qed.

Lemma cancel_files a f w :
  quiet E → af_file a = Some f →
  files (cancel E a w).2 =
    match fault E (S (tick w)) (SysRemove f) with
    | Some _ => files w
    | None => delete f (files w)
    end.
Proof.
  intros Hq Hf. unfold cancel. rewrite Hf.
  pose proof (os_Remove_files E Hq f (os_Close E f w).2) as Hrm.
  rewrite (os_Close_files E Hq) in Hrm.
  destruct (os_Close E f w) as [r1 w1] eqn:H1.
  destruct (os_Remove E f w1) as [r2 w2] eqn:H2.
  assert (tick w1 = S (tick w)) as Ht by (unfold os_Close in H1; by simplify_eq).
  simpl in Hrm. rewrite H2, Ht in Hrm.
  by destruct (IsNotExist _).
Qed.

(** [commit], once the handle is known to hold a file, in terms of the
    outcome of its [Stat]. *)
Lemma commit_unfold a f w :
  af_file a = Some f →
  commit E a w =
    let st := os_Stat E (af_filename a) (flushed E f w) in
    match st.1 with
    | (Some info, None) =>
        if After (modTime info) (af_ctime a)
        then (Some erratomicFileRetry, (cancel E a st.2).2)
        else
          let rn := os_Rename E f (af_filename a) st.2 in
          match rn.1 with
          | Some e => (Some (PathError e), (cancel E a rn.2).2)
          | None => (None, (os_Close E f rn.2).2)
          end
    | (_, Some ENOENT) | (None, None) =>
        let rn := os_Rename E f (af_filename a) st.2 in
        match rn.1 with
        | Some e => (Some (PathError e), (cancel E a rn.2).2)
        | None => (None, (os_Close E f rn.2).2)
        end
    | (_, Some e) => (Some (PathError e), (cancel E a st.2).2)
    end.
Proof.
  intros Hf. unfold commit, flushed. rewrite Hf.
  destruct (os_Sync E f w) as [r1 w1]; cbn [snd].
  destruct (os_Close E f w1) as [r2 w2]; cbn [snd].
  destruct (os_Stat_cases E (af_filename a) w2) as [[info Hst]|[e Hst]];
    destruct (os_Stat E (af_filename a) w2) as [[fi se] w3];
    cbn [fst snd] in *; simplify_eq; os_cbn.
  - destruct (After _ _); os_cbn.
    + by destruct (cancel E a w3).
    + destruct (os_Rename E f (af_filename a) w3) as [[e|] w4]; os_cbn.
      * by destruct (cancel E a w4).
      * by destruct (os_Close E f w4).
  - destruct e; os_cbn;
      try (by destruct (cancel E a w3)).
    destruct (os_Rename E f (af_filename a) w3) as [[e|] w4]; os_cbn.
    + by destruct (cancel E a w4).
    + by destruct (os_Close E f w4).
Qed.

Lemma flushed_trace f w :
  ∃ r1 r2, trace (flushed E f w) = Event (SysClose f) r2 :: Event (SysSync f) r1 :: trace w.
Proof. unfold flushed. rewrite os_Close_trace, os_Sync_trace. eauto. Qed.

Lemma flushed_files f w : quiet E → files (flushed E f w) = files w.
Proof. intros Hq. unfold flushed. by rewrite os_Close_files, os_Sync_files. Qed.

Lemma flushed_tick f w : tick (flushed E f w) = S (S (tick w)).
Proof. unfold tick. by destruct (flushed_trace f w) as (r1 & r2 & ->). Qed.

(** The outcome of [commit] is the conflict signal exactly when its [Stat]
    found the target with a modification time after the handle's. *)
Lemma commit_retry_iff a f w :
  af_file a = Some f →
  (commit E a w).1 = Some erratomicFileRetry ↔
  ∃ info, (os_Stat E (af_filename a) (flushed E f w)).1 = (Some info, None)
          ∧ af_ctime a < modTime info.
Proof.
  intros Hf. rewrite (commit_unfold a f w Hf). cbn zeta.
  destruct (os_Stat_cases E (af_filename a) (flushed E f w)) as [[info Hst]|[e Hst]];
    rewrite Hst.
  - unfold After. case_bool_decide as Hlt.
    + split; [eauto|done].
    + split.
      * destruct (os_Rename _ _ _ _).1; done.
      * intros (info' & [= <-] & ?). lia.
  - split; [|by intros (? & ? & ?)].
    destruct e; try done; destruct (os_Rename _ _ _ _).1; done.
Qed.

(** On a conflict [commit] does nothing after its [Stat] but [cancel]. *)
Lemma commit_retry_world a f w :
  af_file a = Some f →
  (commit E a w).1 = Some erratomicFileRetry →
  (commit E a w).2 = (cancel E a (os_Stat E (af_filename a) (flushed E f w)).2).2
  ∧ (os_Stat E (af_filename a) (flushed E f w)).1.2 = None.
Proof.
  intros Hf. rewrite (commit_unfold a f w Hf). cbn zeta.
  destruct (os_Stat_cases E (af_filename a) (flushed E f w)) as [[info Hst]|[e Hst]];
    rewrite Hst.
  - destruct (After _ _); [done|]. destruct (os_Rename _ _ _ _).1; done.
  - destruct e; try done; destruct (os_Rename _ _ _ _).1; done.
Qed.

(** Whenever [commit] returns an error, the last thing it did was to
    [cancel] the handle: errors of [Stat] other than not-exist, errors of
    [Rename] and the conflict signal all end that way.  The outcome of
    [Sync] and [Close] plays no part: [commit_unfold] does not mention it. *)
Lemma commit_error_cancels a f w e :
  af_file a = Some f →
  (commit E a w).1 = Some e →
  ∃ w', (commit E a w).2 = (cancel E a w').2.
Proof.
  intros Hf. rewrite (commit_unfold a f w Hf). cbn zeta.
  repeat case_match; cbn [fst snd]; intros; simplify_eq; eauto.
Qed.
End AtomicFileFacts.

(** ** System calls that create no temporary file *)

Section Follows.
Variable E : environment.
Variable path : string.

Lemma follows_refl w : follows E path w w.
Proof. split; [by exists []|done]. Qed.

Lemma follows_trans w1 w2 w3 :
  follows E path w1 w2 → follows E path w2 w3 → follows E path w1 w3.
Proof.
  intros [(evs1 & Ht1 & Hf1) Ha1] [(evs2 & Ht2 & Hf2) Ha2]. split.
  - exists (evs2 ++ evs1)%list. split.
    + by rewrite Ht2, Ht1, (assoc_L (++)).
    + by apply Forall_app.
  - intros x Hp Hne Hx. by apply Ha2, Ha1.
Qed.

(** The shape shared by the system calls: other processes run, then the file
    system becomes [fs] and the call is logged. *)
Lemma follows_call c r fs w :
  is_TempFile c = false →
  (∀ x, x ≠ path → rival E (tick w) (files w) !! x = None → fs !! x = None) →
  follows E path w (leave c r fs (enter E w)).
Proof.
  intros Hc Hfs. split.
  - exists [Event c r]. split; [done|]. by apply Forall_singleton.
  - intros x Hp Hne Hx. cbn. apply Hfs; [done|]. by apply Hp.
Qed.

Lemma os_Write_follows name bytes w : follows E path w (os_Write E name bytes w).2.
Proof.
  unfold os_Write. destruct (fault _ _ _); cbn [snd]; [by apply follows_call|].
  destruct (files (enter E w) !! name) as [f|] eqn:Hn; cbn [snd]; apply follows_call; try done.
  intros x Hne Hx. destruct (decide (x = name)) as [->|Hxn].
  - cbn in Hn. congruence.
  - by rewrite lookup_insert_ne.
Qed.

Lemma os_Sync_follows name w : follows E path w (os_Sync E name w).2.
Proof. by apply follows_call. Qed.

Lemma os_Close_follows name w : follows E path w (os_Close E name w).2.
Proof. by apply follows_call. Qed.

Lemma os_Stat_follows p w : follows E path w (os_Stat E p w).2.
Proof. unfold os_Stat. repeat case_match; cbn [snd]; by apply follows_call. Qed.

Lemma os_Open_follows p w : follows E path w (os_Open E p w).2.
Proof. unfold os_Open. repeat case_match; cbn [snd]; by apply follows_call. Qed.

Lemma os_Read_follows name bytes w : follows E path w (os_Read E name bytes w).2.
Proof. unfold os_Read. repeat case_match; cbn [snd]; by apply follows_call. Qed.

Lemma os_Remove_follows p w : follows E path w (os_Remove E p w).2.
Proof.
  unfold os_Remove. repeat case_match; cbn [snd]; apply follows_call; try done.
  intros x Hne Hx. by apply lookup_delete_None; right.
Qed.

(** Renaming onto [path] creates no other name. *)
Lemma os_Rename_follows old w : follows E path w (os_Rename E old path w).2.
Proof.
  unfold os_Rename. repeat case_match; cbn [snd]; apply follows_call; try done.
  intros x Hne Hx. rewrite lookup_insert_ne by done. by apply lookup_delete_None; right.
Qed.

(** After a removal that did not fail for a reason of its own, the name is
    free. *)
Lemma os_Remove_absent p w :
  fault E (tick w) (SysRemove p) = None → files (os_Remove E p w).2 !! p = None.
Proof.
  intros Hf. unfold os_Remove. rewrite Hf.
  destruct (files (enter E w) !! p) eqn:Hp; cbn; [apply lookup_delete_eq|done].
Qed.

(** After a rename that succeeded, the old name is free. *)
Lemma os_Rename_absent old w :
  old ≠ path → (os_Rename E old path w).1 = None →
  files (os_Rename E old path w).2 !! old = None.
Proof.
  intros Hne. unfold os_Rename. repeat case_match; cbn; try done.
  intros _. rewrite lookup_insert_ne by done. apply lookup_delete_eq.
Qed.

Lemma cancel_follows a w : follows E path w (cancel E a w).2.
Proof.
  unfold cancel. destruct (af_file a) as [f|]; [|apply follows_refl].
  pose proof (os_Close_follows f w) as H1.
  destruct (os_Close E f w) as [r1 w1]. cbn [snd] in H1.
  pose proof (os_Remove_follows f w1) as H2.
  destruct (os_Remove E f w1) as [r2 w2]. cbn [snd] in H2.
  destruct (IsNotExist _); cbn [snd]; by eapply follows_trans.
Qed.

(** [cancel] leaves the name of the temporary file free. *)
Lemma cancel_absent a f w :
  removal_works E → af_file a = Some f → files (cancel E a w).2 !! f = None.
Proof.
  intros Hrm Hf. unfold cancel. rewrite Hf.
  destruct (os_Close E f w) as [r1 w1].
  pose proof (os_Remove_absent f w1 (Hrm _ _)) as H2.
  destruct (os_Remove E f w1) as [r2 w2]. cbn [snd] in H2.
  by destruct (IsNotExist _).
Qed.

Lemma commit_follows a w : af_filename a = path → follows E path w (commit E a w).2.
Proof.
  intros Hp. destruct (af_file a) as [f|] eqn:Hf.
  2:{ unfold commit. rewrite Hf. apply follows_refl. }
  rewrite (commit_unfold E a f w Hf). cbn zeta. rewrite Hp.
  assert (follows E path w (os_Stat E path (flushed E f w)).2) as Hst.
  { eapply follows_trans; [|apply os_Stat_follows].
    unfold flushed. eapply follows_trans; [apply os_Sync_follows|apply os_Close_follows]. }
  assert (follows E path w (os_Rename E f path (os_Stat E path (flushed E f w)).2).2) as Hrn.
  { eapply follows_trans; [apply Hst|apply os_Rename_follows]. }
  repeat case_match; cbn [snd];
    (eapply follows_trans; [|first [apply cancel_follows|apply os_Close_follows]]);
    done.
Qed.

(** [commit] leaves the name of the temporary file free, whatever it
    returns: the file was renamed or it was removed. *)
Lemma commit_absent a f w :
  removal_works E → private E f → af_filename a = path → f ≠ path →
  af_file a = Some f → files (commit E a w).2 !! f = None.
Proof.
  intros Hrm Hpriv Hp Hne Hf.
  rewrite (commit_unfold E a f w Hf). cbn zeta. rewrite Hp.
  set (st := os_Stat E path (flushed E f w)).
  assert (∀ w', (os_Rename E f path w').1 = None →
            files (os_Close E f (os_Rename E f path w').2).2 !! f = None) as Hok.
  { intros w' Hr. apply (os_Close_follows f _); [done..|]. by apply os_Rename_absent. }
  repeat case_match; cbn [snd];
    first [by apply cancel_absent | by apply Hok].
Qed.
End Follows.

(** ** Merging *)

Section MergeFacts.
Context {entry : Type}.
Implicit Types (je m : gmap string (option (gmap string entry))) (inner : gmap string entry).

(** Storing the members of a list one after the other. *)
Lemma foldl_insert_lookup (l : list (string * entry)) inner k :
  NoDup l.*1 →
  foldl (λ acc b, <[b.1 := b.2]> acc) inner l !! k =
    match (list_to_map l : gmap string entry) !! k with
    | Some v => Some v
    | None => inner !! k
    end.
Proof.
  revert inner. induction l as [|[k' v] l IH]; intros inner Hnd; [done|].
  apply NoDup_cons in Hnd as [Hk' Hnd]. cbn [foldl fst snd]. rewrite IH by done.
  rewrite list_to_map_cons. destruct (decide (k' = k)) as [->|Hne].
  - rewrite (not_elem_of_list_to_map_1 _ k) by done.
    by rewrite !lookup_insert_eq.
  - rewrite !lookup_insert_ne by done. done.
Qed.

Lemma foldl_insert_union (l : list (string * entry)) inner :
  NoDup l.*1 →
  foldl (λ acc b, <[b.1 := b.2]> acc) inner l = list_to_map l ∪ inner.
Proof.
  intros Hnd. apply map_eq. intros k. rewrite foldl_insert_lookup by done.
  destruct ((list_to_map l : gmap string entry) !! k) as [v|] eqn:Hk.
  - symmetry. by apply lookup_union_Some_l.
  - by rewrite lookup_union_r.
Qed.

Lemma merge_inner_made k0 je (b : string * entry) inner :
  je !! k0 = Some (Some inner) →
  merge_inner k0 je b = Some (<[k0 := Some (<[b.1 := b.2]> inner)]> je).
Proof. intros Hk0. unfold merge_inner. by rewrite Hk0. Qed.

(** The inner loop of [mergeEntries], on an outer key bound to a map that
    was made. *)
Lemma foldlM_merge_inner k0 je (l : list (string * entry)) inner :
  je !! k0 = Some (Some inner) →
  foldlM (merge_inner k0) je l
  = Some (<[k0 := Some (foldl (λ acc b, <[b.1 := b.2]> acc) inner l)]> je).
Proof.
  revert je inner. induction l as [|b l IH]; intros je inner Hk0; cbn [foldlM foldl].
  - by rewrite insert_id.
  - rewrite (merge_inner_made k0 je b inner Hk0). cbn [mbind option_bind].
    rewrite (IH _ (<[b.1 := b.2]> inner)) by apply lookup_insert_eq.
    by rewrite insert_insert_eq.
Qed.

(** One turn of the outer loop, for any order of the inner keys: it panics
    when the jar has the nil map under the key and there is something to
    store. *)
Lemma merge_turn je k (il : list (string * entry)) :
  NoDup il.*1 →
  foldlM (merge_inner k)
    match je !! k with Some _ => je | None => <[k := Some ∅]> je end il
  = match je !! k, il with
    | Some None, _ :: _ => None
    | _, _ => Some (<[k := merged_inner (je !! k) (list_to_map il)]> je)
    end.
Proof.
  intros Hnd. destruct (je !! k) as [[inner|]|] eqn:Hk.
  - rewrite (foldlM_merge_inner k je il inner Hk), foldl_insert_union by done.
    by destruct il.
  - destruct il as [|b il]; cbn [foldlM].
    + cbn. by rewrite insert_id.
    + unfold merge_inner. by rewrite Hk.
  - rewrite (foldlM_merge_inner k _ il ∅) by apply lookup_insert_eq.
    rewrite insert_insert_eq, foldl_insert_union by done. cbn [merged_inner].
    rewrite (right_id_L ∅ (∪)). by destruct il.
Qed.

Lemma mergeEntries_in_order_cons je k il (l : list (string * list (string * entry))) :
  mergeEntries_in_order je ((k, il) :: l)
  = foldlM (merge_inner k) match je !! k with Some _ => je | None => <[k := Some ∅]> je end il
    ≫= λ je1, mergeEntries_in_order je1 l.
Proof. done. Qed.

(** The two loops, for any order of visit: either the jar has the nil map
    under an outer key for which there is something to store, and the merge
    panics; or there is no such key, and the merge completes with the loaded
    values laid over the jar's. *)
Lemma mergeEntries_in_order_cases (l : list (string * list (string * entry))) je :
  NoDup l.*1 → Forall (λ b, NoDup b.2.*1) l →
  ((∃ k il, (k, il) ∈ l ∧ je !! k = Some None ∧ il ≠ [])
   ∧ mergeEntries_in_order je l = None)
  ∨ ((∀ k il, (k, il) ∈ l → je !! k = Some None → il = [])
     ∧ ∃ je', mergeEntries_in_order je l = Some je'
         ∧ ∀ k0, je' !! k0 =
             match (list_to_map l : gmap string (list (string * entry))) !! k0 with
             | Some il => Some (merged_inner (je !! k0) (list_to_map il))
             | None => je !! k0
             end).
Proof.
  revert je. induction l as [|[k il] l IH]; intros je Hnd Hin.
  { right. split; [by intros ?? ?%elem_of_nil|]. by exists je. }
  apply NoDup_cons in Hnd as [Hk Hnd]. apply Forall_cons in Hin as [Hil Hin].
  cbn [fst snd] in Hil.
  rewrite mergeEntries_in_order_cons, merge_turn by done.
  assert (∀ k' il', (k', il') ∈ l → k' ≠ k) as Hother.
  { intros k' il' Hel ->. apply Hk. by apply (list_elem_of_fmap_2 fst) in Hel. }
  assert (je !! k = Some None ∧ il ≠ [] ∨ (je !! k = Some None → il = [])) as [[Hnil Hne]|Hok].
  { destruct (je !! k) as [[?|]|], il; auto; by right. }
  { left. split; [exists k, il; by rewrite elem_of_cons; auto|].
    rewrite Hnil. by destruct il. }
  set (je1 := <[k := merged_inner (je !! k) (list_to_map il)]> je).
  assert (match je !! k, il with
          | Some None, _ :: _ => None
          | _, _ => Some je1
          end = Some je1) as ->.
  { destruct (je !! k) as [[?|]|] eqn:Hjk, il; try done. by specialize (Hok eq_refl). }
  cbn [mbind option_bind].
  destruct (IH je1 Hnd Hin) as [[(k' & il' & Hel & Hnil & Hne) HNone]|[Hfree (je' & HSome & Hlook)]].
  - left. split; [|done]. exists k', il'. rewrite elem_of_cons. split_and!; [by right| |done].
    unfold je1 in Hnil. by rewrite lookup_insert_ne in Hnil by (apply not_eq_sym; eauto).
  - right. split.
    + intros k' il' [[= -> ->]|Hel]%elem_of_cons; [done|]. intros Hnil.
      apply (Hfree k' il' Hel). unfold je1.
      by rewrite lookup_insert_ne by (apply not_eq_sym; eauto).
    + exists je'. split; [done|]. intros k0. rewrite Hlook, list_to_map_cons.
      destruct (decide (k = k0)) as [->|Hne].
      * rewrite (not_elem_of_list_to_map_1 _ k0) by done.
        unfold je1. by rewrite !lookup_insert_eq.
      * unfold je1. by rewrite !lookup_insert_ne.
Qed.

(** [mergeEntries] is the two loops in the order of [map_to_list]. *)
Lemma foldlM_fmap {A B C : Type} (f : A → B → option A) (g : C → B) (a : A) (l : list C) :
  foldlM f a (g <$> l) = foldlM (λ a c, f a (g c)) a l.
Proof.
  revert a. induction l as [|c l IH]; intros a; [done|]. cbn [fmap list_fmap foldlM].
  destruct (f a (g c)); [apply IH|done].
Qed.

Lemma mergeEntries_as_in_order je m :
  mergeEntries je m
  = mergeEntries_in_order je
      (prod_map id (λ src : option (gmap string entry), map_to_list (held src))
         <$> map_to_list m).
Proof. unfold mergeEntries, mergeEntries_in_order. by rewrite foldlM_fmap. Qed.

(** [mergeEntries]: when it panics and what it leaves when it does not. *)
Lemma mergeEntries_cases je m :
  ((∃ k src, m !! k = Some src ∧ je !! k = Some None ∧ held src ≠ ∅)
   ∧ mergeEntries je m = None)
  ∨ ((∀ k src, m !! k = Some src → je !! k = Some None → held src = ∅)
     ∧ ∃ je', mergeEntries je m = Some je'
         ∧ ∀ k0, je' !! k0 =
             match m !! k0 with
             | Some src => Some (merged_inner (je !! k0) (held src))
             | None => je !! k0
             end).
Proof.
  rewrite mergeEntries_as_in_order.
  set (g := λ src : option (gmap string entry), map_to_list (held src)).
  set (l := prod_map id g <$> map_to_list m).
  assert (∀ k il, (k, il) ∈ l ↔ ∃ src, m !! k = Some src ∧ il = g src) as Hel.
  { intros k il. unfold l. rewrite list_elem_of_fmap. split.
    - intros ([k' src] & [= -> ->] & Hm). exists src. by apply elem_of_map_to_list in Hm.
    - intros (src & Hm & ->). exists (k, src). by rewrite elem_of_map_to_list. }
  assert (list_to_map l = g <$> m) as Hl.
  { unfold l. by rewrite list_to_map_fmap, list_to_map_to_list. }
  destruct (mergeEntries_in_order_cases l je) as [[(k & il & Hin & Hnil & Hne) HN]|[Hfree (je' & HS & Hlook)]].
  - assert (l.*1 = (map_to_list m).*1) as ->; [|apply NoDup_fst_map_to_list].
    unfold l. generalize (map_to_list m). intros l0.
    induction l0 as [|[k src] l0 IH]; [done|]. cbn. by f_equal.
  - unfold l. apply Forall_fmap, Forall_forall. intros [k src] _. cbn.
    apply NoDup_fst_map_to_list.
  - left. split; [|done]. apply Hel in Hin as (src & Hm & ->).
    exists k, src. split_and!; [done|done|]. intros He. apply Hne. unfold g. by rewrite He.
  - right. split.
    + intros k src Hm Hnil. apply map_to_list_empty_iff.
      apply (Hfree k (g src)); [|done]. apply Hel. eauto.
    + exists je'. split; [done|]. intros k0. rewrite Hlook, Hl, lookup_fmap.
      destruct (m !! k0) as [src|]; [|done]. cbn. unfold g. by rewrite list_to_map_to_list.
Qed.

Lemma mergeEntries_Some je m je' :
  mergeEntries je m = Some je' →
  (∀ k src, m !! k = Some src → je !! k = Some None → held src = ∅)
  ∧ ∀ k0, je' !! k0 =
      match m !! k0 with
      | Some src => Some (merged_inner (je !! k0) (held src))
      | None => je !! k0
      end.
Proof.
  intros H. destruct (mergeEntries_cases je m) as [[_ HN]|[Hfree (je'' & HS & Hlook)]];
    [congruence|]. by replace je' with je'' by congruence.
Qed.

Lemma mergeEntries_None je m :
  mergeEntries je m = None →
  ∃ k src, m !! k = Some src ∧ je !! k = Some None ∧ held src ≠ ∅.
Proof.
  intros H. destruct (mergeEntries_cases je m) as [[Hc _]|[_ (je' & HS & _)]];
    [done|congruence].
Qed.

(** The merge completes on a jar without nil inner maps. *)
Lemma mergeEntries_made je m :
  (∀ k, je !! k ≠ Some None) → is_Some (mergeEntries je m).
Proof.
  intros Hmade. destruct (mergeEntries_cases je m) as [[(k & src & _ & Hnil & _) _]|[_ (je' & HS & _)]].
  - by destruct (Hmade k).
  - by exists je'.
Qed.

(** Key pair by key pair: the loaded value wins, the others stay. *)
Lemma mergeEntries_lookup2 je m je' k0 k1 :
  mergeEntries je m = Some je' →
  lookup2 je' k0 k1 =
    match lookup2 m k0 k1 with
    | Some v => Some v
    | None => lookup2 je k0 k1
    end.
Proof.
  intros [Hfree Hlook]%mergeEntries_Some. unfold lookup2. rewrite Hlook.
  destruct (m !! k0) as [src|] eqn:Hm; cbn [mbind option_bind]; [|done].
  destruct (je !! k0) as [[inner|]|] eqn:Hj; cbn [merged_inner held from_option id mbind option_bind].
  - rewrite lookup_union. by destruct (held src !! k1), (inner !! k1).
  - rewrite (Hfree k0 src Hm Hj), !lookup_empty. done.
  - by destruct (held src !! k1).
Qed.

(** The outer keys after a merge are those of either document. *)
Lemma mergeEntries_dom je m je' :
  mergeEntries je m = Some je' → dom je' = dom m ∪ dom je.
Proof.
  intros [_ Hlook]%mergeEntries_Some. apply set_eq. intros k.
  rewrite elem_of_union, !elem_of_dom, Hlook.
  destruct (m !! k) as [src|].
  - split; [by left; eauto|by eauto].
  - split; [by right|]. by intros [[? [=]]|?].
Qed.
End MergeFacts.

(** ** Loading *)

Section LoadFacts.
Context {entry : Type}.
Variable json : codec entry.
Variable E : environment.
Implicit Types (m D : gmap string (option (gmap string entry))) (j : Jar entry).

Lemma os_Read_cases name bytes st :
  (os_Read E name bytes st).1 = inr bytes ∨ ∃ e, (os_Read E name bytes st).1 = inl e.
Proof. unfold os_Read. destruct (fault _ _ _); simpl; eauto. Qed.

(** [decodeJSON] on a stream that is read without failure. *)
Lemma decodeJSON_read name bytes m st :
  (os_Read E name bytes st).1 = inr bytes →
  decodeJSON json E (Reader name bytes) m st =
    ((Unmarshal json bytes).1 ∪ m, JSONError <$> (Unmarshal json bytes).2,
     (os_Read E name bytes st).2).
Proof.
  intros Hr. unfold decodeJSON. cbn [rd_name rd_bytes].
  destruct (os_Read E name bytes st) as [r st1]. cbn [fst snd] in *. subst r.
  by destruct (Unmarshal json bytes).
Qed.

(** [loadJSON] when the file is not there. *)
Lemma loadJSON_missing path m st st1 :
  os_Open E path st = (inl ENOENT, st1) → loadJSON json E path m st = (m, None, st1).
Proof. intros Ho. unfold loadJSON. by rewrite Ho. Qed.

(** [loadJSON] when the file is opened and read without failure. *)
Lemma loadJSON_read path m st bytes st1 :
  os_Open E path st = (inr bytes, st1) →
  (os_Read E path bytes st1).1 = inr bytes →
  loadJSON json E path m st =
    ((Unmarshal json bytes).1 ∪ m, JSONError <$> (Unmarshal json bytes).2,
     (os_Close E path (os_Read E path bytes st1).2).2).
Proof.
  intros Ho Hr. unfold loadJSON. rewrite Ho, (decodeJSON_read _ _ _ _ Hr).
  by destruct (os_Close E path _).
Qed.

(** The document that the caller of [loadJSON] passed is all there is in the
    outer keys that the stream does not mention. *)
Lemma overlay_lookup D m k0 :
  (D ∪ m) !! k0 = match D !! k0 with Some inner => Some inner | None => m !! k0 end.
Proof.
  destruct (D !! k0) as [inner|] eqn:HD.
  - by apply lookup_union_Some_l.
  - by rewrite lookup_union_r.
Qed.
End LoadFacts.

(** ** Saving *)

Section SaveFacts.
Context {entry : Type}.
Variable json : codec entry.
Variable E : environment.
Implicit Types (m D : gmap string (option (gmap string entry))) (j : Jar entry).

Lemma create_not_retry a fn w a' err w' :
  create E a fn w = (a', err, w') → err ≠ Some erratomicFileRetry.
Proof.
  unfold create. destruct (Split _) as [dir name].
  destruct (os_TempFile _ _ _ _) as [[?|?] ?]; by intros [= <- <- <-].
Qed.

Lemma WriteTo_not_retry j f st err st' :
  WriteTo json E j f st = (err, st') → err ≠ Some erratomicFileRetry.
Proof.
  unfold WriteTo, encodeJSON. destruct (Marshal json _); [by intros [= <- <-]|].
  destruct (file_Write _ _ _ _) as [r st1]. intros [= <- <-]. apply os_error_not_retry.
Qed.

(** A turn of the loop that returns does not return the conflict signal. *)
Lemma Save_attempt_not_retry j st err j' st' :
  Save_attempt json E j st = (Return err, j', st') → err ≠ Some erratomicFileRetry.
Proof.
  unfold Save_attempt.
  destruct (create E _ _ st) as [[af cerr] st1] eqn:Hc.
  destruct cerr as [e|].
  { intros [= <- <- <-]. by apply (create_not_retry _ _ _ _ _ _ Hc). }
  destruct (WriteTo json E j _ st1) as [werr st2] eqn:Hw.
  destruct werr as [e|].
  { destruct (cancel E af st2). intros [= <- <- <-].
    by apply (WriteTo_not_retry _ _ _ _ _ Hw). }
  destruct (commit E af st2) as [[e|] st3]; [|by intros [= <- <- <-]].
  destruct (cancel E af st3) as [? st4].
  destruct (isRetry (Some e)) eqn:Hr; cbn [negb].
  - destruct (loadJSON json E _ _ st4) as [[m [le|]] st5]; [by intros [= ]|].
    by destruct (mergeEntries _ _).
  - intros [= <- <- <-]. unfold isRetry in Hr. by case_bool_decide.
Qed.

Lemma Save_loop_not_retry fuel j st err j' st' :
  Save_loop json E fuel j st = Returns (err, j', st') → err ≠ Some erratomicFileRetry.
Proof.
  revert j st. induction fuel as [|fuel IH]; intros j st; [done|].
  cbn [Save_loop]. destruct (Save_attempt json E j st) as [[[r| |] j1] st1] eqn:Ha.
  - intros [= <- <- <-]. by apply (Save_attempt_not_retry _ _ _ _ _ Ha).
  - apply IH.
  - done.
Qed.

(** A turn whose [commit] reports a conflict: the handle is cancelled, the
    file is loaded again into a fresh map, and the turn ends without
    returning: at the [continue] when loading failed, else after the merge
    of what was loaded, or in its panic. *)
Lemma Save_attempt_conflict j st af st1 st2 st3 :
  create E zero_atomicFile (filename j) st = (af, None, st1) →
  WriteTo json E j (af_file af) st1 = (None, st2) →
  commit E af st2 = (Some erratomicFileRetry, st3) →
  Save_attempt json E j st =
    let '(m, lerr, st5) := loadJSON json E (filename j) ∅ (cancel E af st3).2 in
    match lerr, mergeEntries (entries j) m with
    | Some _, _ => (Continue, j, st5)
    | None, Some merged => (Continue, MkJar (filename j) merged, st5)
    | None, None => (Panic, j, st5)
    end.
Proof.
  intros Hc Hw Hm. unfold Save_attempt. rewrite Hc, Hw, Hm.
  destruct (cancel E af st3) as [? st4]. cbn [snd]. unfold isRetry.
  rewrite bool_decide_eq_true_2 by done. cbn [negb].
  destruct (loadJSON json E _ _ st4) as [[m [le|]] st5]; [done|].
  by destruct (mergeEntries _ _).
Qed.

(** *** Temporary files of [Save] *)

Lemma os_TempFile_cases dir pattern st :
  let out := os_TempFile E dir pattern st in
  (∃ r, trace out.2 = Event (SysTempFile dir pattern) r :: trace st
        ∧ (r = None ↔ out.1 = inr (temp_path E dir pattern (tick st)))
        ∧ (r ≠ None → ∃ e, out.1 = inl e ∧ files out.2 = rival E (tick st) (files st)))
  ∧ (∀ x, private E x → x ≠ temp_path E dir pattern (tick st) →
       files st !! x = None → files out.2 !! x = None).
Proof.
  unfold os_TempFile. cbn zeta.
  destruct (fault _ _ _) as [e|]; [|destruct (files (enter E st) !! _) eqn:Ht]; cbn [fst snd].
  - split; [exists (Some e); split_and!; [done|done|eauto]|].
    intros x Hp Hne Hx. by apply Hp.
  - split; [exists (Some EEXIST); split_and!; [done|done|eauto]|].
    intros x Hp Hne Hx. by apply Hp.
  - split; [exists None; split_and!; done|].
    intros x Hp Hne Hx. cbn. rewrite lookup_insert_ne by done. by apply Hp.
Qed.

Lemma WriteTo_follows path j f st : follows E path st (WriteTo json E j f st).2.
Proof.
  unfold WriteTo, encodeJSON. destruct (Marshal json _); [apply follows_refl|].
  destruct f as [name|]; cbn [file_Write].
  - pose proof (os_Write_follows E path name s st) as Hw.
    by destruct (os_Write E name s st).
  - apply follows_refl.
Qed.

Lemma loadJSON_follows path p m st : follows E path st (loadJSON json E p m st).2.
Proof.
  unfold loadJSON.
  pose proof (os_Open_follows E path p st) as Ho.
  destruct (os_Open E p st) as [[e|bytes] st1]; cbn [snd] in Ho.
  { by destruct (IsNotExist _). }
  unfold decodeJSON. cbn [rd_name rd_bytes].
  pose proof (os_Read_follows E path p bytes st1) as Hr.
  destruct (os_Read E p bytes st1) as [[e|bytes'] st2]; cbn [snd] in Hr.
  - pose proof (os_Close_follows E path p st2) as Hc.
    destruct (os_Close E p st2) as [? st3]. cbn [snd] in *.
    eapply follows_trans; [done|]. by eapply follows_trans.
  - destruct (Unmarshal json bytes') as [stored err].
    pose proof (os_Close_follows E path p st2) as Hc.
    destruct (os_Close E p st2) as [? st3]. cbn [snd] in *.
    eapply follows_trans; [done|]. by eapply follows_trans.
Qed.

(** A turn of the loop: it keeps the jar's path; its first system call is
    the [TempFile] of [create] and it issues no other; if that call
    succeeded the file it created is gone when the turn ends; and a name that
    was free, is not the target and is left alone by other processes is still
    free.  The last two need removals not to fail for a reason of their own
    and the temporary file to be left alone by other processes. *)
Lemma Save_attempt_temp j st :
  let out := Save_attempt json E j st in
  let t := temp_name E (filename j) (tick st) in
  filename out.1.2 = filename j
  ∧ (∃ evs r,
       trace out.2 =
         (evs ++ Event (SysTempFile (Split (filename j)).1 (Split (filename j)).2) r
              :: trace st)%list
       ∧ Forall (λ ev, is_TempFile (ev_call ev) = false) evs
       ∧ (removal_works E → private E t → r = None → files out.2 !! t = None))
  ∧ (removal_works E → private E t →
     ∀ x, private E x → x ≠ filename j → files st !! x = None → files out.2 !! x = None).
Proof.
  cbn zeta. unfold Save_attempt, create, ToSlash.
  set (path := filename j).
  destruct (Split path) as [dir name] eqn:Hsplit. cbn [fst snd].
  set (t := temp_name E path (tick st)).
  assert (t = temp_path E dir name (tick st)) as Ht
    by (unfold t, temp_name, ToSlash; by rewrite Hsplit).
  assert (t ≠ path) as Htp by apply temp_name_neq.
  destruct (os_TempFile_cases dir name st) as [(r & Htr & Hr & Hfail) Habs].
  rewrite <-Ht in Hr, Habs.
  destruct (os_TempFile E dir name st) as [[e|f] st1]; cbn [fst snd] in *.
  { (* TempFile failed *)
    assert (r ≠ None) as Hrne by (intros Hn%Hr; done).
    destruct (Hfail Hrne) as (_ & _ & Hfs).
    split_and!; [done| |].
    - exists [], r. split_and!; done.
    - intros _ _ x Hp Hne Hx. rewrite Hfs. by apply Hp. }
  assert (r = None ∧ f = t) as [-> ->].
  { destruct r as [e|]; [by destruct (Hfail ltac:(done)) as (? & ? & _)|].
    split; [done|]. destruct Hr as [Hr _]. by injection (Hr eq_refl). }
  cbn [af_file].
  set (af := AtomicFile path (Some t) (clock st1)).
  (* however the turn ends, it ends in a world that follows [st1] and in
     which [t] is free *)
  assert (∀ (o : turn) (j' : Jar entry) (st' : world),
    filename j' = path → follows E path st1 st' →
    (removal_works E → private E t → files st' !! t = None) →
    filename (o, j', st').1.2 = path
    ∧ (∃ evs r,
         trace (o, j', st').2 = (evs ++ Event (SysTempFile dir name) r :: trace st)%list
         ∧ Forall (λ ev, is_TempFile (ev_call ev) = false) evs
         ∧ (removal_works E → private E t → r = None → files (o, j', st').2 !! t = None))
    ∧ (removal_works E → private E t →
       ∀ x, private E x → x ≠ path → files st !! x = None → files (o, j', st').2 !! x = None))
    as Hend.
  { intros o j' st' Hfn [(evs & Hevs & Hnt) Hfree] Hgone. cbn [fst snd].
    split_and!; [done| |].
    - exists evs, None. split_and!; [by rewrite Hevs, Htr|done|auto].
    - intros Hrm Htpriv x Hp Hne Hx. destruct (decide (x = t)) as [->|Hxt]; [auto|].
      apply Hfree; [done..|]. by apply Habs. }
  pose proof (WriteTo_follows path j (Some t) st1) as Hw.
  destruct (WriteTo json E j (Some t) st1) as [[e|] st2]; cbn [snd] in Hw.
  { pose proof (cancel_follows E path af st2) as Hc.
    pose proof (λ Hrm, cancel_absent E af t st2 Hrm eq_refl) as Hc'.
    destruct (cancel E af st2) as [? st3]. cbn [snd] in *. cbv beta iota.
    apply Hend; [done| |auto]. by eapply follows_trans. }
  pose proof (commit_follows E path af st2 eq_refl) as Hm.
  pose proof (λ Hrm Htpriv, commit_absent E path af t st2 Hrm Htpriv eq_refl Htp eq_refl) as Hm'.
  destruct (commit E af st2) as [[e|] st3]; cbn [snd] in Hm, Hm'.
  2:{ cbv beta iota. apply Hend; [done| |done]. by eapply follows_trans. }
  pose proof (cancel_follows E path af st3) as Hc.
  pose proof (λ Hrm, cancel_absent E af t st3 Hrm eq_refl) as Hc'.
  destruct (cancel E af st3) as [? st4]. cbn [snd] in Hc, Hc'.
  assert (follows E path st1 st4) as H14
    by (eapply follows_trans; [done|]; by eapply follows_trans).
  cbv beta iota.
  destruct (negb (isRetry (Some e))); [apply Hend; auto|].
  pose proof (loadJSON_follows path path ∅ st4) as Hl.
  destruct (loadJSON json E path ∅ st4) as [[m lerr] st5]. cbn [snd] in Hl.
  assert (follows E path st1 st5) as H15 by by eapply follows_trans.
  assert (removal_works E → private E t → files st5 !! t = None) as Ht5
    by (intros Hrm Htpriv; apply Hl; auto).
  cbv beta iota. destruct lerr; [by apply Hend|].
  destruct (mergeEntries _ _); by apply Hend.
Qed.

(** Looking up a system call on a log that has grown. *)
Lemma nth_call_new (w w' : world) evs n :
  trace w' = (evs ++ trace w)%list → (tick w ≤ n)%nat →
  nth_call w' n = rev evs !! (n - tick w)%nat.
Proof.
  intros Ht Hn. unfold nth_call. rewrite Ht, rev_app_distr.
  rewrite lookup_app_r; rewrite length_rev; done.
Qed.

Lemma nth_call_old (w w' : world) evs n :
  trace w' = (evs ++ trace w)%list → (n < tick w)%nat →
  nth_call w' n = nth_call w n.
Proof.
  intros Ht Hn. unfold nth_call. rewrite Ht, rev_app_distr.
  rewrite lookup_app_l; [done|]. by rewrite length_rev.
Qed.

(** The only [TempFile] of a turn is its first call. *)
Lemma Save_attempt_calls evs ev0 st st1 n dir pattern :
  trace st1 = (evs ++ ev0 :: trace st)%list →
  Forall (λ ev, is_TempFile (ev_call ev) = false) evs →
  (tick st ≤ n)%nat →
  nth_call st1 n = Some (Event (SysTempFile dir pattern) None) →
  n = tick st ∧ ev0 = Event (SysTempFile dir pattern) None.
Proof.
  intros Ht Hnt Hn Hcall.
  rewrite (nth_call_new st st1 (evs ++ [ev0]) n) in Hcall;
    [|by rewrite Ht, <-(assoc_L (++))|done].
  rewrite rev_app_distr in Hcall. cbn [rev app] in Hcall.
  destruct (n - tick st)%nat as [|k] eqn:Hk.
  - cbn in Hcall. split; [lia|congruence].
  - cbn in Hcall. apply list_elem_of_lookup_2, list_elem_of_In, in_rev, list_elem_of_In in Hcall.
    rewrite Forall_forall in Hnt. by apply Hnt in Hcall.
Qed.

(** The whole loop: names that were free stay free, and every temporary
    file created on the way is gone at the end. *)
Lemma Save_loop_temp fuel j st r j' st' :
  removal_works E →
  (∀ n, private E (temp_name E (filename j) n)) →
  Save_loop json E fuel j st = Returns (r, j', st') →
  (∃ evs, trace st' = (evs ++ trace st)%list)
  ∧ (∀ x, private E x → x ≠ filename j → files st !! x = None → files st' !! x = None)
  ∧ (∀ x, created_temp E st st' x → files st' !! x = None).
Proof.
  intros Hrm. revert j st. induction fuel as [|fuel IH]; intros j st Hpriv; [done|].
  cbn [Save_loop].
  destruct (Save_attempt_temp j st) as (Hfn & (evs & r0 & Ht & Hnt & Hgone) & Hfree).
  specialize (Hgone Hrm (Hpriv _)). specialize (Hfree Hrm (Hpriv _)).
  set (ev0 := Event (SysTempFile (Split (filename j)).1 (Split (filename j)).2) r0) in *.
  destruct (Save_attempt json E j st) as [[o j1] st1]. cbn [fst snd] in *.
  assert (tick st1 = (length evs + S (tick st))%nat) as Htick
    by (unfold tick; rewrite Ht, length_app; done).
  destruct o as [r1| |]; [| |done].
  - intros [= <- <- <-]. split_and!; [by exists (evs ++ [ev0])%list; rewrite <-(assoc_L (++))|done|].
    intros x (n & dir & pattern & Hn & Hcall & ->).
    destruct (Save_attempt_calls evs ev0 st st1 n dir pattern Ht Hnt Hn Hcall) as [-> Hev].
    injection Hev as <- <- ->. by apply Hgone.
  - intros Hloop.
    assert (∀ n, private E (temp_name E (filename j1) n)) as Hpriv1 by by rewrite Hfn.
    destruct (IH j1 st1 Hpriv1 Hloop) as ((evs' & Ht') & Hfree' & Hgone').
    rewrite Hfn in Hfree'.
    split_and!.
    + exists (evs' ++ evs ++ [ev0])%list. rewrite Ht', Ht. by rewrite <-!(assoc_L (++)).
    + intros x Hp Hne Hx. by apply Hfree', Hfree.
    + intros x (n & dir & pattern & Hn & Hcall & ->).
      destruct (decide (n < tick st1)%nat) as [Hlt|Hge].
      * rewrite (nth_call_old st1 st' evs' n Ht' Hlt) in Hcall.
        destruct (Save_attempt_calls evs ev0 st st1 n dir pattern Ht Hnt Hn Hcall) as [-> Hev].
        injection Hev as <- <- ->.
        apply Hfree'; [apply Hpriv|apply temp_name_neq|by apply Hgone].
      * apply Hgone'. exists n, dir, pattern. split_and!; [lia|done|done].
Qed.
End SaveFacts.

(** ** A run without interference and without failures *)

Section Calm.
Context {entry : Type}.
Variable json : codec entry.
Variable E : environment.
Hypothesis Hquiet : quiet E.
Hypothesis Hfaultless : faultless E.
Implicit Types (D : gmap string (option (gmap string entry))) (j : Jar entry).

Lemma calm_TempFile dir pattern w :
  files w !! temp_path E dir pattern (tick w) = None →
  (os_TempFile E dir pattern w).1 = inr (temp_path E dir pattern (tick w))
  ∧ files (os_TempFile E dir pattern w).2 =
      <[temp_path E dir pattern (tick w) := File "" (clock w + elapse E (tick w))]> (files w)
  ∧ clock (os_TempFile E dir pattern w).2 = clock w + elapse E (tick w).
Proof.
  intros Ht. unfold os_TempFile. cbn zeta.
  rewrite Hfaultless, (enter_files E Hquiet), Ht. cbn. by rewrite ?Hquiet.
Qed.

Lemma calm_Write name bytes w f :
  files w !! name = Some f →
  (os_Write E name bytes w).1 = None
  ∧ files (os_Write E name bytes w).2 =
      <[name := File (data f +:+ bytes) (clock w + elapse E (tick w))]> (files w).
Proof.
  intros Hn. unfold os_Write. cbn zeta.
  rewrite Hfaultless, (enter_files E Hquiet), Hn. cbn. by rewrite ?Hquiet.
Qed.

Lemma calm_Stat p w :
  (os_Stat E p w).1 =
    match files w !! p with
    | Some f => (Some f, None)
    | None => (None, Some ENOENT)
    end.
Proof.
  unfold os_Stat. cbn zeta. rewrite Hfaultless, (enter_files E Hquiet).
  by destruct (files w !! p).
Qed.

Lemma calm_Rename old new w f :
  files w !! old = Some f →
  (os_Rename E old new w).1 = None
  ∧ files (os_Rename E old new w).2 = <[new := f]> (delete old (files w)).
Proof.
  intros Ho. unfold os_Rename. cbn zeta.
  rewrite Hfaultless, (enter_files E Hquiet), Ho. cbn. by rewrite ?Hquiet.
Qed.

Lemma calm_Open p w f :
  files w !! p = Some f → (os_Open E p w).1 = inr (data f).
Proof.
  intros Hp. unfold os_Open. cbn zeta.
  by rewrite Hfaultless, (enter_files E Hquiet), Hp.
Qed.

Lemma calm_Read name bytes w : (os_Read E name bytes w).1 = inr bytes.
Proof. unfold os_Read. cbn zeta. by rewrite Hfaultless. Qed.

(** [commit] when the target is absent or not newer than the handle: the
    temporary file is moved onto the target. *)
Lemma calm_commit a f w tmp :
  af_file a = Some f →
  files w !! f = Some tmp →
  (∀ info, files w !! af_filename a = Some info → (modTime info ≤ af_ctime a)%Z) →
  (commit E a w).1 = None
  ∧ files (commit E a w).2 = <[af_filename a := tmp]> (delete f (files w)).
Proof.
  intros Hf Htmp Hold. rewrite (commit_unfold E a f w Hf). cbn zeta.
  set (w2 := flushed E f w).
  assert (files w2 = files w) as Hw2 by by apply flushed_files.
  pose proof (os_Stat_files E Hquiet (af_filename a) w2) as Hst.
  rewrite calm_Stat, Hw2.
  destruct (calm_Rename f (af_filename a) (os_Stat E (af_filename a) w2).2 tmp) as [Hr Hrf];
    [by rewrite Hst, Hw2|].
  rewrite Hst, Hw2 in Hrf.
  assert (∀ w', files (os_Close E f w').2 = files w') as Hcl
    by (intros w'; by apply os_Close_files).
  destruct (files w !! af_filename a) as [info|] eqn:Hinfo.
  - unfold After. rewrite bool_decide_eq_false_2 by (specialize (Hold info eq_refl); lia).
    rewrite Hr. cbn [fst snd]. by rewrite Hcl.
  - rewrite Hr. cbn [fst snd]. by rewrite Hcl.
Qed.

(** A turn of [Save] in such a run returns nil and leaves the marshalled
    document at the jar's path. *)
Lemma calm_Save_attempt j st bytes :
  steady E →
  Marshal json (entries j) = inr bytes →
  files st !! temp_name E (filename j) (tick st) = None →
  (∀ info, files st !! filename j = Some info → (modTime info ≤ clock st)%Z) →
  ∃ st' mtime,
    Save_attempt json E j st = (Return None, j, st')
    ∧ files st' !! filename j = Some (File bytes mtime).
Proof.
  intros Hsteady Hm Hfree Hold. unfold Save_attempt, create.
  pose proof (temp_name_neq E (filename j) (tick st)) as Hne.
  unfold temp_name in Hfree, Hne.
  destruct (Split (ToSlash (filename j))) as [dir name]. cbn [fst snd] in *.
  set (t := temp_path E dir name (tick st)) in *.
  destruct (calm_TempFile dir name st Hfree) as (Hr1 & Hf1 & Hc1). fold t in Hr1, Hf1.
  destruct (os_TempFile E dir name st) as [r1 st1]. cbn [fst snd] in *. subst r1.
  cbn [af_file]. unfold WriteTo, encodeJSON. rewrite Hm. cbn [file_Write].
  destruct (calm_Write t bytes st1 (File "" (clock st + elapse E (tick st)))) as [Hr2 Hf2];
    [by rewrite Hf1, lookup_insert_eq|].
  destruct (os_Write E t bytes st1) as [r2 st2]. cbn [fst snd data] in *. subst r2.
  cbn [os_error fmap option_fmap option_map].
  set (tmp := File ("" +:+ bytes) (clock st1 + elapse E (tick st1))) in *.
  set (af := AtomicFile (filename j) (Some t) (clock st1)).
  destruct (calm_commit af t st2 tmp eq_refl) as [Hr3 Hf3].
  { rewrite Hf2. apply lookup_insert_eq. }
  { intros info. rewrite Hf2, lookup_insert_ne, Hf1, lookup_insert_ne by done.
    intros Hinfo. cbn. specialize (Hold info Hinfo). specialize (Hsteady (tick st)). lia. }
  destruct (commit E af st2) as [r3 st3]. cbn [fst snd af_filename] in *. subst r3.
  exists st3, (clock st1 + elapse E (tick st1)). split; [done|].
  rewrite Hf3. apply lookup_insert_eq.
Qed.

(** [Load] in such a run, on a file that is there: what the decoder stores
    is laid over the jar's entries, and the path is recorded when the decoder
    returns no error. *)
Lemma calm_Load_file j path st f :
  files st !! path = Some f →
  (Load json E j path st).1 =
    match (Unmarshal json (data f)).2 with
    | None => (MkJar path ((Unmarshal json (data f)).1 ∪ entries j), None)
    | Some e => (MkJar (filename j) ((Unmarshal json (data f)).1 ∪ entries j),
                 Some (JSONError e))
    end.
Proof.
  intros Hp. pose proof (calm_Open path st f Hp) as Ho.
  destruct (os_Open E path st) as [r st1] eqn:Hopen. cbn [fst] in Ho. subst r.
  unfold Load.
  rewrite (loadJSON_read json E path _ st (data f) st1 Hopen (calm_Read _ _ _)).
  by destruct (Unmarshal json (data f)) as [stored [e|]].
Qed.

(** [Load] in such a run, on a file that decodes to [D]. *)
Lemma calm_Load j path st f D :
  files st !! path = Some f →
  Unmarshal json (data f) = (D, None) →
  (Load json E j path st).1 = (MkJar path (D ∪ entries j), None).
Proof. intros Hp Hu. by rewrite (calm_Load_file j path st f Hp), Hu. Qed.

(** [Save], then [Load] into an empty jar: the jar gets what the decoder
    makes of the encoding of the document. *)
Lemma calm_Save_then_Load D path other bytes fuel st :
  path ≠ "" → steady E →
  Marshal json D = inr bytes →
  files st !! temp_name E path (tick st) = None →
  (∀ info, files st !! path = Some info → (modTime info ≤ clock st)%Z) →
  ∃ st' mtime,
    Save json E (S fuel) (MkJar path D) st = Returns (None, MkJar path D, st')
    ∧ files st' !! path = Some (File bytes mtime)
    ∧ (Load json E (MkJar other ∅) path st').1 =
        match (Unmarshal json bytes).2 with
        | None => (MkJar path (Unmarshal json bytes).1, None)
        | Some e => (MkJar other (Unmarshal json bytes).1, Some (JSONError e))
        end.
Proof.
  intros Hpath Hs Hm Hfree Hold.
  destruct (calm_Save_attempt (MkJar path D) st bytes Hs Hm Hfree Hold)
    as (st' & mtime & Ha & Hfile).
  exists st', mtime. split_and!; [|done|].
  - unfold Save. cbn [filename]. rewrite decide_False by done.
    cbn [Save_loop]. by rewrite Ha.
  - rewrite (calm_Load_file _ path st' _ Hfile). cbn [entries filename data].
    by rewrite (right_id_L ∅ (∪)).
Qed.
End Calm.

(** ** The sample codec reads back what it writes *)

Lemma string_app_cons (c : ascii) (s1 s2 : string) : String c s1 +:+ s2 = String c (s1 +:+ s2).
Proof. done. Qed.

Lemma skip_ws_here (c : ascii) (rest : string) :
  Sample.is_space c = false → Sample.skip_ws (String c rest) = String c rest.
Proof. intros Hc. cbn [Sample.skip_ws]. by rewrite Hc. Qed.

Lemma expect_here (c : ascii) (rest : string) :
  Sample.is_space c = false → Sample.expect c (String c rest) = Some rest.
Proof. intros Hc. unfold Sample.expect. rewrite skip_ws_here by done. by rewrite decide_True. Qed.

(** One character of a string literal. *)
Lemma read_string_escape_char (c : ascii) (rest : string) :
  Sample.read_string (Sample.escape_char c +:+ rest) =
    match Sample.read_string rest with
    | Some (t, r) => Some (String c t, r)
    | None => None
    end.
Proof. destruct c as [[] [] [] [] [] [] [] []]; reflexivity. Qed.

Lemma read_string_escape (s rest : string) :
  Sample.read_string (Sample.escape s +:+ String Sample.dquote rest) = Some (s, rest).
Proof.
  induction s as [|c s IH].
  - change (Sample.escape "" +:+ String Sample.dquote rest) with (String Sample.dquote rest).
    cbn [Sample.read_string]. by rewrite decide_True.
  - change (Sample.escape (String c s)) with (Sample.escape_char c +:+ Sample.escape s).
    by rewrite string_app_assoc, read_string_escape_char, IH.
Qed.

Lemma read_literal_write (s rest : string) :
  Sample.read_literal (Sample.write_string s +:+ rest) = Some (s, rest).
Proof.
  unfold Sample.read_literal, Sample.write_string.
  rewrite string_app_cons, string_app_assoc, string_app_cons.
  rewrite expect_here by done. cbn [mbind option_bind].
  apply read_string_escape.
Qed.

Section SampleObjects.
Context {A : Type}.
Variable wv : A → string.
Variable rv : string → option (A * string).
Hypothesis Hrv : ∀ v rest, rv (wv v +:+ rest) = Some (v, rest).

Lemma write_members_cons k v b (l : list (string * A)) :
  Sample.write_members wv ((k, v) :: b :: l)
  = Sample.write_string k +:+ ":" +:+ wv v +:+ "," +:+ Sample.write_members wv (b :: l).
Proof. by destruct b. Qed.

Lemma read_members_write fuel (l : list (string * A)) rest :
  l ≠ [] → (length l ≤ fuel)%nat →
  Sample.read_members rv fuel (Sample.write_members wv l +:+ String "}" rest) = Some (l, rest).
Proof.
  revert fuel. induction l as [|[k v] l IH]; intros fuel Hne Hfuel; [done|].
  destruct fuel as [|fuel]; [cbn in Hfuel; lia|].
  cbn [length] in Hfuel. cbn [Sample.read_members].
  destruct l as [|b l].
  - cbn [Sample.write_members]. rewrite !string_app_assoc, read_literal_write.
    cbn [mbind option_bind]. rewrite string_app_cons, expect_here by done.
    cbn [mbind option_bind]. change ("" +:+ wv v +:+ String "}" rest) with (wv v +:+ String "}" rest).
    rewrite Hrv. cbn [mbind option_bind]. rewrite skip_ws_here by done.
    rewrite decide_False by done. by rewrite decide_True.
  - rewrite write_members_cons. rewrite !string_app_assoc, read_literal_write.
    cbn [mbind option_bind]. rewrite string_app_cons, expect_here by done.
    cbn [mbind option_bind].
    change ("" +:+ wv v +:+ "," +:+ Sample.write_members wv (b :: l) +:+ String "}" rest)
      with (wv v +:+ String "," (Sample.write_members wv (b :: l) +:+ String "}" rest)).
    rewrite Hrv. cbn [mbind option_bind]. rewrite skip_ws_here by done.
    rewrite decide_True by done.
    rewrite IH; [done|done|lia].
Qed.

Lemma length_write_members (l : list (string * A)) :
  (length l ≤ String.length (Sample.write_members wv l))%nat.
Proof.
  induction l as [|[k v] l IH]; [done|]. destruct l as [|b l].
  - cbn [Sample.write_members]. unfold Sample.write_string.
    rewrite string_app_cons. cbn [String.length length]. lia.
  - rewrite write_members_cons.
    rewrite !string_length_app. change (String.length ",") with 1%nat.
    cbn [List.length] in *. lia.
Qed.

Lemma write_members_head k v (l : list (string * A)) :
  ∃ tail, Sample.write_members wv ((k, v) :: l) = String Sample.dquote tail.
Proof. destruct l as [|[] ?]; cbn [Sample.write_members]; unfold Sample.write_string; eauto. Qed.

Lemma read_object_write (l : list (string * A)) rest :
  Sample.read_object rv (Sample.write_object wv l +:+ rest) = Some (l, rest).
Proof.
  unfold Sample.read_object, Sample.write_object.
  rewrite !string_app_assoc.
  change ("{" +:+ Sample.write_members wv l +:+ "}" +:+ rest)
    with (String "{" (Sample.write_members wv l +:+ String "}" rest)).
  rewrite expect_here by done. cbn [mbind option_bind].
  destruct l as [|[k v] l].
  - change (Sample.write_members wv [] +:+ String "}" rest) with (String "}" rest).
    rewrite skip_ws_here by done. by rewrite decide_True.
  - destruct (write_members_head k v l) as [tail Htail].
    rewrite Htail at 1. rewrite string_app_cons, skip_ws_here by done.
    rewrite decide_False by done.
    apply read_members_write; [done|].
    etrans; [apply length_write_members|]. rewrite string_length_app. lia.
Qed.
End SampleObjects.

Lemma bindings_map_to_list {A : Type} (m : gmap string A) :
  Sample.bindings (map_to_list m) = m.
Proof.
  apply map_eq. intros k. unfold Sample.bindings.
  rewrite foldl_insert_lookup by apply NoDup_fst_map_to_list.
  rewrite list_to_map_to_list, lookup_empty. by destruct (m !! k).
Qed.

Lemma read_inner_write (i : option (gmap string Sample.entry)) rest :
  Sample.read_inner (Sample.write_inner i +:+ rest) = Some (i, rest).
Proof.
  destruct i as [m|]; unfold Sample.read_inner, Sample.write_inner.
  - assert (∃ tail, Sample.write_object Sample.write_string (map_to_list m) +:+ rest
                    = String "{" tail) as [tail Htail]
      by (unfold Sample.write_object; eauto).
    rewrite Htail at 1. rewrite skip_ws_here by done.
    rewrite (read_object_write Sample.write_string Sample.read_literal read_literal_write).
    cbn [mbind option_bind]. by rewrite bindings_map_to_list.
  - change ("null" +:+ rest) with (String "n" (String "u" (String "l" (String "l" rest)))).
    by rewrite skip_ws_here.
Qed.

Lemma read_document_write (D : gmap string (option (gmap string Sample.entry))) rest :
  Sample.read_document (Sample.write_document D +:+ rest) = Some (D, rest).
Proof.
  unfold Sample.read_document, Sample.write_document.
  rewrite (read_object_write Sample.write_inner Sample.read_inner read_inner_write).
  cbn [mbind option_bind]. by rewrite bindings_map_to_list.
Qed.

(** The sample codec reads back whatever it writes, and nothing fails.  (It
    copies the bytes of strings as they are; package encoding/json does not
    have this property for strings that are no valid UTF-8.) *)
Lemma sample_json_round_trip (D : gmap string (option (gmap string Sample.entry))) :
  ∃ bytes, Marshal Sample.json D = inr bytes ∧ Unmarshal Sample.json bytes = (D, None).
Proof.
  eexists. split; [reflexivity|].
  cbn [Unmarshal Sample.json].
  assert (∃ tail, Sample.write_document D +:+ String "010"%char "" = String "{" tail)
    as [tail Htail] by (unfold Sample.write_document, Sample.write_object; eauto).
  rewrite Htail, skip_ws_here by done. cbn [Sample.is_null].
  by rewrite <-Htail, read_document_write.
Qed.

(** ** Specification of the atomic file writer *)

(** C10.  [commit] and [cancel] on a handle that holds no file (its [create]
    failed, or it never ran) return nil at once and issue no system call: the
    file system, the clock and the log of calls are exactly as before. *)
Theorem commit_cancel_nil_file (E : environment) (fn : string) (ct : Z) (w : world) :
  commit E (AtomicFile fn None ct) w = (None, w)
  ∧ cancel E (AtomicFile fn None ct) w = (None, w)
  ∧ ∀ a a' e w0 w', create E a fn w0 = (a', Some e, w') →
      commit E a' w = (None, w) ∧ cancel E a' w = (None, w).
Proof.
  split_and!; [done..|].
  intros a a' e w0 w' Hc. apply create_error_no_file in Hc.
  unfold commit, cancel. by rewrite Hc.
Qed.

(** C2.  For a handle that holds its temporary file, [commit] returns the
    conflict signal exactly when its [Stat] of the target finds a file whose
    modification time is strictly after the handle's creation time.  In that
    case the calls it issues are sync, close, stat, and then the close and
    remove of [cancel]: there is no rename; and when no other process
    interferes the target is as it was and, unless the removal itself fails,
    the temporary file is gone.  Without interference and without a failure of
    [Stat], the condition is that the target exists in the file system with
    such a modification time. *)
Theorem commit_conflict (E : environment) (a : atomicFile) (f : string) (w : world) :
  af_file a = Some f →
  let st := os_Stat E (af_filename a) (flushed E f w) in
  let out := commit E a w in
  (out.1 = Some erratomicFileRetry ↔
     ∃ info, st.1 = (Some info, None) ∧ af_ctime a < modTime info)
  ∧ (quiet E → fault E (tick w + 2) (SysStat (af_filename a)) = None →
     (out.1 = Some erratomicFileRetry ↔
        ∃ info, files w !! af_filename a = Some info ∧ af_ctime a < modTime info))
  ∧ (out.1 = Some erratomicFileRetry →
     out.2 = (cancel E a st.2).2
     ∧ (∃ r1 r2 r3 r4,
          trace out.2 =
            Event (SysRemove f) r4 :: Event (SysClose f) r3
              :: Event (SysStat (af_filename a)) None
              :: Event (SysClose f) r2 :: Event (SysSync f) r1 :: trace w)
     ∧ (quiet E → f ≠ af_filename a →
        files out.2 !! af_filename a = files w !! af_filename a)
     ∧ (quiet E → fault E (tick w + 4) (SysRemove f) = None →
        files out.2 !! f = None)).
Proof.
  intros Hf st out. subst st out.
  split; [by apply commit_retry_iff|]. split.
  - intros Hq Hfault. rewrite (commit_retry_iff E a f w Hf).
    assert (tick (flushed E f w) = (tick w + 2)%nat) as Ht
      by (rewrite flushed_tick; lia).
    split; intros (info & Hst & Hlt); exists info; split; try done.
    + apply (os_Stat_found E Hq) in Hst; [|by rewrite Ht].
      by rewrite flushed_files in Hst.
    + apply (os_Stat_found E Hq); [by rewrite Ht|]. by rewrite flushed_files.
  - intros Hr. destruct (commit_retry_world E a f w Hf Hr) as [Hw Hnone].
    split; [done|]. rewrite Hw.
    set (w3 := (os_Stat E (af_filename a) (flushed E f w)).2).
    assert (trace w3 = Event (SysStat (af_filename a)) None :: trace (flushed E f w)) as Ht3
      by (unfold w3; by rewrite os_Stat_trace, Hnone).
    destruct (flushed_trace E f w) as (r1 & r2 & Htf).
    assert (tick w3 = (tick w + 3)%nat) as Htick
      by (unfold tick; rewrite Ht3, Htf; simpl; lia).
    split; [|split].
    + destruct (cancel_trace E a f w3 Hf) as (r3 & r4 & Htc).
      exists r1, r2, r3, r4. by rewrite Htc, Ht3, Htf.
    + intros Hq Hne. rewrite (cancel_files E a f w3 Hq Hf).
      assert (files w3 = files w) as ->
        by (unfold w3; by rewrite os_Stat_files, flushed_files).
      destruct (fault _ _ _); [done|]. by rewrite lookup_delete_ne.
    + intros Hq Hfault. rewrite (cancel_files E a f w3 Hq Hf).
      replace (S (tick w3)) with (tick w + 4)%nat by lia.
      rewrite Hfault. apply lookup_delete_eq.
Qed.

Lemma commit_conflict_witness :
  af_file Sample.handle = Some Sample.temp
  ∧ (commit Sample.calm Sample.handle Sample.overtaken).1 = Some erratomicFileRetry
  ∧ files (commit Sample.calm Sample.handle Sample.overtaken).2 !! Sample.target
    = Some (File "{}" 20)
  ∧ files (commit Sample.calm Sample.handle Sample.overtaken).2 !! Sample.temp = None.
Proof.
  pose proof (commit_conflict Sample.calm Sample.handle Sample.temp Sample.overtaken eq_refl)
    as (Hiff & _ & Heff).
  assert ((commit Sample.calm Sample.handle Sample.overtaken).1 = Some erratomicFileRetry) as Hr.
  { apply Hiff. exists (File "{}" 20). split; [by_compute|]. simpl. lia. }
  destruct (Heff Hr) as (_ & _ & Ht & Hg).
  split_and!; [done|done| |].
  - etrans; [apply Ht; [by intros ??|intros Heq; vm_compute in Heq; discriminate Heq]
            |by_compute].
  - apply Hg; [by intros ??|done].
Defined.

(** C4.  A failed flush is not reported: with [Sync] failing, the target
    absent and the rename succeeding, [commit] returns nil, does not cancel
    and moves the unflushed temporary file onto the target. *)
Theorem commit_discards_flush_error :
  let out := commit Sample.flaky_sync Sample.handle Sample.first_run in
  out.1 = None
  ∧ rev (trace out.2) =
      [ Event (SysSync Sample.temp) (Some EIO);
        Event (SysClose Sample.temp) None;
        Event (SysStat Sample.target) (Some ENOENT);
        Event (SysRename Sample.temp Sample.target) None;
        Event (SysClose Sample.temp) None ]
  ∧ files out.2 !! Sample.target = Some (File "{}" 11)
  ∧ files out.2 !! Sample.temp = None.
Proof. by_compute. Qed.

(** ** Specification of the jar persister *)

(** C1.  The merge of [mergeEntries] does not do for every jar what the
    specification says: on a jar that has the nil map under an outer key for
    which the loaded document has entries, the assignment
    [j.entries[k0][k1] = m[k0][k1]] panics, the test before it having made a
    map only for a key that is missing.  [Load] leaves such a jar when the
    file has [null] under the key; and the [Save] of that jar that loses a
    race against a writer of entries for the key stops in the panic of the
    merge, with nothing merged and the other writer's file on disk. *)
Theorem mergeEntries_panics_on_nil_inner_map :
  let loaded := Load Sample.json Sample.calm Sample.empty_jar Sample.target Cases.null_on_disk in
  let run := Save Sample.json Sample.racing 2 Cases.nil_jar Sample.nothing in
  loaded.1 = (Cases.nil_jar, None)
  ∧ lookup2 Sample.their_doc "dom1" "c1" = Some "v2"
  ∧ mergeEntries (entries Cases.nil_jar) Sample.their_doc = None
  ∧ run = Panics (Sample.world_after run)
  ∧ files (Sample.world_after run) = {[ Sample.target := File Sample.their_bytes 2 ]}.
Proof. by_compute. Qed.

(** The race of the sample: the document of the other process wins key by
    key, our own key survives, and what ends up on disk is the merged
    document. *)
Example Save_merges_after_lost_race :
  let run := Save Sample.json Sample.racing 2 Sample.our_jar Sample.nothing in
  Sample.returned run = None
  ∧ entries (Sample.jar_after run) =
      {[ "dom1" := Some {[ "c1" := "v2"; "ours" := "v0" ]};
         "dom2" := Some {[ "c2" := "v3" ]} ]}
  ∧ (data <$> files (Sample.world_after run) !! Sample.target)
    = Some (Sample.write_document (entries (Sample.jar_after run)) +:+ String "010"%char "").
Proof. by_compute. Qed.

(** C7, as the code has it.  When the file at [path] is opened and read
    without failure and decodes to the document [D], [Load] succeeds, records
    [path], and stores the outer keys of [D] into the jar's map: every outer
    key of [D] is then bound to exactly the inner mapping that [D] gives it,
    and every outer key that [D] does not mention keeps the inner mapping the
    jar had.  Into an empty jar the result is [D]. *)
Theorem Load_overlays {entry : Type} (json : codec entry) (E : environment)
    (j : Jar entry) (path bytes : string) (st st1 : world) (D : gmap string (option (gmap string entry))) :
  os_Open E path st = (inr bytes, st1) →
  (os_Read E path bytes st1).1 = inr bytes →
  Unmarshal json bytes = (D, None) →
  (Load json E j path st).1 = (MkJar path (D ∪ entries j), None)
  ∧ (∀ k0 inner, D !! k0 = Some inner → (D ∪ entries j) !! k0 = Some inner)
  ∧ (∀ k0, D !! k0 = None → (D ∪ entries j) !! k0 = entries j !! k0)
  ∧ (entries j = ∅ → D ∪ entries j = D).
Proof.
  intros Ho Hr Hu. split_and!.
  - unfold Load. rewrite (loadJSON_read json E path _ st bytes st1 Ho Hr), Hu. done.
  - intros k0 inner HD. by rewrite overlay_lookup, HD.
  - intros k0 HD. by rewrite overlay_lookup, HD.
  - intros ->. apply (right_id_L ∅ (∪)).
Qed.

Lemma Load_overlays_witness :
  (Load Sample.json Sample.calm Sample.old_jar Sample.target Sample.with_disk_doc).1
  = (MkJar Sample.target (Sample.disk_doc ∪ entries Sample.old_jar), None).
Proof.
  refine (proj1 (Load_overlays Sample.json Sample.calm Sample.old_jar Sample.target
                   Sample.disk_bytes Sample.with_disk_doc _ Sample.disk_doc _ _ _)).
  - by_compute.
  - by_compute.
  - by_compute.
Defined.

(** C7 as the specification words it fails: a jar that holds a cookie for
    old.example and loads a file that only mentions new.example still holds
    the cookie for old.example afterwards, so its document is not the one on
    disk. *)
Lemma Load_keeps_absent_outer_keys :
  let out := Load Sample.json Sample.calm Sample.old_jar Sample.target Sample.with_disk_doc in
  out.1.2 = None
  ∧ Unmarshal Sample.json Sample.disk_bytes = (Sample.disk_doc, None)
  ∧ entries out.1.1 !! "old.example" = Some (Some {[ "sid" := "1" ]})
  ∧ entries out.1.1 ≠ Sample.disk_doc.
Proof.
  cbn zeta. split_and!; [by_compute..|].
  intros Heq.
  assert (entries (Load Sample.json Sample.calm Sample.old_jar Sample.target
                     Sample.with_disk_doc).1.1 !! "old.example"
          = Sample.disk_doc !! "old.example") as Hl by by rewrite Heq.
  vm_compute in Hl. discriminate Hl.
Qed.

(** C6, as the code has it.  [Load] on a path where [Open] reports that the
    file does not exist succeeds, leaves the jar's document as it was (empty
    if it was empty) and records the path.  [Load] on a file whose bytes
    decode to the empty document does the same.  A file in which the decoder
    finds no value at all, as in a file of length zero, is another matter:
    [Load] returns the decoder's end-of-input error and the jar, its path
    included, is as it was. *)
Theorem Load_missing_or_empty_document {entry : Type} (json : codec entry) (E : environment)
    (j : Jar entry) (path : string) (st : world) :
  (∀ st1, os_Open E path st = (inl ENOENT, st1) →
     Load json E j path st = (MkJar path (entries j), None, st1))
  ∧ (∀ bytes st1,
       os_Open E path st = (inr bytes, st1) →
       (os_Read E path bytes st1).1 = inr bytes →
       Unmarshal json bytes = (∅, None) →
       (Load json E j path st).1 = (MkJar path (entries j), None))
  ∧ (∀ bytes st1,
       os_Open E path st = (inr bytes, st1) →
       (os_Read E path bytes st1).1 = inr bytes →
       Unmarshal json bytes = (∅, Some EOF) →
       (Load json E j path st).1 = (j, Some (JSONError EOF))).
Proof.
  split_and!.
  - intros st1 Ho. unfold Load. by rewrite (loadJSON_missing json E path _ st st1 Ho).
  - intros bytes st1 Ho Hr Hu. unfold Load.
    rewrite (loadJSON_read json E path _ st bytes st1 Ho Hr), Hu. cbn.
    by rewrite (left_id_L ∅ (∪)).
  - intros bytes st1 Ho Hr Hu. unfold Load.
    rewrite (loadJSON_read json E path _ st bytes st1 Ho Hr), Hu. cbn.
    rewrite (left_id_L ∅ (∪)). by destruct j.
Qed.

(** C6 as the specification words it fails: on a missing file [Load] succeeds, on a
    file of length zero it returns [io.EOF]. *)
Lemma Load_zero_length_file_fails :
  (Load Sample.json Sample.calm Sample.empty_jar Sample.target Sample.nothing).1
  = (MkJar Sample.target ∅, None)
  ∧ (Load Sample.json Sample.calm Sample.empty_jar Sample.target Sample.zero_length).1
  = (Sample.empty_jar, Some (JSONError EOF))
  ∧ (Load Sample.json Sample.calm Sample.empty_jar Sample.target Sample.nothing).1
  ≠ (Load Sample.json Sample.calm Sample.empty_jar Sample.target Sample.zero_length).1.
Proof.
  assert ((Load Sample.json Sample.calm Sample.empty_jar Sample.target Sample.nothing).1
          = (MkJar Sample.target ∅, None)) as H1 by by_compute.
  assert ((Load Sample.json Sample.calm Sample.empty_jar Sample.target Sample.zero_length).1
          = (Sample.empty_jar, Some (JSONError EOF))) as H2 by by_compute.
  split_and!; [done..|]. rewrite H1, H2. done.
Qed.

(** C3, as the code has it.  [Save] never returns the conflict signal:
    whatever it returns is nil or another error.  When the [commit] of a turn
    of its loop reports a conflict, the turn cleans up: after the sync, close
    and stat of [commit] come the close and remove of its [cancel] and those
    of the [cancel] of [Save], and the temporary file is gone when the turn
    ends (removals not failing for a reason of their own, and other processes
    leaving the name alone).  The turn then loads the file again and ends
    without returning: when loading failed, with the jar as it was; when it
    succeeded, with what was loaded merged into the jar, or in the panic of
    that merge.  The loop goes on from there with its next turn. *)
Theorem Save_conflict_stays_inside {entry : Type} (json : codec entry) (E : environment)
    (fuel : nat) (j : Jar entry) (st st1 st2 st3 : world) (af : atomicFile) :
  create E zero_atomicFile (filename j) st = (af, None, st1) →
  WriteTo json E j (af_file af) st1 = (None, st2) →
  commit E af st2 = (Some erratomicFileRetry, st3) →
  let st4 := (cancel E af st3).2 in
  let reload := loadJSON json E (filename j) ∅ st4 in
  (∀ fuel' j0 st0 err j' st',
     Save json E fuel' j0 st0 = Returns (err, j', st') → err ≠ Some erratomicFileRetry)
  ∧ (∃ f r1 r2 r3 r4 r5 r6,
       af_file af = Some f
       ∧ trace st4 =
           Event (SysRemove f) r6 :: Event (SysClose f) r5
             :: Event (SysRemove f) r4 :: Event (SysClose f) r3
             :: Event (SysStat (filename j)) None
             :: Event (SysClose f) r2 :: Event (SysSync f) r1 :: trace st2
       ∧ (removal_works E → private E f → files reload.2 !! f = None))
  ∧ match reload.1.2, mergeEntries (entries j) reload.1.1 with
    | Some _, _ =>
        Save_attempt json E j st = (Continue, j, reload.2)
        ∧ Save_loop json E (S fuel) j st = Save_loop json E fuel j reload.2
    | None, Some merged =>
        Save_attempt json E j st = (Continue, MkJar (filename j) merged, reload.2)
        ∧ Save_loop json E (S fuel) j st
          = Save_loop json E fuel (MkJar (filename j) merged) reload.2
    | None, None =>
        Save_attempt json E j st = (Panic, j, reload.2)
        ∧ Save_loop json E (S fuel) j st = Panics reload.2
    end.
Proof.
  intros Hc Hw Hm st4 reload. split_and!.
  - intros fuel' j0 st0 err j' st'. unfold Save. case_decide.
    + by intros [= <- <- <-].
    + apply Save_loop_not_retry.
  - destruct (create_ok_file E _ _ _ _ _ Hc) as (f & Hf & Hfn & _).
    assert ((commit E af st2).1 = Some erratomicFileRetry) as Hr by by rewrite Hm.
    destruct (commit_retry_world E af f st2 Hf Hr) as [Hw3 Hnone].
    rewrite Hm in Hw3. cbn [snd] in Hw3. rewrite Hfn in Hw3, Hnone.
    set (w3 := (os_Stat E (filename j) (flushed E f st2)).2) in *.
    assert (trace w3 = Event (SysStat (filename j)) None :: trace (flushed E f st2)) as Ht3
      by (unfold w3; by rewrite os_Stat_trace, Hnone).
    destruct (flushed_trace E f st2) as (r1 & r2 & Htf).
    destruct (cancel_trace E af f w3 Hf) as (r3 & r4 & Htc).
    destruct (cancel_trace E af f st3 Hf) as (r5 & r6 & Htc').
    exists f, r1, r2, r3, r4, r5, r6. split_and!; [done| |].
    + unfold st4. by rewrite Htc', Hw3, Htc, Ht3, Htf.
    + intros Hrm Hpriv.
      apply (loadJSON_follows json E (filename j) (filename j) ∅ st4); [done| |].
      * assert (f = temp_name E (filename j) (tick st)) as ->; [|apply temp_name_neq].
        unfold create in Hc. unfold temp_name.
        destruct (Split (ToSlash (filename j))) as [dir name]. cbn [fst snd].
        destruct (os_TempFile_cases E dir name st) as [(r & _ & Hr' & Hfail) _].
        destruct (os_TempFile E dir name st) as [[e|f'] w1]; [done|].
        injection Hc as <- _. cbn [af_file] in Hf. injection Hf as <-.
        destruct r as [e|]; [by destruct (Hfail ltac:(done)) as (? & ? & _)|].
        destruct Hr' as [Hr' _]. by injection (Hr' eq_refl).
      * unfold st4. by apply cancel_absent.
  - rewrite (Save_attempt_conflict json E j st af st1 st2 st3 Hc Hw Hm).
    cbn [Save_loop].
    rewrite (Save_attempt_conflict json E j st af st1 st2 st3 Hc Hw Hm).
    fold st4. fold reload. destruct reload as [[m [le|]] st5]; cbn [fst snd]; [done|].
    by destruct (mergeEntries (entries j) m).
Qed.

Lemma Save_conflict_stays_inside_witness :
  let E := Sample.racing in
  let j := Sample.our_jar in
  let st1 := (create E zero_atomicFile (filename j) Sample.nothing).2 in
  let st2 := (WriteTo Sample.json E j (Some Sample.temp) st1).2 in
  let st3 := (commit E Sample.handle1 st2).2 in
  let reload := loadJSON Sample.json E (filename j) ∅ (cancel E Sample.handle1 st3).2 in
  Save_attempt Sample.json E j Sample.nothing
  = (Continue,
     MkJar Sample.target
       {[ "dom1" := Some {[ "c1" := "v2"; "ours" := "v0" ]};
          "dom2" := Some {[ "c2" := "v3" ]} ]},
     reload.2).
Proof.
  intros E j st1 st2 st3 reload.
  pose proof (Save_conflict_stays_inside Sample.json E 0 j Sample.nothing st1 st2 st3
                Sample.handle1) as H.
  destruct H as (_ & _ & H); [by_compute..|].
  fold reload in H.
  assert (reload.1 = (Sample.their_doc, None)) as Hl by by_compute.
  destruct reload as [[m lerr] st5]. cbn [fst snd] in *. injection Hl as -> ->.
  assert (mergeEntries (entries j) Sample.their_doc
          = Some {[ "dom1" := Some {[ "c1" := "v2"; "ours" := "v0" ]};
                    "dom2" := Some {[ "c2" := "v3" ]} ]}) as Hmg by by_compute.
  rewrite Hmg in H. exact (proj1 H).
Defined.

(** C3 as the specification words it fails: a conflict is not always
    followed by a merge.  In the race of the sample with a file that cannot
    be opened for reading, the [commit] of the first turn reports the
    conflict and the turn ends with the jar as it was, although the document
    of the other process, which is on disk, has keys that the jar has not;
    [Save] then returns nil with the jar still unmerged. *)
Lemma Save_conflict_without_merge :
  let E := Sample.racing_unreadable in
  let st1 := (create E zero_atomicFile Sample.target Sample.nothing).2 in
  let st2 := (WriteTo Sample.json E Sample.our_jar (Some Sample.temp) st1).2 in
  let turn1 := Save_attempt Sample.json E Sample.our_jar Sample.nothing in
  let run := Save Sample.json E 2 Sample.our_jar Sample.nothing in
  (commit E Sample.handle1 st2).1 = Some erratomicFileRetry
  ∧ turn1.1 = (Continue, Sample.our_jar)
  ∧ (data <$> files turn1.2 !! Sample.target) = Some Sample.their_bytes
  ∧ lookup2 Sample.their_doc "dom2" "c2" = Some "v3"
  ∧ lookup2 (entries turn1.1.2) "dom2" "c2" = None
  ∧ run = Returns (None, Sample.our_jar, Sample.world_after run).
Proof. by_compute. Qed.

(** C9.  When [Save] returns, whatever it returns, none of the temporary
    files that its turns created is left: each one was renamed onto the
    target or removed.  This holds in every environment in which removing a
    file does not fail for a reason of its own and in which no other process
    creates files under the names of this jar's temporary files. *)
Theorem Save_leaves_no_temp {entry : Type} (json : codec entry) (E : environment)
    (fuel : nat) (j j' : Jar entry) (st st' : world) (r : option error) (x : string) :
  removal_works E →
  (∀ n, private E (temp_name E (filename j) n)) →
  Save json E fuel j st = Returns (r, j', st') →
  created_temp E st st' x →
  files st' !! x = None.
Proof.
  intros Hrm Hpriv. unfold Save. case_decide.
  - intros [= <- <- <-] (n & dir & pattern & Hn & Hcall & _).
    unfold nth_call in Hcall. apply lookup_lt_Some in Hcall.
    rewrite length_rev in Hcall. unfold tick in Hn. lia.
  - intros Hloop. by apply (Save_loop_temp json E fuel j st r j' st' Hrm Hpriv Hloop).
Qed.

Lemma Save_leaves_no_temp_witness :
  let run := Save Sample.json Sample.racing 2 Sample.our_jar Sample.nothing in
  created_temp Sample.racing Sample.nothing (Sample.world_after run) Sample.temp
  ∧ files (Sample.world_after run) !! Sample.temp = None.
Proof.
  intros run.
  assert (created_temp Sample.racing Sample.nothing (Sample.world_after run) Sample.temp) as Hc.
  { exists 0%nat, "/home/u/", "cookies.json". split; [done|]. split; by_compute. }
  split; [done|].
  refine (Save_leaves_no_temp Sample.json Sample.racing 2 Sample.our_jar (Sample.jar_after run)
            Sample.nothing (Sample.world_after run) (Sample.returned run) Sample.temp
            _ _ _ Hc).
  - by intros n path.
  - intros n fs Hfs. cbn. case_decide; [|done].
    rewrite lookup_insert_ne; [done|]. intros Heq. vm_compute in Heq. discriminate Heq.
  - by_compute.
Defined.

(** C5, as the code has it.  When the [commit] of a turn reports a conflict
    and loading the file again fails, the turn ends there: the error is not
    returned, nothing is merged, the jar is as it was, and the loop goes on
    with a whole new turn, whose first system call is the [TempFile] of a new
    handle. *)
Theorem Save_reload_failure_restarts {entry : Type} (json : codec entry) (E : environment)
    (fuel : nat) (j : Jar entry) (st st1 st2 st3 st5 : world) (af : atomicFile)
    (m : gmap string (option (gmap string entry))) (e : error) :
  create E zero_atomicFile (filename j) st = (af, None, st1) →
  WriteTo json E j (af_file af) st1 = (None, st2) →
  commit E af st2 = (Some erratomicFileRetry, st3) →
  loadJSON json E (filename j) ∅ (cancel E af st3).2 = (m, Some e, st5) →
  Save_attempt json E j st = (Continue, j, st5)
  ∧ Save_loop json E (S fuel) j st = Save_loop json E fuel j st5
  ∧ ∃ evs r,
      trace (Save_attempt json E j st5).2 =
        (evs ++ Event (SysTempFile (Split (filename j)).1 (Split (filename j)).2) r
             :: trace st5)%list.
Proof.
  intros Hc Hw Hm Hl.
  assert (Save_attempt json E j st = (Continue, j, st5)) as Ha
    by (by rewrite (Save_attempt_conflict json E j st af st1 st2 st3 Hc Hw Hm), Hl).
  split_and!; [done| |].
  - cbn [Save_loop]. by rewrite Ha.
  - destruct (Save_attempt_temp json E j st5) as (_ & (evs & r & Ht & _) & _). eauto.
Qed.

Lemma Save_reload_failure_restarts_witness :
  let E := Sample.racing_unreadable in
  let j := Sample.our_jar in
  let st1 := (create E zero_atomicFile (filename j) Sample.nothing).2 in
  let st2 := (WriteTo Sample.json E j (Some Sample.temp) st1).2 in
  let st3 := (commit E Sample.handle1 st2).2 in
  let st5 := (loadJSON Sample.json E (filename j) ∅ (cancel E Sample.handle1 st3).2).2 in
  Save_attempt Sample.json E j Sample.nothing = (Continue, j, st5).
Proof.
  intros E j st1 st2 st3 st5.
  refine (proj1 (Save_reload_failure_restarts Sample.json E 0 j Sample.nothing st1 st2 st3 st5
                   Sample.handle1 ∅ (PathError EACCES) _ _ _ _)); by_compute.
Defined.

(** C5 as the specification words it fails.  In the race of the sample, with a file
    that cannot be opened for reading, the failed [Open] is followed at once
    by the [TempFile] of a second turn; the file is never opened with
    success, nothing is merged, and the second turn moves our unmerged
    document over what the other process had written. *)
Lemma Save_restarts_after_failed_reload :
  let run := Save Sample.json Sample.racing_unreadable 2 Sample.our_jar Sample.nothing in
  run = Returns (None, Sample.our_jar, Sample.world_after run)
  ∧ rev (trace (Sample.world_after run)) =
        [ Event (SysTempFile "/home/u/" "cookies.json") None;
          Event (SysWrite Sample.temp Sample.our_bytes) None;
          Event (SysSync Sample.temp) None;
          Event (SysClose Sample.temp) None;
          Event (SysStat Sample.target) None;
          Event (SysClose Sample.temp) None;
          Event (SysRemove Sample.temp) None;
          Event (SysClose Sample.temp) None;
          Event (SysRemove Sample.temp) (Some ENOENT);
          Event (SysOpen Sample.target) (Some EACCES);
          Event (SysTempFile "/home/u/" "cookies.json") None;
          Event (SysWrite Sample.temp Sample.our_bytes) None;
          Event (SysSync Sample.temp) None;
          Event (SysClose Sample.temp) None;
          Event (SysStat Sample.target) None;
          Event (SysRename Sample.temp Sample.target) None;
          Event (SysClose Sample.temp) None ]
  ∧ files (Sample.world_after run) !! Sample.target = Some (File Sample.our_bytes 12).
Proof. by_compute. Qed.

(** C8, as the code has it.  [Save] writes the encoding of the jar's
    document to the path, and [Load] into an empty jar gets from that file
    exactly what the decoder makes of the encoding: the round trip gives the
    document back, without an error, if and only if package encoding/json
    reads the encoding of the document back as the document.  This holds in
    a run in which no other process touches the file system, no system call
    fails, the clock does not go back, the name picked for the temporary
    file is free, and the target, if it exists, is not dated after the
    present. *)
Theorem Save_Load_round_trip {entry : Type} (json : codec entry) (E : environment)
    (D : gmap string (option (gmap string entry))) (path other bytes : string)
    (fuel : nat) (st : world) :
  path ≠ "" →
  quiet E → faultless E → steady E →
  Marshal json D = inr bytes →
  files st !! temp_name E path (tick st) = None →
  (∀ info, files st !! path = Some info → (modTime info ≤ clock st)%Z) →
  ∃ st' mtime,
    Save json E (S fuel) (MkJar path D) st = Returns (None, MkJar path D, st')
    ∧ files st' !! path = Some (File bytes mtime)
    ∧ (Load json E (MkJar other ∅) path st').1 =
        match (Unmarshal json bytes).2 with
        | None => (MkJar path (Unmarshal json bytes).1, None)
        | Some e => (MkJar other (Unmarshal json bytes).1, Some (JSONError e))
        end
    ∧ ((Load json E (MkJar other ∅) path st').1 = (MkJar path D, None)
       ↔ Unmarshal json bytes = (D, None)).
Proof.
  intros Hpath Hq Hf Hs Hm Hfree Hold.
  destruct (calm_Save_then_Load json E Hq Hf D path other bytes fuel st)
    as (st' & mtime & HS & Hfile & HL); [done..|].
  exists st', mtime. split_and!; [done..|].
  rewrite HL. destruct (Unmarshal json bytes) as [stored [e|]]; cbn [fst snd].
  - split; intros [=].
  - split; [by intros [= ->]|by intros [= ->]].
Qed.

Lemma Save_Load_round_trip_witness :
  ∃ st' mtime,
    Save Sample.json Sample.calm 1 Sample.our_jar Sample.nothing
    = Returns (None, Sample.our_jar, st')
    ∧ files st' !! Sample.target = Some (File Sample.our_bytes mtime)
    ∧ (Load Sample.json Sample.calm Sample.empty_jar Sample.target st').1
      = (Sample.our_jar, None).
Proof.
  destruct (Save_Load_round_trip Sample.json Sample.calm (entries Sample.our_jar)
              Sample.target "" Sample.our_bytes 0 Sample.nothing)
    as (st' & mtime & HS & Hfile & _ & Hiff).
  - done.
  - by intros n fs.
  - by intros n c.
  - by intros n.
  - reflexivity.
  - by_compute.
  - intros info Hinfo. vm_compute in Hinfo. discriminate Hinfo.
  - exists st', mtime. split_and!; [exact HS|exact Hfile|]. apply Hiff. by_compute.
Defined.

(** C8 as the specification words it fails, with no other writer at work.
    The target is there already, dated a few units after the present: the
    first turn of [Save] takes it for the work of a concurrent writer and
    does not return; it merges the file into the jar, and the second turn
    writes the merged document.  What [Load] then reads into an empty jar is
    not the document that was saved. *)
Lemma Save_Load_postdated_target :
  let run := Save Sample.json Sample.calm 2 Sample.our_jar Cases.postdated in
  let back := Load Sample.json Sample.calm Sample.empty_jar Sample.target
                (Sample.world_after run) in
  quiet Sample.calm
  ∧ Save Sample.json Sample.calm 1 Sample.our_jar Cases.postdated = Loops
  ∧ run = Returns (None, Sample.jar_after run, Sample.world_after run)
  ∧ back.1.2 = None
  ∧ lookup2 (entries back.1.1) "new.example" "tok" = Some "2"
  ∧ lookup2 (entries Sample.our_jar) "new.example" "tok" = None
  ∧ entries back.1.1 ≠ entries Sample.our_jar.
Proof.
  cbn zeta. split_and!; [by intros n fs|by_compute..|].
  intros Heq.
  apply (f_equal (λ d, lookup2 d "new.example" "tok")) in Heq.
  vm_compute in Heq. discriminate Heq.
Qed.

(** With the sample codec, which reads back whatever it writes, the round
    trip gives back every document, the empty one included. *)
Corollary sample_Save_Load_round_trip (E : environment)
    (D : gmap string (option (gmap string Sample.entry))) (path other : string) (st : world) :
  path ≠ "" →
  quiet E → faultless E → steady E →
  files st !! temp_name E path (tick st) = None →
  (∀ info, files st !! path = Some info → (modTime info ≤ clock st)%Z) →
  ∃ st',
    Save Sample.json E 1 (MkJar path D) st = Returns (None, MkJar path D, st')
    ∧ (Load Sample.json E (MkJar other ∅) path st').1 = (MkJar path D, None).
Proof.
  intros Hpath Hq Hf Hs Hfree Hold.
  destruct (sample_json_round_trip D) as (bytes & Hm & Hu).
  destruct (calm_Save_then_Load Sample.json E Hq Hf D path other bytes 0 st)
    as (st' & mtime & HS & _ & HL); [done..|].
  exists st'. split; [done|]. by rewrite HL, Hu.
Qed.

(** * Further properties of the code *)

(** ** Algebra of the merge *)

(** X1. [mergeEntries] does not depend on the order in which its two
    [range] loops visit the keys: run over any enumeration of the loaded map
    (the outer keys in any order, each with its inner keys in any order, a
    nil inner map yielding none), the loops end as [mergeEntries] does: in a
    panic if it panics, and else with the same entries in the jar. *)
Theorem mergeEntries_any_order {entry : Type}
    (je m : gmap string (option (gmap string entry)))
    (l : list (string * list (string * entry))) :
  enumerates l m → mergeEntries_in_order je l = mergeEntries je m.
Proof.
  intros (Hnd & Hin & Hm).
  assert (∀ k0, (list_to_map l : gmap string (list (string * entry))) !! k0
                ≫= (λ il, Some (list_to_map il)) = held <$> m !! k0) as Hk.
  { intros k0. rewrite <-lookup_fmap, <-Hm, lookup_fmap. by destruct (list_to_map l !! k0). }
  destruct (mergeEntries_in_order_cases l je Hnd Hin)
    as [[(k & il & Hel & Hnil & Hne) HN]|[Hfree (je1 & HS1 & Hlook1)]];
    destruct (mergeEntries_cases je m)
    as [[(k' & src' & Hm' & Hnil' & Hne') HN']|[Hfree' (je2 & HS2 & Hlook2)]].
  - congruence.
  - exfalso. apply elem_of_list_to_map_1 in Hel; [|done].
    specialize (Hk k). rewrite Hel in Hk. cbn in Hk.
    destruct (m !! k) as [src|] eqn:Hmk; [|done]. cbn in Hk. injection Hk as Hk.
    pose proof (Hfree' k src Hmk Hnil) as He. rewrite He in Hk.
    destruct il as [|[k1 v] il]; [done|]. rewrite list_to_map_cons in Hk.
    by apply insert_non_empty in Hk.
  - exfalso. specialize (Hk k'). rewrite Hm' in Hk. cbn in Hk.
    destruct (list_to_map l !! k') as [il|] eqn:Hl; [|done]. cbn in Hk. injection Hk as Hk.
    apply elem_of_list_to_map_2 in Hl. rewrite (Hfree k' il Hl Hnil') in Hk.
    apply Hne'. by rewrite <-Hk.
  - rewrite HS1, HS2. f_equal. apply map_eq. intros k0. rewrite Hlook1, Hlook2.
    specialize (Hk k0). destruct (list_to_map l !! k0) as [il|], (m !! k0) as [src|];
      cbn in Hk; try done. by injection Hk as ->.
Qed.

Lemma mergeEntries_any_order_witness :
  enumerates Cases.their_list Sample.their_doc
  ∧ mergeEntries_in_order (entries Sample.our_jar) Cases.their_list
    = mergeEntries (entries Sample.our_jar) Sample.their_doc.
Proof.
  assert (enumerates Cases.their_list Sample.their_doc) as H.
  { split_and!.
    - apply (bool_decide_unpack _); vm_compute; exact I.
    - repeat constructor; apply (bool_decide_unpack _); vm_compute; exact I.
    - by_compute. }
  split; [exact H|]. exact (mergeEntries_any_order _ _ _ H).
Defined.

(** X2. When [mergeEntries] completes and when it panics, and what it
    leaves.  It panics exactly when the jar has the nil map under an outer key
    for which the loaded map has entries.  Otherwise, under an outer key of
    the loaded map the jar then has the loaded entries laid over those it had
    under that key: a new map when it had none, the nil map when it had the
    nil map and nothing was loaded for the key; under every other outer key
    the jar has what it had. *)
Theorem mergeEntries_inner_union {entry : Type}
    (je m : gmap string (option (gmap string entry))) :
  match mergeEntries je m with
  | Some je' =>
      (∀ k0 src, m !! k0 = Some src → je !! k0 = Some None → held src = ∅)
      ∧ ∀ k0, je' !! k0 =
          match m !! k0 with
          | Some src =>
              Some match je !! k0 with
                   | Some (Some inner) => Some (held src ∪ inner)
                   | Some None => None
                   | None => Some (held src)
                   end
          | None => je !! k0
          end
  | None => ∃ k0 src, m !! k0 = Some src ∧ je !! k0 = Some None ∧ held src ≠ ∅
  end.
Proof.
  destruct (mergeEntries je m) as [je'|] eqn:H.
  - by apply mergeEntries_Some.
  - by apply mergeEntries_None.
Qed.

(** X3. Merging the same loaded map a second time changes nothing: when
    the first merge completes, so does the second, and it leaves the jar as
    the first left it. *)
Theorem mergeEntries_idemp {entry : Type} (je m : gmap string (option (gmap string entry))) :
  mergeEntries je m ≫= (λ je', mergeEntries je' m) = mergeEntries je m.
Proof.
  destruct (mergeEntries je m) as [je'|] eqn:H1; [|done]. cbn [mbind option_bind].
  apply mergeEntries_Some in H1 as [Hfree Hlook].
  destruct (mergeEntries_cases je' m)
    as [[(k & src & Hm & Hnil & Hne) _]|[_ (je'' & -> & Hlook')]].
  - exfalso. rewrite Hlook, Hm in Hnil. injection Hnil as Hnil.
    destruct (je !! k) as [[inner|]|] eqn:Hj; try done. by apply Hne, (Hfree k).
  - f_equal. apply map_eq. intros k0. rewrite Hlook', Hlook.
    destruct (m !! k0) as [src|]; [|done]. f_equal.
    destruct (je !! k0) as [[inner|]|]; cbn [merged_inner]; [|done|].
    + by rewrite (assoc_L (∪)), (idemp_L (∪)).
    + by rewrite (idemp_L (∪)).
Qed.

(** X4. Merging an empty loaded map leaves the jar's entries as they are,
    and merging into a jar without entries gives the loaded map, with an
    empty map where the loaded map has the nil map.  Neither panics. *)
Theorem mergeEntries_unit {entry : Type} (m : gmap string (option (gmap string entry))) :
  mergeEntries m ∅ = Some m
  ∧ mergeEntries ∅ m = Some ((λ src, Some (held src)) <$> m).
Proof.
  split; [done|].
  destruct (mergeEntries_cases ∅ m) as [[(k & src & _ & Hnil & _) _]|[_ (je' & -> & Hlook)]];
    [done|].
  f_equal. apply map_eq. intros k0. rewrite Hlook, lookup_fmap, lookup_empty.
  by destruct (m !! k0).
Qed.

(** X5. Merging two loaded maps one after the other is merging, once,
    the second merged into the first, when that merge of the two completes:
    what two lost races in a row leave in the jar is what the later document
    laid over the earlier one would, and the jar's own nil inner maps make
    the one panic exactly when they make the other panic. *)
Theorem mergeEntries_assoc {entry : Type}
    (je m1 m2 m12 : gmap string (option (gmap string entry))) :
  mergeEntries m1 m2 = Some m12 →
  mergeEntries je m1 ≫= (λ je', mergeEntries je' m2) = mergeEntries je m12.
Proof.
  intros [Hfree12 Hlook12]%mergeEntries_Some.
  assert (∀ (a b : gmap string entry), a ∪ b = ∅ → a = ∅ ∧ b = ∅) as Hunion.
  { intros a b H. split; apply map_empty; intros i.
    - apply (f_equal (.!! i)) in H. rewrite lookup_union, lookup_empty in H.
      by destruct (a !! i), (b !! i).
    - apply (f_equal (.!! i)) in H. rewrite lookup_union, lookup_empty in H.
      by destruct (a !! i), (b !! i). }
  destruct (mergeEntries_cases je m1)
    as [[(k & s1 & Hm1 & Hnil & Hne) ->]|[Hfree1 (je1 & -> & Hlook1)]]; cbn [mbind option_bind].
  - (* the first merge panics: so does the merge of the merged map *)
    destruct (mergeEntries_cases je m12) as [[_ ->]|[Hfree _]]; [done|]. exfalso.
    specialize (Hlook12 k). rewrite Hm1 in Hlook12.
    destruct (m2 !! k) as [s2|] eqn:Hm2.
    + destruct s1 as [i1|]; [|done]. cbn [merged_inner] in Hlook12.
      pose proof (Hfree k _ Hlook12 Hnil) as He. cbn in He.
      apply Hunion in He as [_ He]. by apply Hne.
    + by apply Hne, (Hfree k s1).
  - destruct (mergeEntries_cases je1 m2)
      as [[(k & s2 & Hm2 & Hnil & Hne) ->]|[Hfree2 (je2 & -> & Hlook2)]].
    + (* the second merge panics *)
      destruct (mergeEntries_cases je m12) as [[_ ->]|[Hfree _]]; [done|]. exfalso.
      specialize (Hlook12 k). rewrite Hm2 in Hlook12.
      rewrite Hlook1 in Hnil.
      destruct (m1 !! k) as [s1|] eqn:Hm1.
      * injection Hnil as Hnil. destruct (je !! k) as [[inner|]|] eqn:Hj; try done.
        pose proof (Hfree k _ Hlook12 Hj) as He.
        destruct s1 as [i1|]; cbn [merged_inner held from_option id] in He.
        -- apply Hunion in He as [He _]. by apply Hne.
        -- by apply Hne, (Hfree12 k s2 Hm2 Hm1).
      * pose proof (Hfree k _ Hlook12 Hnil) as He. by apply Hne.
    + destruct (mergeEntries_cases je m12)
        as [[(k & s & Hm & Hnil & Hne) _]|[_ (je3 & -> & Hlook3)]].
      * exfalso. rewrite Hlook12 in Hm.
        destruct (m2 !! k) as [s2|] eqn:Hm2.
        -- injection Hm as <-.
           assert (je1 !! k = Some None) as Hj1.
           { rewrite Hlook1. destruct (m1 !! k) as [s1|] eqn:Hm1; [|done].
             by rewrite Hnil. }
           pose proof (Hfree2 k s2 Hm2 Hj1) as He2.
           destruct (m1 !! k) as [[i1|]|] eqn:Hm1; cbn [merged_inner held from_option id] in Hne.
           ++ apply Hne. rewrite He2, (left_id_L ∅ (∪)). by apply (Hfree1 k (Some i1)).
           ++ done.
           ++ by apply Hne.
        -- by apply Hne, (Hfree1 k s).
      * f_equal. apply map_eq. intros k0. rewrite Hlook2, Hlook3, Hlook1, Hlook12.
        destruct (m2 !! k0) as [s2|] eqn:Hm2, (m1 !! k0) as [s1|] eqn:Hm1; try done.
        -- f_equal. destruct (je !! k0) as [[inner|]|] eqn:Hj, s1 as [i1|];
             cbn [merged_inner held from_option id]; try done.
           ++ by rewrite (assoc_L (∪)).
           ++ rewrite (Hfree12 k0 s2 Hm2 Hm1). by rewrite !(left_id_L ∅ (∪)).
           ++ rewrite (Hfree12 k0 s2 Hm2 Hm1). by rewrite (left_id_L ∅ (∪)).
Qed.

Lemma mergeEntries_assoc_witness :
  let m12 : gmap string (option (gmap string Sample.entry)) :=
    {[ "dom1" := Some {[ "c1" := "v2" ]}; "dom2" := Some {[ "c2" := "v3" ]};
       "new.example" := Some {[ "tok" := "2" ]} ]} in
  mergeEntries Sample.their_doc Sample.disk_doc = Some m12
  ∧ mergeEntries (entries Sample.our_jar) Sample.their_doc
      ≫= (λ je', mergeEntries je' Sample.disk_doc)
    = mergeEntries (entries Sample.our_jar) m12.
Proof.
  intros m12.
  assert (mergeEntries Sample.their_doc Sample.disk_doc = Some m12) as H by by_compute.
  split; [exact H|]. exact (mergeEntries_assoc _ _ _ _ H).
Defined.

(** Without that: merged one after the other into an empty jar, a nil inner
    map and then entries for its key go through, the jar making its own map;
    merged into one another first, they panic. *)
Example mergeEntries_assoc_needs_completion :
  let m1 : gmap string (option (gmap string Sample.entry)) := {[ "d" := None ]} in
  let m2 : gmap string (option (gmap string Sample.entry)) := {[ "d" := Some {[ "x" := "1" ]} ]} in
  mergeEntries ∅ m1 ≫= (λ je', mergeEntries je' m2) = Some m2
  ∧ mergeEntries m1 m2 = None.
Proof. by_compute. Qed.

(** ** More about the atomic file writer *)

Lemma Split_no_slash (p : string) : has_slash p = false → Split p = ("", p).
Proof.
  induction p as [|c p IH]; [done|]. cbn [has_slash Split].
  intros [Hc Hp]%orb_false_elim. rewrite (IH Hp). rewrite decide_True by done.
  apply bool_decide_eq_false in Hc. by rewrite decide_False.
Qed.

Lemma string_app_nil_r (s : string) : s +:+ "" = s.
Proof.
  induction s as [|c s IH]; [done|].
  change (String c (s +:+ "") = String c s). by rewrite IH.
Qed.

Lemma joinPath_app (dir name : string) : joinPath dir name = joinPath dir "" +:+ name.
Proof.
  unfold joinPath. destruct (ends_with_separator dir).
  - by rewrite string_app_nil_r.
  - by rewrite string_app_assoc.
Qed.

(** The last star of a pattern is the one with no star after it. *)
Lemma cut_at_last_star_found (prefix suffix : string) :
  cut_at_last_star suffix = None →
  cut_at_last_star (prefix +:+ String "*" suffix) = Some (prefix, suffix).
Proof.
  intros Hs. induction prefix as [|c prefix IH].
  - change ("" +:+ String "*" suffix) with (String "*" suffix).
    cbn [cut_at_last_star]. rewrite Hs. by rewrite decide_True.
  - change (String c prefix +:+ String "*" suffix)
      with (String c (prefix +:+ String "*" suffix)).
    cbn [cut_at_last_star]. by rewrite IH.
Qed.

Section AtomicMore.
Variable E : environment.

(** The directory of the temporary file of [fn], with its separator. *)
Lemma temp_name_dir (fn prefix : string) :
  joinPath (if decide ((Split fn).1 = "") then TempDir E else (Split fn).1) prefix
  = (if decide ((Split fn).1 = "") then joinPath (TempDir E) "" else (Split fn).1) +:+ prefix.
Proof.
  case_decide as Hd; [apply joinPath_app|].
  destruct (Split_dir fn) as [?|Hsep]; [done|]. unfold joinPath. by rewrite Hsep.
Qed.

(** The name of the temporary file of a target without a star: the random
    digits come last. *)
Lemma temp_name_no_star (fn : string) (n : nat) :
  cut_at_last_star (Split fn).2 = None →
  temp_name E fn n
  = (if decide ((Split fn).1 = "") then joinPath (TempDir E) "" else (Split fn).1)
    +:+ (Split fn).2 +:+ nextRandom E n.
Proof.
  intros Hcut. unfold temp_name, temp_path, ToSlash, prefixAndSuffix. rewrite Hcut.
  cbn [from_option id]. by rewrite temp_name_dir, string_app_nil_r, string_app_assoc.
Qed.

(** With a star: the random digits take the place of the last one. *)
Lemma temp_name_star (fn prefix suffix : string) (n : nat) :
  (Split fn).2 = prefix +:+ String "*" suffix →
  cut_at_last_star suffix = None →
  temp_name E fn n
  = (if decide ((Split fn).1 = "") then joinPath (TempDir E) "" else (Split fn).1)
    +:+ prefix +:+ nextRandom E n +:+ suffix.
Proof.
  intros Hname Hcut. unfold temp_name, temp_path, ToSlash, prefixAndSuffix.
  rewrite Hname, (cut_at_last_star_found prefix suffix Hcut).
  cbn [from_option id]. by rewrite temp_name_dir, string_app_assoc.
Qed.

Lemma os_Rename_quiet old new w :
  quiet E →
  match (os_Rename E old new w).1 with
  | None => ∃ tmp, files w !! old = Some tmp
                   ∧ files (os_Rename E old new w).2 = <[new := tmp]> (delete old (files w))
  | Some _ => files (os_Rename E old new w).2 = files w
  end.
Proof.
  intros Hq. unfold os_Rename. cbn zeta. rewrite (enter_files E Hq).
  destruct (fault _ _ _); cbn [fst snd]; [done|].
  destruct (files w !! old) as [tmp|]; cbn [fst snd]; [|done].
  by exists tmp.
Qed.
End AtomicMore.

(** X6. When [create] succeeds, the handle holds the target name, the
    temporary file and the time read after its creation.  The temporary file
    is not the target; it is in the directory of the target (in the
    temporary directory when the target name has no slash), and its name is
    the file name of the target with the random digits after it or, when
    that name has a star, in place of its last star.  No file had that name,
    and the file system gains that one file, empty. *)
Theorem create_makes_fresh_empty_file (E : environment) (a a' : atomicFile)
    (fn : string) (w w' : world) :
  create E a fn w = (a', None, w') →
  let f := temp_name E fn (tick w) in
  let dir := if decide ((Split fn).1 = "") then joinPath (TempDir E) "" else (Split fn).1 in
  a' = AtomicFile fn (Some f) (clock w')
  ∧ f ≠ fn
  ∧ (cut_at_last_star (Split fn).2 = None →
     f = dir +:+ (Split fn).2 +:+ nextRandom E (tick w))
  ∧ (∀ prefix suffix,
       (Split fn).2 = prefix +:+ String "*" suffix → cut_at_last_star suffix = None →
       f = dir +:+ prefix +:+ nextRandom E (tick w) +:+ suffix)
  ∧ rival E (tick w) (files w) !! f = None
  ∧ files w' = <[f := File "" (clock w')]> (rival E (tick w) (files w)).
Proof.
  intros Hc f dir. split_and!.
  - subst f. unfold create, temp_name in *.
    destruct (Split (ToSlash fn)) as [d name]. cbn [fst snd].
    unfold os_TempFile in Hc. cbn zeta in Hc.
    destruct (fault _ _ _); [by inversion Hc|].
    destruct (files (enter E w) !! _) eqn:Hfree; inversion Hc; subst. done.
  - apply temp_name_neq.
  - apply temp_name_no_star.
  - intros prefix suffix Hname Hcut. by apply temp_name_star.
  - subst f. unfold create, temp_name in *.
    destruct (Split (ToSlash fn)) as [d name]. cbn [fst snd].
    unfold os_TempFile in Hc. cbn zeta in Hc.
    destruct (fault _ _ _); [by inversion Hc|].
    by destruct (files (enter E w) !! _) eqn:Hfree; inversion Hc.
  - subst f. unfold create, temp_name in *.
    destruct (Split (ToSlash fn)) as [d name]. cbn [fst snd].
    unfold os_TempFile in Hc. cbn zeta in Hc.
    destruct (fault _ _ _); [by inversion Hc|].
    destruct (files (enter E w) !! _) eqn:Hfree; inversion Hc; subst. done.
Qed.

Lemma create_makes_fresh_empty_file_witness :
  create Sample.calm zero_atomicFile Sample.target Sample.nothing
  = (Sample.handle1, None, Cases.created)
  ∧ Sample.handle1 = AtomicFile Sample.target (Some Sample.temp) (clock Cases.created)
  ∧ Sample.temp = "/home/u/" +:+ "cookies.json" +:+ nextRandom Sample.calm 0
  ∧ files Cases.created = <[Sample.temp := File "" 1]> ∅.
Proof.
  assert (create Sample.calm zero_atomicFile Sample.target Sample.nothing
          = (Sample.handle1, None, Cases.created)) as H by by_compute.
  destruct (create_makes_fresh_empty_file _ _ _ _ _ _ H) as (Ha & _ & Hn & _ & _ & Hf).
  split_and!; [exact H|exact Ha|exact (Hn eq_refl)|exact Hf].
Defined.

(** The star of a pattern, on a name of the sample. *)
Example temp_name_fills_star :
  temp_name Sample.calm "/home/u/coo*kies.json" 0 = "/home/u/coo42kies.json"
  ∧ temp_name Sample.calm "cookies.json" 0 = "/tmp/cookies.json42".
Proof. by_compute. Qed.

(** X7. When [create] fails, the error is one of package os, the handle
    holds the target name and no file, keeps the creation time it had, and
    the file system is as the other processes left it: nothing was created. *)
Theorem create_failure_leaves_nothing (E : environment) (a a' : atomicFile)
    (fn : string) (w w' : world) (e : error) :
  create E a fn w = (a', Some e, w') →
  a' = AtomicFile fn None (af_ctime a)
  ∧ (∃ en, e = PathError en)
  ∧ files w' = rival E (tick w) (files w).
Proof.
  unfold create. destruct (Split (ToSlash fn)) as [dir name].
  unfold os_TempFile. cbn zeta.
  destruct (fault _ _ _); [|destruct (files (enter E w) !! _)];
    intros Hc; inversion Hc; subst; split_and!; eauto.
Qed.

Lemma create_failure_leaves_nothing_witness :
  let out := create Cases.full_disk zero_atomicFile Sample.target Sample.nothing in
  out.1 = (AtomicFile Sample.target None 0, Some (PathError ENOSPC))
  ∧ files out.2 = ∅.
Proof.
  intros out.
  assert (create Cases.full_disk zero_atomicFile Sample.target Sample.nothing
          = (AtomicFile Sample.target None 0, Some (PathError ENOSPC), out.2)) as H by by_compute.
  destruct (create_failure_leaves_nothing _ _ _ _ _ _ _ H) as (_ & _ & Hf).
  split; [by_compute|exact Hf].
Defined.

Lemma commit_quiet (E : environment) (a : atomicFile) (f : string) (w : world) :
  quiet E → af_file a = Some f → f ≠ af_filename a →
  match (commit E a w).1 with
  | None =>
      ∃ tmp, files w !! f = Some tmp
             ∧ files (commit E a w).2 = <[af_filename a := tmp]> (delete f (files w))
  | Some _ => ∀ x, x ≠ f → files (commit E a w).2 !! x = files w !! x
  end.
Proof.
  intros Hq Hf Hne. rewrite (commit_unfold E a f w Hf). cbn zeta.
  set (st := os_Stat E (af_filename a) (flushed E f w)).
  assert (files st.2 = files w) as Hst
    by (unfold st; by rewrite (os_Stat_files E Hq), (flushed_files E f w Hq)).
  assert (∀ w0, files w0 = files w →
            ∀ x, x ≠ f → files (cancel E a w0).2 !! x = files w !! x) as Hcancel.
  { intros w0 Hw0 x Hx. rewrite (cancel_files E a f w0 Hq Hf), Hw0.
    destruct (fault _ _ _); [done|]. by rewrite lookup_delete_ne. }
  pose proof (os_Rename_quiet E f (af_filename a) st.2 Hq) as Hrn. rewrite Hst in Hrn.
  assert (match (os_Rename E f (af_filename a) st.2).1 with
          | None =>
              ∃ tmp, files w !! f = Some tmp
                ∧ files (os_Close E f (os_Rename E f (af_filename a) st.2).2).2
                  = <[af_filename a := tmp]> (delete f (files w))
          | Some _ => ∀ x, x ≠ f →
              files (cancel E a (os_Rename E f (af_filename a) st.2).2).2 !! x = files w !! x
          end) as Hren.
  { destruct (os_Rename E f (af_filename a) st.2).1.
    - by apply Hcancel.
    - destruct Hrn as (tmp & Htmp & Hfs). exists tmp. split; [done|].
      by rewrite (os_Close_files E Hq). }
  destruct st.1 as [[info|] [[]|]]; cbn [fst snd];
    try (by apply Hcancel);
    try (destruct (After _ _); cbn [fst snd]; [by apply Hcancel|]);
    destruct (os_Rename E f (af_filename a) st.2).1; cbn [fst snd]; done.
Qed.

Lemma cancel_cases (E : environment) (a : atomicFile) (f : string) (w : world) :
  af_file a = Some f →
  match fault E (S (tick w)) (SysRemove f) with
  | None => (cancel E a w).1 = None ∧ files (cancel E a w).2 !! f = None
  | Some en =>
      (cancel E a w).1 = (if decide (en = ENOENT) then None else Some (PathError en))
  end.
Proof.
  intros Hf. unfold cancel. rewrite Hf.
  destruct (os_Close E f w) as [r1 w1] eqn:H1.
  assert (tick w1 = S (tick w)) as Ht by (unfold os_Close in H1; by simplify_eq).
  unfold os_Remove. cbn zeta. rewrite Ht.
  destruct (fault E (S (tick w)) (SysRemove f)) as [en|] eqn:Hfault.
  - by destruct en.
  - destruct (files (enter E w1) !! f) eqn:Hp; cbn; split; try done. apply lookup_delete_eq.
Qed.

(** X8. On a handle that holds a file, what [cancel] returns is decided by
    [os.Remove] alone, the result of the [Close] before it being dropped: when
    Remove is not made to fail, [cancel] returns nil and the temporary file is
    gone, whether it was still there or not; a failure of Remove is returned,
    unless it is file-not-found, which gives nil. *)
Theorem cancel_outcome (E : environment) (a : atomicFile) (f : string) (w : world) :
  af_file a = Some f →
  match fault E (S (tick w)) (SysRemove f) with
  | None => (cancel E a w).1 = None ∧ files (cancel E a w).2 !! f = None
  | Some en =>
      (cancel E a w).1 = (if decide (en = ENOENT) then None else Some (PathError en))
  end.
Proof. apply cancel_cases. Qed.

Lemma cancel_outcome_witness :
  af_file Sample.handle = Some Sample.temp
  ∧ (cancel Sample.calm Sample.handle Sample.first_run).1 = None
  ∧ files (cancel Sample.calm Sample.handle Sample.first_run).2 !! Sample.temp = None.
Proof.
  split; [reflexivity|].
  exact (cancel_outcome Sample.calm Sample.handle Sample.temp Sample.first_run eq_refl).
Defined.

(** X9. Without interference from other processes, [commit] on a handle
    that holds a file either returns nil, and then the target is what the
    temporary file was, the temporary name is gone and no other file has
    changed; or returns an error, and then no file but the temporary one has
    changed, the target in particular. *)
Theorem commit_all_or_nothing (E : environment) (a : atomicFile) (f : string) (w : world) :
  quiet E → af_file a = Some f → f ≠ af_filename a →
  match (commit E a w).1 with
  | None =>
      ∃ tmp, files w !! f = Some tmp
             ∧ files (commit E a w).2 = <[af_filename a := tmp]> (delete f (files w))
  | Some _ => ∀ x, x ≠ f → files (commit E a w).2 !! x = files w !! x
  end.
Proof. apply commit_quiet. Qed.

Lemma commit_all_or_nothing_witness :
  quiet Sample.calm ∧ Sample.temp ≠ Sample.target
  ∧ files (commit Sample.calm Sample.handle Sample.first_run).2
    = <[Sample.target := File "{}" 11]> (delete Sample.temp (files Sample.first_run)).
Proof.
  assert (quiet Sample.calm) as Hq by (by intros n fs).
  assert (Sample.temp ≠ Sample.target) as Hne
    by (intros Heq; vm_compute in Heq; discriminate Heq).
  split_and!; [exact Hq|exact Hne|].
  pose proof (commit_all_or_nothing Sample.calm Sample.handle Sample.temp Sample.first_run
                Hq eq_refl Hne) as H.
  assert ((commit Sample.calm Sample.handle Sample.first_run).1 = None) as Hr by by_compute.
  rewrite Hr in H. destruct H as (tmp & Htmp & Hfiles).
  assert (tmp = File "{}" 11) as -> by (vm_compute in Htmp; congruence).
  exact Hfiles.
Defined.

(** X10. Without interference and with a Remove that does not fail,
    [cancel] can be called again: the first call removes the temporary file
    and nothing else, the second returns nil and changes no file; and [cancel]
    after a [commit] that returned nil returns nil and leaves the file system,
    the new target included, as [commit] left it. *)
Theorem cancel_is_idempotent (E : environment) (a : atomicFile) (f : string) (w : world) :
  quiet E → removal_works E → af_file a = Some f → f ≠ af_filename a →
  let again w0 := cancel E a (cancel E a w0).2 in
  ((again w).1 = None ∧ files (again w).2 = files (cancel E a w).2
   ∧ files (cancel E a w).2 = delete f (files w))
  ∧ ((commit E a w).1 = None →
     (cancel E a (commit E a w).2).1 = None
     ∧ files (cancel E a (commit E a w).2).2 = files (commit E a w).2).
Proof.
  intros Hq Hrm Hf Hne again. subst again. cbn beta.
  assert (∀ w0, (cancel E a w0).1 = None ∧ files (cancel E a w0).2 = delete f (files w0)) as Hc.
  { intros w0. split.
    - pose proof (cancel_cases E a f w0 Hf) as H0. rewrite Hrm in H0. by destruct H0.
    - rewrite (cancel_files E a f w0 Hq Hf). by rewrite Hrm. }
  split.
  - destruct (Hc (cancel E a w).2) as [H1 H2]. destruct (Hc w) as [_ H3].
    split_and!; [done| |done]. rewrite H2, H3. by rewrite delete_delete_eq.
  - intros Hok. destruct (Hc (commit E a w).2) as [H1 H2]. split; [done|].
    rewrite H2. pose proof (commit_quiet E a f w Hq Hf Hne) as Hall.
    rewrite Hok in Hall. destruct Hall as (tmp & _ & ->).
    apply delete_id. rewrite lookup_insert_ne by done. apply lookup_delete_eq.
Qed.

Lemma cancel_is_idempotent_witness :
  quiet Sample.calm ∧ removal_works Sample.calm
  ∧ (cancel Sample.calm Sample.handle
       (cancel Sample.calm Sample.handle Sample.first_run).2).1 = None
  ∧ files (cancel Sample.calm Sample.handle Sample.first_run).2
    = delete Sample.temp (files Sample.first_run).
Proof.
  assert (quiet Sample.calm) as Hq by (by intros n fs).
  assert (removal_works Sample.calm) as Hr by (by intros n p).
  assert (Sample.temp ≠ Sample.target) as Hne
    by (intros Heq; vm_compute in Heq; discriminate Heq).
  destruct (cancel_is_idempotent Sample.calm Sample.handle Sample.temp Sample.first_run
              Hq Hr eq_refl Hne) as [(H1 & _ & H3) _].
  split_and!; [exact Hq|exact Hr|exact H1|exact H3].
Defined.

(** ** More about [Save] *)

Section SaveMore.
Context {entry : Type}.
Variable json : codec entry.
Variable E : environment.
Implicit Types (j : Jar entry).

(** A turn of the loop changes the jar only by merging into it. *)
Lemma Save_attempt_jar j st :
  let out := Save_attempt json E j st in
  out.1.2 = j
  ∨ ∃ m merged, out.1.1 = Continue ∧ mergeEntries (entries j) m = Some merged
                ∧ out.1.2 = MkJar (filename j) merged.
Proof.
  cbn zeta. unfold Save_attempt.
  destruct (create E _ _ st) as [[af [e|]] st1]; [by left|].
  destruct (WriteTo json E j _ st1) as [[e|] st2].
  { destruct (cancel E af st2). by left. }
  destruct (commit E af st2) as [[e|] st3]; [|by left].
  destruct (cancel E af st3) as [? st4].
  destruct (negb (isRetry (Some e))); [by left|].
  destruct (loadJSON json E _ _ st4) as [[m [le|]] st5]; [by left|].
  destruct (mergeEntries (entries j) m) as [merged|] eqn:Hmg; [|by left].
  right. eauto.
Qed.

Lemma Save_loop_keeps fuel j st r j' st' :
  Save_loop json E fuel j st = Returns (r, j', st') →
  filename j' = filename j
  ∧ (∀ k0, is_Some (entries j !! k0) → is_Some (entries j' !! k0))
  ∧ (∀ k0 k1, is_Some (lookup2 (entries j) k0 k1) → is_Some (lookup2 (entries j') k0 k1)).
Proof.
  revert j st. induction fuel as [|fuel IH]; intros j st; [done|].
  cbn [Save_loop]. pose proof (Save_attempt_jar j st) as Hj. cbn zeta in Hj.
  destruct (Save_attempt json E j st) as [[o j1] st1]. cbn [fst snd] in Hj.
  assert (filename j1 = filename j
          ∧ (∀ k0, is_Some (entries j !! k0) → is_Some (entries j1 !! k0))
          ∧ (∀ k0 k1, is_Some (lookup2 (entries j) k0 k1) → is_Some (lookup2 (entries j1) k0 k1)))
    as (Hfn & Hk0 & Hk1).
  { destruct Hj as [->|(m & merged & _ & Hmg & ->)]; [done|]. cbn [filename entries].
    split_and!; [done| |].
    - intros k0 Hk. apply mergeEntries_Some in Hmg as [_ Hlook]. rewrite Hlook.
      destruct (m !! k0); [by eexists|done].
    - intros k0 k1 Hk. rewrite (mergeEntries_lookup2 _ _ _ _ _ Hmg).
      by destruct (lookup2 m k0 k1). }
  destruct o as [r1| |]; [| |done].
  - by intros [= <- <- <-].
  - intros Hloop. destruct (IH j1 st1 Hloop) as (Hfn' & Hk0' & Hk1').
    split_and!; [congruence|auto|auto].
Qed.
End SaveMore.

(** X11. Whenever [Save] returns, with an error or without, after any
    number of turns, the jar has the file name it had, and every outer key and
    every key pair that it had is still there: the merges of [Save] add and
    overwrite, they never drop. *)
Theorem Save_keeps_path_and_keys {entry : Type} (json : codec entry) (E : environment)
    (fuel : nat) (j j' : Jar entry) (st st' : world) (r : option error) :
  Save json E fuel j st = Returns (r, j', st') →
  filename j' = filename j
  ∧ (∀ k0, is_Some (entries j !! k0) → is_Some (entries j' !! k0))
  ∧ (∀ k0 k1, is_Some (lookup2 (entries j) k0 k1) → is_Some (lookup2 (entries j') k0 k1)).
Proof.
  unfold Save. case_decide; [by intros [= <- <- <-]|]. apply Save_loop_keeps.
Qed.

Lemma Save_keeps_path_and_keys_witness :
  let run := Save Sample.json Sample.racing 2 Sample.our_jar Sample.nothing in
  run = Returns (None, Sample.jar_after run, Sample.world_after run)
  ∧ filename (Sample.jar_after run) = Sample.target
  ∧ is_Some (lookup2 (entries (Sample.jar_after run)) "dom1" "ours").
Proof.
  intros run.
  assert (run = Returns (None, Sample.jar_after run, Sample.world_after run)) as H by by_compute.
  destruct (Save_keeps_path_and_keys _ _ _ _ _ _ _ _ H) as (Hn & _ & Hk).
  split_and!; [exact H|exact Hn|].
  apply Hk. exists "v0". by_compute.
Defined.

(** X12. [Save] with the retry loop agrees with the earlier [Save],
    the one that leaves the conflict to its caller, on every run without a
    conflict: when the earlier one returns nil, the later one returns nil in
    the same world with the jar unchanged; when the earlier one returns an
    error other than the conflict, the later one returns the same error; and
    when the earlier one returns the conflict, the first turn of the later one
    does not return: it ends at the bottom of the loop, or in the panic of its
    merge. *)
Theorem later_Save_refines_earlier {entry : Type} (json : codec entry) (E : environment)
    (fuel : nat) (j : Jar entry) (st st' : world) (r : option error) :
  Earlier.Save json E j st = (r, st') →
  (r = None → Save json E (S fuel) j st = Returns (None, j, st'))
  ∧ (r ≠ None → r ≠ Some erratomicFileRetry →
     ∃ st'', Save json E (S fuel) j st = Returns (r, j, st''))
  ∧ (r = Some erratomicFileRetry →
     Save json E 1 j st = Loops ∨ ∃ st'', Save json E 1 j st = Panics st'').
Proof.
  unfold Earlier.Save, Save. case_decide as Hfn.
  { intros [= <- <-]. split_and!; [done|eauto|done]. }
  cbn [Save_loop]. unfold Save_attempt.
  destruct (create E _ _ st) as [[af [e|]] st1] eqn:Hc.
  { intros [= <- <-]. split_and!; [done|eauto|].
    intros Hr. by apply (create_not_retry E _ _ _ _ _ _ Hc) in Hr. }
  destruct (WriteTo json E j _ st1) as [[e|] st2] eqn:Hw.
  { destruct (cancel E af st2) as [? st3]. intros [= <- <-]. split_and!; [done|eauto|].
    intros Hr. by apply (WriteTo_not_retry json E _ _ _ _ _ Hw) in Hr. }
  destruct (commit E af st2) as [[e|] st3].
  2:{ cbn. intros [= <- <-]. split_and!; [done|done|done]. }
  assert ((if isRetry (Some e) then (Some e, st3) else (Some e, st3)) = (Some e, st3)) as ->
    by by destruct (isRetry _).
  intros [= <- <-]. destruct (cancel E af st3) as [? st4].
  unfold isRetry. case_bool_decide as Hr; cbn [negb].
  - split_and!; [done|done|]. intros _.
    destruct (loadJSON json E _ _ st4) as [[m [le|]] st5]; [by left|].
    destruct (mergeEntries (entries j) m); [by left|right; eauto].
  - split_and!; [done|eauto|done].
Qed.

Lemma later_Save_refines_earlier_witness :
  (Earlier.Save Sample.json Sample.racing Sample.our_jar Sample.nothing).1
  = Some erratomicFileRetry
  ∧ Save Sample.json Sample.racing 1 Sample.our_jar Sample.nothing = Loops.
Proof.
  assert (Earlier.Save Sample.json Sample.racing Sample.our_jar Sample.nothing
          = (Some erratomicFileRetry,
             (Earlier.Save Sample.json Sample.racing Sample.our_jar Sample.nothing).2)) as H
    by by_compute.
  destruct (later_Save_refines_earlier Sample.json Sample.racing 0 _ _ _ _ H) as (_ & _ & H3).
  split; [by rewrite H|]. destruct (H3 eq_refl) as [HL|[st'' HP]]; [exact HL|].
  assert (Save Sample.json Sample.racing 1 Sample.our_jar Sample.nothing = Loops) as HL
    by by_compute.
  rewrite HL in HP. discriminate HP.
Defined.

Section QuietMore.
Context {entry : Type}.
Variable json : codec entry.
Variable E : environment.
Hypothesis Hquiet : quiet E.
Implicit Types (j : Jar entry).

Lemma os_TempFile_quiet dir pattern w :
  match (os_TempFile E dir pattern w).1 with
  | inr f =>
      f = temp_path E dir pattern (tick w) ∧ files w !! f = None
      ∧ files (os_TempFile E dir pattern w).2
        = <[f := File "" (clock (os_TempFile E dir pattern w).2)]> (files w)
  | inl _ => files (os_TempFile E dir pattern w).2 = files w
  end.
Proof.
  unfold os_TempFile. cbn zeta. rewrite (enter_files E Hquiet).
  destruct (fault _ _ _); cbn [fst snd]; [done|].
  by destruct (files w !! _) eqn:Hfree.
Qed.

Lemma os_Write_quiet name bytes w :
  match (os_Write E name bytes w).1, files w !! name with
  | None, Some g =>
      files (os_Write E name bytes w).2
      = <[name := File (data g +:+ bytes) (clock (os_Write E name bytes w).2)]> (files w)
  | _, _ => files (os_Write E name bytes w).2 = files w
  end.
Proof.
  unfold os_Write. cbn zeta. rewrite (enter_files E Hquiet).
  destruct (fault _ _ _); cbn [fst snd]; [by destruct (files w !! name)|].
  by destruct (files w !! name).
Qed.

Lemma os_Open_files p w : files (os_Open E p w).2 = files w.
Proof. unfold os_Open. repeat case_match; apply Hquiet. Qed.

Lemma os_Read_files name bytes w : files (os_Read E name bytes w).2 = files w.
Proof. unfold os_Read. repeat case_match; apply Hquiet. Qed.

(** Loading reads and does nothing else. *)
Lemma loadJSON_files p m st : files (loadJSON json E p m st).2 = files st.
Proof.
  unfold loadJSON.
  pose proof (os_Open_files p st) as Ho.
  destruct (os_Open E p st) as [[e|bytes] st1]; cbn [snd] in Ho.
  { by destruct (IsNotExist _). }
  unfold decodeJSON. cbn [rd_name rd_bytes].
  pose proof (os_Read_files p bytes st1) as Hr.
  destruct (os_Read E p bytes st1) as [[e|bytes'] st2]; cbn [snd] in Hr.
  - pose proof (os_Close_files E Hquiet p st2) as Hc.
    destruct (os_Close E p st2) as [? st3]. cbn [snd] in *. congruence.
  - destruct (Unmarshal json bytes') as [stored err].
    pose proof (os_Close_files E Hquiet p st2) as Hc.
    destruct (os_Close E p st2) as [? st3]. cbn [snd] in *. congruence.
Qed.

Lemma cancel_elsewhere a f w x :
  af_file a = Some f → x ≠ f → files (cancel E a w).2 !! x = files w !! x.
Proof.
  intros Hf Hx. rewrite (cancel_files E a f w Hquiet Hf).
  destruct (fault _ _ _); [done|]. by rewrite lookup_delete_ne.
Qed.

(** What a turn of [Save] does to the file system when nobody else touches
    it.  If the turn returns nil, the target has become the marshalled
    document and nothing else has changed.  Otherwise nothing has changed
    except, possibly, for the temporary file of the turn; and if removals do
    not fail, nothing has changed at all. *)
Lemma Save_attempt_quiet j st :
  let out := Save_attempt json E j st in
  match out.1.1 with
  | Return None =>
      out.1.2 = j
      ∧ ∃ bytes mtime, Marshal json (entries j) = inr bytes
          ∧ files out.2 = <[filename j := File bytes mtime]> (files st)
  | _ =>
      files out.2 !! filename j = files st !! filename j
      ∧ (removal_works E → files out.2 = files st)
  end.
Proof.
  cbn zeta. unfold Save_attempt, create.
  pose proof (temp_name_neq E (filename j) (tick st)) as Hne. unfold temp_name in Hne.
  destruct (Split (ToSlash (filename j))) as [dir name]. cbn [fst snd] in Hne.
  pose proof (os_TempFile_quiet dir name st) as Ht.
  destruct (os_TempFile E dir name st) as [[e|t] st1]; cbn [fst snd] in *.
  { by rewrite Ht. }
  destruct Ht as (-> & Hfree & Hf1). set (t := temp_path E dir name (tick st)) in *.
  cbn [af_file]. set (af := AtomicFile (filename j) (Some t) (clock st1)).
  (* a world that differs from [st] at [t] only ends the turn as stated *)
  assert (∀ w, (∀ x, x ≠ t → files w !! x = files st !! x) →
               (removal_works E → files w !! t = None) →
               files w !! filename j = files st !! filename j
               ∧ (removal_works E → files w = files st)) as Hend.
  { intros w Hw Hgone. split; [by apply Hw|].
    intros Hrm. apply map_eq. intros x. destruct (decide (x = t)) as [->|Hx].
    - by rewrite Hgone, Hfree.
    - by apply Hw. }
  assert (∀ x, x ≠ t → files st1 !! x = files st !! x) as H1
    by (intros x Hx; by rewrite Hf1, lookup_insert_ne).
  unfold WriteTo, encodeJSON. destruct (Marshal json (entries j)) as [e|bytes] eqn:Hm.
  { pose proof (λ x, cancel_elsewhere af t st1 x eq_refl) as Hc.
    pose proof (λ Hrm, cancel_absent E af t st1 Hrm eq_refl) as Hc'.
    destruct (cancel E af st1) as [? st3]. cbn [fst snd] in *.
    apply Hend; [|done]. intros x Hx. by rewrite Hc, H1. }
  cbn [file_Write]. pose proof (os_Write_quiet t bytes st1) as Hw.
  rewrite Hf1, lookup_insert_eq in Hw. cbn [data] in Hw.
  destruct (os_Write E t bytes st1) as [[e|] st2]; cbn [fst snd] in *.
  { pose proof (λ x, cancel_elsewhere af t st2 x eq_refl) as Hc.
    pose proof (λ Hrm, cancel_absent E af t st2 Hrm eq_refl) as Hc'.
    destruct (cancel E af st2) as [? st3]. cbn [fst snd] in *.
    apply Hend; [|done]. intros x Hx. by rewrite Hc, Hw, lookup_insert_ne. }
  assert (∀ x, x ≠ t → files st2 !! x = files st !! x) as H2
    by (intros x Hx; by rewrite Hw, insert_insert_eq, lookup_insert_ne).
  pose proof (commit_quiet E af t st2 Hquiet eq_refl Hne) as Hcm.
  destruct (commit E af st2) as [[e|] st3]; cbn [fst snd af_filename] in *.
  - pose proof (λ x, cancel_elsewhere af t st3 x eq_refl) as Hc.
    pose proof (λ Hrm, cancel_absent E af t st3 Hrm eq_refl) as Hc'.
    destruct (cancel E af st3) as [? st4]. cbn [fst snd] in *.
    assert (∀ x, x ≠ t → files st4 !! x = files st !! x) as H4
      by (intros x Hx; by rewrite Hc, Hcm, H2).
    destruct (negb (isRetry (Some e))); cbn [fst snd]; [by apply Hend|].
    pose proof (loadJSON_files (filename j) ∅ st4) as Hl.
    destruct (loadJSON json E (filename j) ∅ st4) as [[m lerr] st5]. cbn [fst snd] in *.
    assert (files st5 !! filename j = files st !! filename j
            ∧ (removal_works E → files st5 = files st)) as Hfin
      by (apply Hend; [intros x Hx; by rewrite Hl, H4|intros Hrm; rewrite Hl; auto]).
    destruct lerr; [done|]. by destruct (mergeEntries (entries j) m).
  - split; [done|]. exists bytes, (clock st2).
    split; [done|]. destruct Hcm as (tmp & Htmp & Hf3).
    rewrite Hw, lookup_insert_eq in Htmp. injection Htmp as <-.
    cbn [os_error fmap option_fmap option_map fst snd].
    rewrite Hf3, Hw, !delete_insert_eq, delete_id by done. done.
Qed.

Lemma Save_loop_quiet fuel j st r j' st' :
  Save_loop json E fuel j st = Returns (r, j', st') →
  match r with
  | None =>
      ∃ bytes mtime, Marshal json (entries j') = inr bytes
        ∧ files st' !! filename j = Some (File bytes mtime)
        ∧ (removal_works E → files st' = <[filename j := File bytes mtime]> (files st))
  | Some _ =>
      files st' !! filename j = files st !! filename j
      ∧ (removal_works E → files st' = files st)
  end.
Proof.
  revert j st. induction fuel as [|fuel IH]; intros j st; [done|].
  cbn [Save_loop]. pose proof (Save_attempt_quiet j st) as Ha. cbn zeta in Ha.
  pose proof (Save_attempt_jar json E j st) as Hj. cbn zeta in Hj.
  destruct (Save_attempt json E j st) as [[o j1] st1]. cbn [fst snd] in *.
  destruct o as [[e|]| |]; [| | |done].
  - intros [= <- <- <-]. done.
  - intros [= <- <- <-]. destruct Ha as (-> & bytes & mtime & Hm & Hf).
    exists bytes, mtime. split_and!; [done| |done]. rewrite Hf. apply lookup_insert_eq.
  - intros Hloop. specialize (IH j1 st1 Hloop).
    assert (filename j1 = filename j) as Hfn
      by (destruct Hj as [->|(m & merged & _ & _ & ->)]; done).
    rewrite Hfn in IH. destruct Ha as [Ht Hall].
    destruct r as [e|].
    + destruct IH as [IH1 IH2]. split; [congruence|]. intros Hrm. rewrite IH2, Hall; done.
    + destruct IH as (bytes & mtime & Hm & Hf & Hf').
      exists bytes, mtime. split_and!; [done|done|].
      intros Hrm. rewrite Hf', Hall; done.
Qed.
End QuietMore.

(** X13. Without interference from other processes, when [Save] returns
    nil the target holds the encoding of the jar's entries as they are on
    return; when [Save] returns an error the target is what it was before the
    call (absent if it was absent). *)
Theorem Save_all_or_nothing {entry : Type} (json : codec entry) (E : environment)
    (fuel : nat) (j j' : Jar entry) (st st' : world) (r : option error) :
  quiet E →
  Save json E fuel j st = Returns (r, j', st') →
  match r with
  | None =>
      ∃ bytes mtime, Marshal json (entries j') = inr bytes
        ∧ files st' !! filename j = Some (File bytes mtime)
  | Some _ => files st' !! filename j = files st !! filename j
  end.
Proof.
  intros Hq. unfold Save. case_decide; [by intros [= <- <- <-]|].
  intros Hloop. pose proof (Save_loop_quiet json E Hq fuel j st r j' st' Hloop) as H0.
  destruct r; [by destruct H0|]. destruct H0 as (bytes & mtime & ? & ? & _). eauto.
Qed.

Lemma Save_all_or_nothing_witness :
  let run := Save Sample.json Sample.calm 1 Sample.our_jar Sample.nothing in
  quiet Sample.calm
  ∧ run = Returns (None, Sample.our_jar, Sample.world_after run)
  ∧ ∃ bytes mtime, Marshal Sample.json (entries Sample.our_jar) = inr bytes
      ∧ files (Sample.world_after run) !! Sample.target = Some (File bytes mtime).
Proof.
  intros run.
  assert (quiet Sample.calm) as Hq by (by intros n fs).
  assert (run = Returns (None, Sample.our_jar, Sample.world_after run)) as H by by_compute.
  split_and!; [exact Hq|exact H|].
  exact (Save_all_or_nothing _ _ _ _ _ _ _ _ Hq H).
Defined.

(** X14. Without interference and with a Remove that does not fail,
    [Save] changes no file but the target: on success the file system is the
    one before the call with the target replaced, on error it is the one
    before the call; no temporary file is left in either case. *)
Theorem Save_changes_only_target {entry : Type} (json : codec entry) (E : environment)
    (fuel : nat) (j j' : Jar entry) (st st' : world) (r : option error) :
  quiet E → removal_works E →
  Save json E fuel j st = Returns (r, j', st') →
  match r with
  | None => ∃ target', files st' = <[filename j := target']> (files st)
  | Some _ => files st' = files st
  end.
Proof.
  intros Hq Hrm. unfold Save. case_decide; [by intros [= <- <- <-]|].
  intros Hloop. pose proof (Save_loop_quiet json E Hq fuel j st r j' st' Hloop) as H0.
  destruct r; [destruct H0; auto|]. destruct H0 as (bytes & mtime & ? & ? & H0). eauto.
Qed.

Lemma Save_changes_only_target_witness :
  let run := Save Sample.json Sample.calm 1 Sample.our_jar Sample.with_disk_doc in
  quiet Sample.calm ∧ removal_works Sample.calm
  ∧ run = Returns (None, Sample.our_jar, Sample.world_after run)
  ∧ ∃ target', files (Sample.world_after run)
               = <[Sample.target := target']> (files Sample.with_disk_doc).
Proof.
  intros run.
  assert (quiet Sample.calm) as Hq by (by intros n fs).
  assert (removal_works Sample.calm) as Hr by (by intros n p).
  assert (run = Returns (None, Sample.our_jar, Sample.world_after run)) as H by by_compute.
  split_and!; [exact Hq|exact Hr|exact H|].
  exact (Save_changes_only_target _ _ _ _ _ _ _ _ Hq Hr H).
Defined.

(** ** More about [Load], [WriteTo] and [ReadFrom] *)

(** X15. [Load] stores the path only when it returns nil; when the file
    cannot be opened or read the jar is untouched; when decoding fails the
    jar keeps its file name; and [Load] returns no error of another kind,
    neither the conflict value nor the one for a jar that was not loaded. *)
Theorem Load_error_behaviour {entry : Type} (json : codec entry) (E : environment)
    (j : Jar entry) (path : string) (st : world) :
  let out := Load json E j path st in
  match out.1.2 with
  | None => filename out.1.1 = path
  | Some (PathError _) => out.1.1 = j
  | Some (JSONError _) => filename out.1.1 = filename j
  | Some _ => False
  end.
Proof.
  cbn zeta. unfold Load, loadJSON.
  destruct (os_Open E path st) as [[e|bytes] st1].
  { destruct e; cbn; by destruct j. }
  unfold decodeJSON. cbn [rd_name rd_bytes].
  destruct (os_Read E path bytes st1) as [[e|bytes'] st2].
  { destruct (os_Close E path st2). cbn. by destruct j. }
  destruct (Unmarshal json bytes') as [stored [e|]]; by destruct (os_Close E path st2).
Qed.

(** X16. Without interference from other processes, [Load] and
    [ReadFrom] leave the file system as it is, whatever they return. *)
Theorem Load_reads_only {entry : Type} (json : codec entry) (E : environment)
    (j : Jar entry) (path : string) (r : reader) (st : world) :
  quiet E →
  files (Load json E j path st).2 = files st
  ∧ files (ReadFrom json E j r st).2 = files st.
Proof.
  intros Hq. split.
  - unfold Load. pose proof (loadJSON_files json E Hq path (entries j) st) as Hl.
    destruct (loadJSON json E path (entries j) st) as [[m [e|]] st1]; done.
  - unfold ReadFrom, decodeJSON.
    pose proof (os_Read_files E Hq (rd_name r) (rd_bytes r) st) as Hr.
    destruct (os_Read E (rd_name r) (rd_bytes r) st) as [[e|bytes] st1]; [done|].
    by destruct (Unmarshal json bytes).
Qed.

Lemma Load_reads_only_witness :
  quiet Sample.calm
  ∧ files (Load Sample.json Sample.calm Sample.old_jar Sample.target Sample.with_disk_doc).2
    = files Sample.with_disk_doc.
Proof.
  assert (quiet Sample.calm) as Hq by (by intros n fs).
  split; [exact Hq|].
  exact (proj1 (Load_reads_only Sample.json Sample.calm Sample.old_jar Sample.target
                  (Reader Sample.target "") Sample.with_disk_doc Hq)).
Defined.

(** X17. With a JSON library that decodes what it encoded for the
    document at hand, and system calls that do not fail, [WriteTo] returns nil
    and appends the encoding of the jar's entries to the file behind the
    writer, and [ReadFrom], on a reader that yields this encoding, stores the
    same entries into a jar without entries, returns nil and leaves the jar's
    file name alone. *)
Theorem WriteTo_ReadFrom_round_trip {entry : Type} (json : codec entry) (E : environment)
    (D : gmap string (option (gmap string entry))) (fn fn' name bytes old : string) (mtime : Z)
    (st st2 : world) :
  quiet E → faultless E →
  files st !! name = Some (File old mtime) →
  Marshal json D = inr bytes →
  Unmarshal json bytes = (D, None) →
  (WriteTo json E (MkJar fn D) (Some name) st).1 = None
  ∧ (data <$> files (WriteTo json E (MkJar fn D) (Some name) st).2 !! name) = Some (old +:+ bytes)
  ∧ (ReadFrom json E (MkJar fn' ∅) (Reader name bytes) st2).1 = (MkJar fn' D, None).
Proof.
  intros Hq Hf Hfile Hm Hu. unfold WriteTo, encodeJSON. cbn [entries]. rewrite Hm.
  cbn [file_Write]. destruct (calm_Write E Hq Hf name bytes st _ Hfile) as [Hr Hfs].
  destruct (os_Write E name bytes st) as [r st1]. cbn [fst snd] in *. subst r.
  split_and!; [done| |].
  - rewrite Hfs, lookup_insert_eq. done.
  - unfold ReadFrom. cbn [entries filename].
    rewrite (decodeJSON_read json E name bytes ∅ st2 (calm_Read E Hf _ _ _)), Hu.
    cbn. by rewrite (right_id_L ∅ (∪)).
Qed.

Lemma WriteTo_ReadFrom_round_trip_witness :
  (WriteTo Sample.json Sample.calm Sample.our_jar (Some Sample.temp) Cases.created).1 = None
  ∧ (data <$> files (WriteTo Sample.json Sample.calm Sample.our_jar (Some Sample.temp)
                       Cases.created).2 !! Sample.temp) = Some Sample.our_bytes
  ∧ (ReadFrom Sample.json Sample.calm Sample.empty_jar (Reader Sample.target Sample.our_bytes)
       Sample.nothing).1 = (MkJar "" (entries Sample.our_jar), None).
Proof.
  refine (WriteTo_ReadFrom_round_trip Sample.json Sample.calm (entries Sample.our_jar)
            Sample.target "" Sample.temp Sample.our_bytes "" 1 Cases.created Sample.nothing
            _ _ _ _ _).
  - by intros n fs.
  - by intros n c.
  - by_compute.
  - reflexivity.
  - by_compute.
Defined.

(** ** Uneventful runs *)

Section Clock.
Variable E : environment.
Hypothesis Hsteady : steady E.

Lemma enter_clock w : (clock w ≤ clock (enter E w))%Z.
Proof. cbn. specialize (Hsteady (tick w)). lia. Qed.

Lemma os_Sync_clock f w : (clock w ≤ clock (os_Sync E f w).2)%Z.
Proof. apply enter_clock. Qed.

Lemma os_Close_clock f w : (clock w ≤ clock (os_Close E f w).2)%Z.
Proof. apply enter_clock. Qed.

Lemma os_Stat_clock p w : (clock w ≤ clock (os_Stat E p w).2)%Z.
Proof. unfold os_Stat. repeat case_match; apply enter_clock. Qed.

Lemma os_Rename_clock p q w : (clock w ≤ clock (os_Rename E p q w).2)%Z.
Proof. unfold os_Rename. repeat case_match; apply enter_clock. Qed.

Lemma os_Remove_clock p w : (clock w ≤ clock (os_Remove E p w).2)%Z.
Proof. unfold os_Remove. repeat case_match; apply enter_clock. Qed.

Lemma cancel_clock a w : (clock w ≤ clock (cancel E a w).2)%Z.
Proof.
  unfold cancel. destruct (af_file a) as [f|]; [|done].
  pose proof (os_Close_clock f w) as H1. destruct (os_Close E f w) as [r1 w1].
  pose proof (os_Remove_clock f w1) as H2. destruct (os_Remove E f w1) as [r2 w2].
  cbn [snd] in *. destruct (IsNotExist _); cbn [snd]; lia.
Qed.

Lemma commit_clock a w : (clock w ≤ clock (commit E a w).2)%Z.
Proof.
  destruct (af_file a) as [f|] eqn:Hf; [|unfold commit; by rewrite Hf].
  rewrite (commit_unfold E a f w Hf). cbn zeta.
  set (st := os_Stat E (af_filename a) (flushed E f w)).
  assert (clock w ≤ clock st.2)%Z as Hst.
  { unfold st, flushed. etrans; [apply (os_Sync_clock f)|].
    etrans; [apply (os_Close_clock f)|]. apply os_Stat_clock. }
  pose proof (os_Rename_clock f (af_filename a) st.2) as Hrn.
  pose proof (cancel_clock a st.2) as Hc1.
  pose proof (cancel_clock a (os_Rename E f (af_filename a) st.2).2) as Hc2.
  pose proof (os_Close_clock f (os_Rename E f (af_filename a) st.2).2) as Hc3.
  repeat case_match; cbn [snd]; lia.
Qed.
End Clock.

Section CalmMore.
Context {entry : Type}.
Variable json : codec entry.
Variable E : environment.
Hypothesis Hquiet : quiet E.
Hypothesis Hfaultless : faultless E.
Hypothesis Hsteady : steady E.
Implicit Types (j : Jar entry).

Lemma calm_Write_clock name bytes w :
  clock (os_Write E name bytes w).2 = (clock w + elapse E (tick w))%Z.
Proof. unfold os_Write. cbn zeta. rewrite Hfaultless. by destruct (files _ !! _). Qed.

(** A turn of [Save] in a run without interference and failures: it
    returns nil, the only change to the file system is the target, and the
    target is not dated after the end of the turn. *)
Lemma calm_Save_turn j st bytes :
  Marshal json (entries j) = inr bytes →
  files st !! temp_name E (filename j) (tick st) = None →
  (∀ info, files st !! filename j = Some info → (modTime info ≤ clock st)%Z) →
  ∃ st' mtime,
    Save_attempt json E j st = (Return None, j, st')
    ∧ files st' = <[filename j := File bytes mtime]> (files st)
    ∧ (mtime ≤ clock st')%Z.
Proof.
  intros Hm Hfree Hold. unfold Save_attempt, create.
  pose proof (temp_name_neq E (filename j) (tick st)) as Hne.
  unfold temp_name in Hfree, Hne.
  destruct (Split (ToSlash (filename j))) as [dir name]. cbn [fst snd] in *.
  set (t := temp_path E dir name (tick st)) in *.
  destruct (calm_TempFile E Hquiet Hfaultless dir name st Hfree) as (Hr1 & Hf1 & Hc1).
  fold t in Hr1, Hf1.
  destruct (os_TempFile E dir name st) as [r1 st1]. cbn [fst snd] in *. subst r1.
  cbn [af_file]. unfold WriteTo, encodeJSON. rewrite Hm. cbn [file_Write].
  destruct (calm_Write E Hquiet Hfaultless t bytes st1
              (File "" (clock st + elapse E (tick st)))) as [Hr2 Hf2];
    [by rewrite Hf1, lookup_insert_eq|].
  pose proof (calm_Write_clock t bytes st1) as Hc2.
  destruct (os_Write E t bytes st1) as [r2 st2]. cbn [fst snd data] in *. subst r2.
  cbn [os_error fmap option_fmap option_map].
  set (tmp := File ("" +:+ bytes) (clock st1 + elapse E (tick st1))) in *.
  set (af := AtomicFile (filename j) (Some t) (clock st1)).
  destruct (calm_commit E Hquiet Hfaultless af t st2 tmp eq_refl) as [Hr3 Hf3].
  { rewrite Hf2. apply lookup_insert_eq. }
  { intros info. rewrite Hf2, lookup_insert_ne, Hf1, lookup_insert_ne by done.
    intros Hinfo. cbn. specialize (Hold info Hinfo). specialize (Hsteady (tick st)). lia. }
  pose proof (commit_clock E Hsteady af st2) as Hc3.
  destruct (commit E af st2) as [r3 st3]. cbn [fst snd af_filename] in *. subst r3.
  exists st3, (clock st1 + elapse E (tick st1))%Z. split_and!; [done| |lia].
  rewrite Hf3, Hf2, Hf1, !delete_insert_eq, delete_id by done. done.
Qed.

(** [Load] of a file that is not there. *)
Lemma calm_Load_missing j path st :
  files st !! path = None →
  ∃ st', Load json E j path st = (MkJar path (entries j), None, st')
         ∧ files st' = files st ∧ tick st' = S (tick st)
         ∧ (clock st ≤ clock st')%Z.
Proof.
  intros Hp. unfold Load, loadJSON, os_Open. cbn zeta.
  rewrite Hfaultless, (enter_files E Hquiet), Hp. cbn.
  eexists. split_and!; [done|done|done|].
  cbn. specialize (Hsteady (tick st)). lia.
Qed.
End CalmMore.

(** X18. In an uneventful environment, a second [Save] right after a
    first sees no conflict with the first one's own write (the target's
    modification time is not after the creation time of the new handle): both
    return nil without touching the jar, and the file system ends as the
    initial one with the encoding of the entries at the target. *)
Theorem Save_again_is_quiet {entry : Type} (json : codec entry) (E : environment)
    (j : Jar entry) (bytes : string) (st : world) :
  filename j ≠ "" →
  quiet E → faultless E → steady E →
  Marshal json (entries j) = inr bytes →
  (∀ n, files st !! temp_name E (filename j) n = None) →
  (∀ info, files st !! filename j = Some info → (modTime info ≤ clock st)%Z) →
  ∃ st1 st2 mtime,
    Save json E 1 j st = Returns (None, j, st1)
    ∧ Save json E 1 j st1 = Returns (None, j, st2)
    ∧ files st2 = <[filename j := File bytes mtime]> (files st).
Proof.
  intros Hfn Hq Hf Hs Hm Hfree Hold.
  destruct (calm_Save_turn json E Hq Hf Hs j st bytes Hm (Hfree _) Hold)
    as (st1 & mt1 & Ha1 & Hf1 & Hc1).
  destruct (calm_Save_turn json E Hq Hf Hs j st1 bytes Hm) as (st2 & mt2 & Ha2 & Hf2 & Hc2).
  { rewrite Hf1, lookup_insert_ne by (apply not_eq_sym, temp_name_neq). apply Hfree. }
  { intros info. rewrite Hf1, lookup_insert_eq. intros [= <-]. exact Hc1. }
  exists st1, st2, mt2. unfold Save. rewrite !decide_False by done. cbn [Save_loop].
  rewrite Ha1, Ha2. split_and!; [done|done|]. by rewrite Hf2, Hf1, insert_insert_eq.
Qed.

Lemma Save_again_is_quiet_witness :
  ∃ st1 st2 mtime,
    Save Sample.json Sample.calm 1 Sample.our_jar Sample.nothing
    = Returns (None, Sample.our_jar, st1)
    ∧ Save Sample.json Sample.calm 1 Sample.our_jar st1 = Returns (None, Sample.our_jar, st2)
    ∧ files st2 = <[Sample.target := File Sample.our_bytes mtime]> ∅.
Proof.
  refine (Save_again_is_quiet Sample.json Sample.calm Sample.our_jar Sample.our_bytes
            Sample.nothing _ _ _ _ _ _ _).
  - intros Heq. vm_compute in Heq. discriminate Heq.
  - by intros n fs.
  - by intros n c.
  - by intros n.
  - reflexivity.
  - intros n. apply lookup_empty.
  - intros info Hinfo. vm_compute in Hinfo. discriminate Hinfo.
Defined.

(** X19. On a first run, with no file at the path, in an uneventful
    environment: [Load] returns nil, stores the path and keeps the entries the
    jar has, and the [Save] that follows returns nil and creates the file,
    holding the encoding of these entries; no other file changes. *)
Theorem first_run_creates_file {entry : Type} (json : codec entry) (E : environment)
    (j : Jar entry) (path bytes : string) (st : world) :
  path ≠ "" →
  quiet E → faultless E → steady E →
  files st !! path = None →
  Marshal json (entries j) = inr bytes →
  (∀ n, files st !! temp_name E path n = None) →
  ∃ st1 st2 mtime,
    Load json E j path st = (MkJar path (entries j), None, st1)
    ∧ Save json E 1 (MkJar path (entries j)) st1 = Returns (None, MkJar path (entries j), st2)
    ∧ files st2 = <[path := File bytes mtime]> (files st).
Proof.
  intros Hfn Hq Hf Hs Hp Hm Hfree.
  destruct (calm_Load_missing json E Hq Hf Hs j path st Hp) as (st1 & Hl & Hf1 & _ & _).
  destruct (calm_Save_turn json E Hq Hf Hs (MkJar path (entries j)) st1 bytes Hm)
    as (st2 & mt & Ha & Hf2 & _).
  { cbn [filename]. rewrite Hf1. apply Hfree. }
  { intros info. cbn [filename]. by rewrite Hf1, Hp. }
  exists st1, st2, mt. split; [done|]. unfold Save. cbn [filename] in *.
  rewrite decide_False by done. cbn [Save_loop]. rewrite Ha. by rewrite Hf2, Hf1.
Qed.

Lemma first_run_creates_file_witness :
  ∃ st1 st2 mtime,
    Load Sample.json Sample.calm Sample.old_jar Sample.target Sample.nothing
    = (MkJar Sample.target (entries Sample.old_jar), None, st1)
    ∧ Save Sample.json Sample.calm 1 (MkJar Sample.target (entries Sample.old_jar)) st1
      = Returns (None, MkJar Sample.target (entries Sample.old_jar), st2)
    ∧ files st2
      = <[Sample.target := File (Sample.write_document (entries Sample.old_jar)
                                 +:+ String "010"%char "") mtime]> ∅.
Proof.
  refine (first_run_creates_file Sample.json Sample.calm Sample.old_jar Sample.target _
            Sample.nothing _ _ _ _ _ _ _).
  - intros Heq. vm_compute in Heq. discriminate Heq.
  - by intros n fs.
  - by intros n c.
  - by intros n.
  - apply lookup_empty.
  - reflexivity.
  - intros n. apply lookup_empty.
Defined.

(** X20. When the JSON library cannot encode the entries, [Save] returns
    that error on its first turn, the jar unchanged, having removed the
    temporary file it had created: the file system is as before the call. *)
Theorem Save_unencodable {entry : Type} (json : codec entry) (E : environment)
    (fuel : nat) (j : Jar entry) (e : json_error) (st : world) :
  filename j ≠ "" →
  quiet E → removal_works E →
  fault E (tick st) (SysTempFile (Split (filename j)).1 (Split (filename j)).2) = None →
  files st !! temp_name E (filename j) (tick st) = None →
  Marshal json (entries j) = inl e →
  ∃ st',
    Save json E (S fuel) j st = Returns (Some (JSONError e), j, st')
    ∧ files st' = files st.
Proof.
  intros Hfn Hq Hrm Hfault Hfree Hm.
  assert (∃ st', Save json E (S fuel) j st = Returns (Some (JSONError e), j, st')) as [st' Hs].
  { unfold Save. rewrite decide_False by done. cbn [Save_loop].
    unfold Save_attempt, create, ToSlash, temp_name, ToSlash in *.
    destruct (Split (filename j)) as [dir name]. cbn [fst snd] in *.
    unfold os_TempFile. cbn zeta. rewrite Hfault, (enter_files E Hq), Hfree.
    cbn [af_file]. unfold WriteTo, encodeJSON. rewrite Hm.
    destruct (cancel E _ _) as [? st3]. eauto. }
  exists st'. split; [done|].
  destruct (Save_loop_quiet json E Hq (S fuel) j st (Some (JSONError e)) j st') as [_ H0].
  - unfold Save in Hs. by rewrite decide_False in Hs.
  - by apply H0.
Qed.

Lemma Save_unencodable_witness :
  ∃ st',
    Save Cases.stubborn Sample.calm 1 Sample.our_jar Sample.nothing
    = Returns (Some (JSONError MarshalerError), Sample.our_jar, st')
    ∧ files st' = ∅.
Proof.
  refine (Save_unencodable Cases.stubborn Sample.calm 0 Sample.our_jar MarshalerError
            Sample.nothing _ _ _ _ _ _).
  - intros Heq. vm_compute in Heq. discriminate Heq.
  - by intros n fs.
  - by intros n p.
  - reflexivity.
  - apply lookup_empty.
  - reflexivity.
Defined.

(** ** Locality: a run depends on the environment from now on only *)

Section Locality.
Variables E E' : environment.

Lemma agree_from_mono n0 n1 : (n0 ≤ n1)%nat → agree_from n0 E E' → agree_from n1 E E'.
Proof. intros Hle [Ht H]. split; [done|]. intros n Hn. apply H. lia. Qed.

Ltac here H w :=
  destruct H as [Htmp H]; destruct (H (tick w) (le_n _)) as (Hf & Hr & He & Hs).

Lemma os_TempFile_ext d p w :
  agree_from (tick w) E E' → os_TempFile E d p w = os_TempFile E' d p w.
Proof.
  intros H. here H w. unfold os_TempFile, enter, temp_path, nextRandom, TempDir. cbn.
  by rewrite Hf, Hr, He, Hs, Htmp.
Qed.

Lemma os_Write_ext n b w :
  agree_from (tick w) E E' → os_Write E n b w = os_Write E' n b w.
Proof. intros H. here H w. unfold os_Write, enter. cbn. by rewrite Hf, Hr, He. Qed.

Lemma os_Sync_ext n w : agree_from (tick w) E E' → os_Sync E n w = os_Sync E' n w.
Proof. intros H. here H w. unfold os_Sync, enter. cbn. by rewrite Hf, Hr, He. Qed.

Lemma os_Close_ext n w : agree_from (tick w) E E' → os_Close E n w = os_Close E' n w.
Proof. intros H. here H w. unfold os_Close, enter. cbn. by rewrite Hf, Hr, He. Qed.

Lemma os_Stat_ext p w : agree_from (tick w) E E' → os_Stat E p w = os_Stat E' p w.
Proof. intros H. here H w. unfold os_Stat, enter. cbn. by rewrite Hf, Hr, He. Qed.

Lemma os_Rename_ext p q w :
  agree_from (tick w) E E' → os_Rename E p q w = os_Rename E' p q w.
Proof. intros H. here H w. unfold os_Rename, enter. cbn. by rewrite Hf, Hr, He. Qed.

Lemma os_Remove_ext p w : agree_from (tick w) E E' → os_Remove E p w = os_Remove E' p w.
Proof. intros H. here H w. unfold os_Remove, enter. cbn. by rewrite Hf, Hr, He. Qed.

Lemma os_Open_ext p w : agree_from (tick w) E E' → os_Open E p w = os_Open E' p w.
Proof. intros H. here H w. unfold os_Open, enter. cbn. by rewrite Hf, Hr, He. Qed.

Lemma os_Read_ext n b w : agree_from (tick w) E E' → os_Read E n b w = os_Read E' n b w.
Proof. intros H. here H w. unfold os_Read, enter. cbn. by rewrite Hf, Hr, He. Qed.
End Locality.

Section Ticks.
Variable E : environment.

Lemma os_TempFile_tick d p w : tick (os_TempFile E d p w).2 = S (tick w).
Proof. unfold os_TempFile. by repeat case_match. Qed.
Lemma os_Write_tick n b w : tick (os_Write E n b w).2 = S (tick w).
Proof. unfold os_Write. by repeat case_match. Qed.
Lemma os_Sync_tick n w : tick (os_Sync E n w).2 = S (tick w).
Proof. done. Qed.
Lemma os_Close_tick n w : tick (os_Close E n w).2 = S (tick w).
Proof. done. Qed.
Lemma os_Stat_tick p w : tick (os_Stat E p w).2 = S (tick w).
Proof. unfold os_Stat. by repeat case_match. Qed.
Lemma os_Rename_tick p q w : tick (os_Rename E p q w).2 = S (tick w).
Proof. unfold os_Rename. by repeat case_match. Qed.
Lemma os_Remove_tick p w : tick (os_Remove E p w).2 = S (tick w).
Proof. unfold os_Remove. by repeat case_match. Qed.
Lemma os_Open_tick p w : tick (os_Open E p w).2 = S (tick w).
Proof. unfold os_Open. by repeat case_match. Qed.
Lemma os_Read_tick n b w : tick (os_Read E n b w).2 = S (tick w).
Proof. unfold os_Read. by repeat case_match. Qed.

Lemma follows_tick path w w' : follows E path w w' → (tick w ≤ tick w')%nat.
Proof. intros [(evs & Ht & _) _]. unfold tick. rewrite Ht, length_app. lia. Qed.
End Ticks.

Section Locality2.
Context {entry : Type}.
Variable json : codec entry.
Variables E E' : environment.

Lemma cancel_ext a w : agree_from (tick w) E E' → cancel E a w = cancel E' a w.
Proof.
  intros H. unfold cancel. destruct (af_file a) as [f|]; [|done].
  rewrite (os_Close_ext E E' f w H).
  pose proof (os_Close_tick E' f w) as Ht. destruct (os_Close E' f w) as [r1 w1].
  cbn [snd] in Ht.
  rewrite (os_Remove_ext E E' f w1) by (eapply agree_from_mono; [|exact H]; lia).
  done.
Qed.

Lemma commit_ext a w : agree_from (tick w) E E' → commit E a w = commit E' a w.
Proof.
  intros H. unfold commit. destruct (af_file a) as [f|]; [|done].
  rewrite (os_Sync_ext E E' f w H).
  pose proof (os_Sync_tick E' f w) as Ht1. destruct (os_Sync E' f w) as [r1 w1].
  cbn [snd] in Ht1.
  assert (agree_from (tick w1) E E') as H1 by (eapply agree_from_mono; [|exact H]; lia).
  rewrite (os_Close_ext E E' f w1 H1).
  pose proof (os_Close_tick E' f w1) as Ht2. destruct (os_Close E' f w1) as [r2 w2].
  cbn [snd] in Ht2.
  assert (agree_from (tick w2) E E') as H2 by (eapply agree_from_mono; [|exact H]; lia).
  rewrite (os_Stat_ext E E' _ w2 H2).
  pose proof (os_Stat_tick E' (af_filename a) w2) as Ht3.
  destruct (os_Stat E' (af_filename a) w2) as [[fi se] w3]. cbn [snd] in Ht3.
  assert (agree_from (tick w3) E E') as H3 by (eapply agree_from_mono; [|exact H]; lia).
  assert (∀ w4, (tick w3 ≤ tick w4)%nat → agree_from (tick w4) E E') as Hlater
    by (intros w4 Hw4; eapply agree_from_mono; [|exact H]; lia).
  destruct (bool_decide _ || IsNotExist _); [destruct fi as [info|]; [destruct (After _ _)|]|];
    try (rewrite (os_Rename_ext E E' f (af_filename a) w3 H3);
         pose proof (os_Rename_tick E' f (af_filename a) w3) as Ht4;
         destruct (os_Rename E' f (af_filename a) w3) as [r4 w4]; cbn [snd] in Ht4);
    cbn beta iota zeta;
    repeat match goal with
    | |- context [cancel E a ?w'] => rewrite (cancel_ext a w') by (apply Hlater; lia)
    | |- context [os_Close E f ?w'] => rewrite (os_Close_ext E E' f w') by (apply Hlater; lia)
    end;
    done.
Qed.

Lemma create_ext a fn w : agree_from (tick w) E E' → create E a fn w = create E' a fn w.
Proof.
  intros H. unfold create. destruct (Split _) as [dir name].
  by rewrite (os_TempFile_ext E E' dir name w H).
Qed.

Lemma WriteTo_ext (j : Jar entry) f w :
  agree_from (tick w) E E' → WriteTo json E j f w = WriteTo json E' j f w.
Proof.
  intros H. unfold WriteTo, encodeJSON. destruct (Marshal json _); [done|].
  destruct f as [name|]; cbn [file_Write]; [|done].
  by rewrite (os_Write_ext E E' name _ w H).
Qed.

Lemma loadJSON_ext p (m : gmap string (option (gmap string entry))) w :
  agree_from (tick w) E E' → loadJSON json E p m w = loadJSON json E' p m w.
Proof.
  intros H. unfold loadJSON. rewrite (os_Open_ext E E' p w H).
  pose proof (os_Open_tick E' p w) as Ht1. destruct (os_Open E' p w) as [[e|bytes] w1]; [done|].
  cbn [snd] in Ht1. unfold decodeJSON. cbn [rd_name rd_bytes].
  assert (agree_from (tick w1) E E') as H1 by (eapply agree_from_mono; [|exact H]; lia).
  rewrite (os_Read_ext E E' p bytes w1 H1).
  pose proof (os_Read_tick E' p bytes w1) as Ht2.
  destruct (os_Read E' p bytes w1) as [[e|bytes'] w2]; cbn [snd] in Ht2.
  - rewrite (os_Close_ext E E' p w2) by (eapply agree_from_mono; [|exact H]; lia). done.
  - destruct (Unmarshal json bytes') as [stored err].
    rewrite (os_Close_ext E E' p w2) by (eapply agree_from_mono; [|exact H]; lia). done.
Qed.

(** What a turn of [Save] does depends on the environment from now on
    only. *)
Lemma Save_attempt_ext (j : Jar entry) w :
  agree_from (tick w) E E' → Save_attempt json E j w = Save_attempt json E' j w.
Proof.
  intros H. unfold Save_attempt. rewrite (create_ext _ _ w H).
  assert (tick w ≤ tick (create E' zero_atomicFile (filename j) w).2)%nat as Ht1.
  { unfold create. destruct (Split _) as [dir name].
    pose proof (os_TempFile_tick E' dir name w) as Ht.
    destruct (os_TempFile E' dir name w) as [[?|?] w1]; cbn [snd] in *; lia. }
  destruct (create E' zero_atomicFile (filename j) w) as [[af [e|]] w1]; [done|].
  cbn [snd] in Ht1.
  assert (agree_from (tick w1) E E') as H1 by (eapply agree_from_mono; [|exact H]; lia).
  rewrite (WriteTo_ext j _ w1 H1).
  pose proof (follows_tick E' "" _ _ (WriteTo_follows json E' "" j (af_file af) w1)) as Ht2.
  destruct (WriteTo json E' j (af_file af) w1) as [[e|] w2]; cbn [snd] in Ht2.
  { rewrite (cancel_ext af w2) by (eapply agree_from_mono; [|exact H]; lia). done. }
  assert (agree_from (tick w2) E E') as H2 by (eapply agree_from_mono; [|exact H]; lia).
  rewrite (commit_ext af w2 H2).
  pose proof (follows_tick E' _ _ _ (commit_follows E' (af_filename af) af w2 eq_refl)) as Ht3.
  destruct (commit E' af w2) as [[e|] w3]; [|done]. cbn [snd] in Ht3.
  assert (agree_from (tick w3) E E') as H3 by (eapply agree_from_mono; [|exact H]; lia).
  rewrite (cancel_ext af w3 H3).
  pose proof (follows_tick E' "" _ _ (cancel_follows E' "" af w3)) as Ht4.
  destruct (cancel E' af w3) as [? w4]. cbn [snd] in Ht4.
  rewrite (loadJSON_ext _ _ w4) by (eapply agree_from_mono; [|exact H]; lia).
  done.
Qed.
End Locality2.

Lemma settled_agrees n0 E : agree_from n0 E (settled n0 E).
Proof.
  split; [done|]. intros n Hn. cbn. destruct (decide (n0 ≤ n)%nat); [done|lia].
Qed.

Lemma settled_calm n0 E :
  calm_from n0 E → quiet (settled n0 E) ∧ faultless (settled n0 E) ∧ steady (settled n0 E).
Proof.
  intros H. split_and!.
  - intros n fs. cbn. case_decide; [|done]. by apply H.
  - intros n c. cbn. case_decide; [|done]. by apply H.
  - intros n. cbn. case_decide; [|done]. by apply H.
Qed.

Lemma temp_name_ext n0 E E' fn n :
  agree_from n0 E E' → (n0 ≤ n)%nat → temp_name E fn n = temp_name E' fn n.
Proof.
  intros [Htmp H] Hn. destruct (H n Hn) as (_ & _ & _ & Hs).
  unfold temp_name, temp_path, nextRandom, TempDir. by rewrite Hs, Htmp.
Qed.

(** X21. The two turns of [Save] after a lost race.  When the
    [commit] of the first turn reports the conflict, the reload succeeds,
    giving [m], and the merge of [m] into the jar completes (it panics on a
    nil inner map), and from then on nothing fails, no other process
    interferes and the clock does not go back, the second turn succeeds:
    [Save] returns nil, the jar holds its entries merged with [m], and the
    target holds the encoding of the merged entries, no other file having
    changed since the reload. *)
Theorem Save_merges_after_conflict {entry : Type} (json : codec entry) (E : environment)
    (fuel : nat) (j : Jar entry) (st st1 st2 st3 st5 : world) (af : atomicFile)
    (m merged : gmap string (option (gmap string entry))) (bytes : string) :
  filename j ≠ "" →
  create E zero_atomicFile (filename j) st = (af, None, st1) →
  WriteTo json E j (af_file af) st1 = (None, st2) →
  commit E af st2 = (Some erratomicFileRetry, st3) →
  loadJSON json E (filename j) ∅ (cancel E af st3).2 = (m, None, st5) →
  mergeEntries (entries j) m = Some merged →
  calm_from (tick st5) E →
  Marshal json merged = inr bytes →
  files st5 !! temp_name E (filename j) (tick st5) = None →
  (∀ info, files st5 !! filename j = Some info → (modTime info ≤ clock st5)%Z) →
  ∃ st' mtime,
    Save json E (S (S fuel)) j st = Returns (None, MkJar (filename j) merged, st')
    ∧ files st' = <[filename j := File bytes mtime]> (files st5).
Proof.
  intros Hname Hc Hw Hm Hl Hmg Hcalm Hmar Hfree Hold.
  set (j' := MkJar (filename j) merged).
  assert (Save_attempt json E j st = (Continue, j', st5)) as Ha
    by (by rewrite (Save_attempt_conflict json E j st af st1 st2 st3 Hc Hw Hm), Hl, Hmg).
  destruct (settled_calm (tick st5) E Hcalm) as (Hq & Hf & Hs).
  pose proof (settled_agrees (tick st5) E) as Hag.
  destruct (calm_Save_turn json (settled (tick st5) E) Hq Hf Hs j' st5 bytes Hmar)
    as (st' & mtime & Ha' & Hfs & _).
  { cbn [filename j']. by rewrite <-(temp_name_ext (tick st5) E _ _ _ Hag). }
  { done. }
  rewrite <-(Save_attempt_ext json E _ j' st5 Hag) in Ha'.
  exists st', mtime. unfold Save. rewrite decide_False by done.
  cbn [Save_loop]. rewrite Ha, Ha'. done.
Qed.

Lemma Save_merges_after_conflict_witness :
  let merged : gmap string (option (gmap string Sample.entry)) :=
    {[ "dom1" := Some {[ "c1" := "v2"; "ours" := "v0" ]};
       "dom2" := Some {[ "c2" := "v3" ]} ]} in
  ∃ st' mtime,
    Save Sample.json Sample.racing 2 Sample.our_jar Sample.nothing
    = Returns (None, MkJar Sample.target merged, st')
    ∧ files st' !! Sample.target
      = Some (File (Sample.write_document merged +:+ String "010"%char "") mtime).
Proof.
  intros merged.
  set (st1 := Cases.created).
  set (st2 := (WriteTo Sample.json Sample.racing Sample.our_jar (Some Sample.temp) st1).2).
  set (st3 := (commit Sample.racing Sample.handle1 st2).2).
  set (st5 := (loadJSON Sample.json Sample.racing Sample.target ∅
                 (cancel Sample.racing Sample.handle1 st3).2).2).
  destruct (Save_merges_after_conflict Sample.json Sample.racing 0 Sample.our_jar
              Sample.nothing st1 st2 st3 st5 Sample.handle1 Sample.their_doc merged
              (Sample.write_document merged +:+ String "010"%char ""))
    as (st' & mtime & Hrun & Hfiles).
  - intros Heq. vm_compute in Heq. discriminate Heq.
  - by_compute.
  - by_compute.
  - by_compute.
  - by_compute.
  - by_compute.
  - assert (tick st5 = 12%nat) as -> by by_compute.
    intros n Hn. cbn. split_and!; [done| |lia].
    intros fs. rewrite decide_False by lia. done.
  - reflexivity.
  - by_compute.
  - intros info Hinfo.
    assert (info = File Sample.their_bytes 2) as -> by (vm_compute in Hinfo |- *; congruence).
    apply Z.leb_le. by_compute.
  - exists st', mtime. split; [exact Hrun|]. rewrite Hfiles. apply lookup_insert_eq.
Defined.
